(** * ffonons: document cache, result aggregation and benchmark metrics

    A shallow embedding of the parts of the ffonons repository that fetch
    and cache Materials Project phonon documents ([ffonons/dbs/mp.py]), load
    and group the stored documents ([ffonons/phonon.py]) and score the models
    against the reference ([scripts/analysis/metrics_table.py]). *)

From Stdlib Require Import Ascii String ZArith QArith Qcanon Qcabs Sorted.
From stdpp Require Import gmap strings list fin_maps pretty.

Local Open Scope string_scope.
Local Open Scope list_scope.

(** ** Python results

    A Python call either returns a value or raises.  Only the exception
    classes that the embedded code tells apart are listed, each standing
    for the class and its subclasses; [ExternalError] carries the class
    name of any other exception, such as the ones an external collaborator
    (network client, decoder, file system) raises. *)

Inductive exn : Type :=
  | AssertionError (msg : string)
  | AttributeError (msg : string)
  | ValueError (msg : string)
  | ExternalError (msg : string).

Inductive result (A : Type) : Type :=
  | Ok (a : A)
  | Raise (e : exn).

Arguments Ok {A} a.
Arguments Raise {A} e.

Definition is_ok {A} (r : result A) : bool :=
  match r with Ok _ => true | Raise _ => false end.

(** Truthiness of a Python [str]: only the empty string is falsy. *)
Definition truthy (s : string) : bool :=
  match s with EmptyString => false | String _ _ => true end.

(** [s.replace(' ', '')]. *)
Fixpoint remove_spaces (s : string) : string :=
  match s with
  | EmptyString => EmptyString
  | String c s' =>
      if Ascii.eqb c " "%char then remove_spaces s'
      else String c (remove_spaces s')
  end.

(** ** ffonons/dbs/mp.py *)

Module Mp.

(** What the function can observe and change: the files under the docs
    directory (path to text content) and the log of calls made to the
    collaborators, oldest first.  The directories are no part of it: the
    function creates none, so which of them exist is a parameter of the
    write below. *)
Inductive event : Type :=
  | StructureLookup (mp_id : string)   (* mp_rester.get_structure_by_material_id *)
  | PhononFetch (mp_id : string)       (* mp_rester.materials.phonon.get_data_by_id *)
  | FileRead (path : string)           (* zopen(path, mode="rt") *)
  | FileWrite (path : string).         (* zopen(path, mode="wt") *)

#[global] Instance event_eq_dec : EqDecision event.
Proof. solve_decision. Defined.

Record world : Type := World {
  files : gmap string string;
  calls : list event
}.

(** State and exception monad: a raised exception keeps the world as it was
    at the point of the raise. *)
Definition M (A : Type) : Type := world -> result A * world.

Definition ret {A} (a : A) : M A := fun w => (Ok a, w).

Definition bind {A B} (m : M A) (k : A -> M B) : M B :=
  fun w =>
    match m w with
    | (Ok a, w') => k a w'
    | (Raise e, w') => (Raise e, w')
    end.

Notation "x <- m ;; k" := (bind m (fun x => k))
  (at level 100, m at next level, right associativity).
Notation "m ;;; k" := (bind m (fun _ => k))
  (at level 100, right associativity).

Definition lift {A} (r : result A) : M A := fun w => (r, w).

Definition log (e : event) : M unit :=
  fun w => (Ok tt, World (files w) (calls w ++ [e])).

(** [os.path.isfile]: the empty path names no file. *)
Definition isfile (path : string) : M bool :=
  fun w =>
    (Ok (if truthy path then bool_decide (is_Some (files w !! path)) else false), w).

(** [with zopen(path, mode="rt") as file: file.read()]. *)
Definition read_text (path : string) : M string :=
  log (FileRead path) ;;;
  fun w =>
    match files w !! path with
    | Some text => (Ok text, w)
    | None => (Raise (ExternalError "FileNotFoundError"), w)
    end.

(** Whether the character occurs in the string. *)
Fixpoint has_char (c : ascii) (s : string) : bool :=
  match s with
  | EmptyString => false
  | String c' s' => Ascii.eqb c c' || has_char c s'
  end.

(** The directory of a path: what stands before its last slash. *)
Fixpoint dirname (path : string) : string :=
  match path with
  | EmptyString => EmptyString
  | String c rest => if has_char "/" rest then String c (dirname rest) else EmptyString
  end.

(** [with zopen(path, mode="wt") as file: json.dump(doc, file, ...)] for a
    document whose encoding is [text].  Opening raises when the directory
    of the path does not exist, and nothing is written then; otherwise the
    file is created or emptied.  A dump that raises ([failure]: the text it
    got to write, and its exception) leaves that text in the file. *)
Definition write_text (isdir : string -> bool) (path text : string)
    (failure : option (string * exn)) : M unit :=
  log (FileWrite path) ;;;
  fun w =>
    if isdir (dirname path) then
      match failure with
      | None => (Ok tt, World (<[path := text]> (files w)) (calls w))
      | Some (written, e) => (Raise e, World (<[path := written]> (files w)) (calls w))
      end
    else (Raise (ExternalError "FileNotFoundError"), w).

Record Structure : Type := { formula : string }.

(** Number of phonon fetches for [mp_id] in a call log. *)
Definition fetch_count (mp_id : string) (l : list event) : nat :=
  length (filter (fun e => e = PhononFetch mp_id) l).

Definition touches_storage (e : event) : bool :=
  match e with
  | FileRead _ | FileWrite _ => true
  | _ => false
  end.

Section GetMpPhDocs.

(** The document class of the database client, JSON values, and the
    codecs the function uses: [MontyEncoder] turns a document object into
    a JSON value ([as_json]), [json.dump] renders a JSON value as text
    ([json_dumps]) and [json.load] parses text ([json_load]). *)
Variable PhononBSDOSDoc : Type.
Variable Json : Type.
Variable as_json : PhononBSDOSDoc -> Json.
Variable json_dumps : Json -> string.
Variable json_load : string -> result Json.

(** The directories that exist, and the documents on which [json.dump]
    raises: the text written before the exception, and the exception. *)
Variable isdir : string -> bool.
Variable dump_error : PhononBSDOSDoc -> option (string * exn).

(** The database client.  Its answers are functions of the material id,
    as for a stub that counts its calls. *)
Record MPRester : Type := {
  get_structure_by_material_id : string -> result Structure;
  get_data_by_id : string -> result PhononBSDOSDoc
}.

(** The value bound to [mp_phonon_doc]: the client's document object on
    the fetch branch, the decoded JSON value on the load branch. *)
Inductive pyobj : Type :=
  | DocObject (doc : PhononBSDOSDoc)
  | JsonValue (j : Json).

Definition id_formula (mp_id : string) (struct : Structure) : string :=
  mp_id +:+ "-" +:+ remove_spaces (formula struct).

Definition mp_ph_doc_path (docs_dir mp_id : string) (struct : Structure) : string :=
  if truthy docs_dir
  then docs_dir +:+ "/" +:+ id_formula mp_id struct +:+ ".json.xz"
  else "".

Definition get_mp_ph_docs (mp_rester : MPRester) (mp_id docs_dir : string)
  : M (pyobj * string) :=
  log (StructureLookup mp_id) ;;;
  struct <- lift (get_structure_by_material_id mp_rester mp_id) ;;
  let path := mp_ph_doc_path docs_dir mp_id struct in
  cached <- isfile path ;;
  if (cached : bool) then
    text <- read_text path ;;
    mp_phonon_doc <- lift (json_load text) ;;
    ret (JsonValue mp_phonon_doc, path)
  else
    log (PhononFetch mp_id) ;;;
    mp_phonon_doc <- lift (get_data_by_id mp_rester mp_id) ;;
    (if truthy path
     then write_text isdir path (json_dumps (as_json mp_phonon_doc))
                     (dump_error mp_phonon_doc)
     else ret tt) ;;;
    ret (DocObject mp_phonon_doc, path).

(** What the write of a fetched document leaves: the outcome and the
    files. *)
Definition write_outcome (path : string) (doc : PhononBSDOSDoc) (w : world)
  : result unit * gmap string string :=
  if isdir (dirname path) then
    match dump_error doc with
    | None => (Ok tt, <[path := json_dumps (as_json doc)]> (files w))
    | Some (written, e) => (Raise e, <[path := written]> (files w))
    end
  else (Raise (ExternalError "FileNotFoundError"), files w).

(** The document content carried by a returned value, as JSON. *)
Definition content (v : pyobj) : Json :=
  match v with
  | DocObject doc => as_json doc
  | JsonValue j => j
  end.

(** [n] calls in a row, as a test with a call-counting stub makes them. *)
Fixpoint repeat_get_mp_ph_docs (n : nat) (mp_rester : MPRester)
    (mp_id docs_dir : string) : M (list (pyobj * string)) :=
  match n with
  | O => ret []
  | S n' =>
      r <- get_mp_ph_docs mp_rester mp_id docs_dir ;;
      rs <- repeat_get_mp_ph_docs n' mp_rester mp_id docs_dir ;;
      ret (r :: rs)
  end.

End GetMpPhDocs.

(** A test double of the database client, as a call-counting stub would be
    written: it knows one material and answers whenever it is asked.  A
    stored document is kept as its JSON text, so the stub's codec is the
    identity. *)
Record stub_doc : Type := StubDoc {
  stub_material_id : string;
  stub_payload : string
}.

Definition stub_as_json (d : stub_doc) : string :=
  stub_material_id d +:+ ":" +:+ stub_payload d.

Definition stub_json_dumps (j : string) : string := j.

Definition stub_json_load (text : string) : result string := Ok text.

(** A storage in which every directory exists and every dump succeeds,
    and one without any directory. *)
Definition stub_isdir (dir : string) : bool := true.

Definition no_isdir (dir : string) : bool := false.

Definition stub_dump_error (d : stub_doc) : option (string * exn) := None.

Definition stub_structure (mp_id : string) : result Structure :=
  if String.eqb mp_id "mp-22862" then Ok {| formula := "Na1 Cl1" |}
  else Raise (ExternalError "material not found").

Definition stub_rester : MPRester stub_doc := {|
  get_structure_by_material_id := stub_structure;
  get_data_by_id := fun mp_id =>
    if String.eqb mp_id "mp-22862" then Ok (StubDoc "mp-22862" "dos+bands")
    else Raise (ExternalError "material not found")
|}.

(** The same client when the phonon endpoint fails. *)
Definition failing_rester : MPRester stub_doc := {|
  get_structure_by_material_id := stub_structure;
  get_data_by_id := fun _ => Raise (ExternalError "connection lost")
|}.

Definition empty_world : world := World ∅ [].

(** A docs directory that already holds a file for the stub's material,
    with a content the client would not send, beside the file of another
    material. *)
Definition stocked_world : world :=
  World (<["data/mp/mp-22862-Na1Cl1.json.xz" := "mp-22862:old"]>
           (<["data/mp/mp-149-Si2.json.xz" := "mp-149:dos"]> ∅)) [].

End Mp.

(** ** ffonons/phonon.py: loading and grouping the stored documents *)

Module Phonon.

(** *** The two patterns of the loading loop *)

(** [str.split(sep)] for a one-character separator. *)
Fixpoint split_on (sep : ascii) (s : string) : list string :=
  match s with
  | EmptyString => [EmptyString]
  | String c s' =>
      if Ascii.eqb c sep then EmptyString :: split_on sep s'
      else match split_on sep s' with
           | [] => [String c EmptyString]
           | x :: xs => String c x :: xs
           end
  end.

Fixpoint strip_prefix (p s : string) : option string :=
  match p, s with
  | EmptyString, _ => Some s
  | String a p', String b s' => if Ascii.eqb a b then strip_prefix p' s' else None
  | String _ _, EmptyString => None
  end.

Definition ends_with (suffix s : string) : bool :=
  let n := String.length s in
  let k := String.length suffix in
  (k <=? n)%nat && String.eqb (String.substring (n - k) k s) suffix.

(** [fnmatch(name, "phonon-bs-dos-*.json.gz")]: the star takes any run of
    characters, also the empty one. *)
Definition matches_doc_name (name : string) : bool :=
  String.prefix "phonon-bs-dos-" name
  && ends_with ".json.gz" name
  && (String.length "phonon-bs-dos-" + String.length ".json.gz" <=? String.length name)%nat.

(** A directory name the (non-recursive) [**] accepts: like [*], any
    non-empty name that does not start with a dot. *)
Definition matches_any_dir (name : string) : bool :=
  match name with
  | EmptyString => false
  | String c _ => negb (Ascii.eqb c "."%char)
  end.

(** [glob(f"{FIGS_DIR}/**/phonon-bs-dos-*.json.gz")] over the paths of the
    files that exist: without [recursive=True] the double star stands for
    exactly one directory level.  [FIGS_DIR] is taken as a plain directory
    name: the glob reads a star, a question mark or an opening bracket in
    it as a pattern and drops a slash at its end, which this filter does
    not. *)
Definition glob_phonon_docs (FIGS_DIR : string) (existing : list string) : list string :=
  List.filter
    (fun path =>
       match strip_prefix (FIGS_DIR +:+ "/") path with
       | Some rest =>
           match split_on "/"%char rest with
           | [dir; name] => matches_any_dir dir && matches_doc_name name
           | _ => false
           end
       | None => false
       end)
    existing.

(** The fragment of regular expressions that the key pattern uses. *)
Inductive re_item : Type :=
  | Lit (c : ascii)     (* a literal character *)
  | Dot                 (* [.]: any character but a newline *)
  | DotStar             (* [.*], greedy *)
  | GroupOpen           (* [(] *)
  | GroupClose.         (* [)] *)

Definition is_newline (c : ascii) : bool := Ascii.eqb c "010"%char.

(** A character read while a group is open is added to that group. *)
Definition capture (c : ascii) (open_group : option string) : option string :=
  match open_group with
  | Some g => Some (g +:+ String c EmptyString)
  | None => None
  end.

Definition close_group (open_group : option string) (closed : list string) : list string :=
  match open_group with
  | Some g => closed ++ [g]
  | None => closed
  end.

(** Backtracking match of the pattern at the start of [s]; a greedy star
    first tries to take one more character and only then to go on with the
    rest of the pattern.  Returns the groups, in order. *)
Fixpoint match_here (p : list re_item) (s : string)
    (open_group : option string) (closed : list string) : option (list string) :=
  match p with
  | [] => Some closed
  | Lit c :: p' =>
      match s with
      | String c' s' =>
          if Ascii.eqb c c' then match_here p' s' (capture c' open_group) closed else None
      | EmptyString => None
      end
  | Dot :: p' =>
      match s with
      | String c' s' =>
          if is_newline c' then None else match_here p' s' (capture c' open_group) closed
      | EmptyString => None
      end
  | GroupOpen :: p' => match_here p' s (Some EmptyString) closed
  | GroupClose :: p' => match_here p' s None (close_group open_group closed)
  | DotStar :: p' =>
      (fix star (s : string) (open_group : option string) : option (list string) :=
         match s with
         | String c' s' =>
             if is_newline c' then match_here p' s open_group closed
             else match star s' (capture c' open_group) with
                  | Some groups => Some groups
                  | None => match_here p' s open_group closed
                  end
         | EmptyString => match_here p' s open_group closed
         end) s open_group
  end.

(** [re.search(p, s)]: the first position from which the pattern matches. *)
Fixpoint re_search (p : list re_item) (s : string) : option (list string) :=
  match match_here p s None [] with
  | Some groups => Some groups
  | None =>
      match s with
      | String _ s' => re_search p s'
      | EmptyString => None
      end
  end.

Definition lits (s : string) : list re_item := map Lit (list_ascii_of_string s).

(** The key pattern of the loop: any run, a slash, group 1 (the letters
    mp, a dash, any run), a dash, group 2 (any run), the text
    /phonon-bs-dos-, group 3 (any run), any character, json, any character,
    gz.  The two dots before json and gz are not escaped in the source. *)
Definition key_pattern : list re_item :=
  [DotStar; Lit "/"%char; GroupOpen] ++ lits "mp-" ++ [DotStar; GroupClose; Lit "-"%char;
   GroupOpen; DotStar; GroupClose] ++ lits "/phonon-bs-dos-" ++
  [GroupOpen; DotStar; GroupClose; Dot] ++ lits "json" ++ [Dot] ++ lits "gz".

(** *** Python dicts, in insertion order *)

Fixpoint dict_get {V} (k : string) (d : list (string * V)) : option V :=
  match d with
  | [] => None
  | (k', v) :: d' => if String.eqb k k' then Some v else dict_get k d'
  end.

(** [d[k] = v]: an existing key keeps its place, a new one goes last. *)
Fixpoint dict_set {V} (k : string) (v : V) (d : list (string * V)) : list (string * V) :=
  match d with
  | [] => [(k, v)]
  | (k', v') :: d' =>
      if String.eqb k k' then (k, v) :: d' else (k', v') :: dict_set k v d'
  end.

Definition dict_keys {V} (d : list (string * V)) : list string := map fst d.

(** What makes the lists above dicts: no key twice, on both levels. *)
Definition all_docs_wf {V} (all_docs : list (string * list (string * V))) : Prop :=
  NoDup (dict_keys all_docs) /\ Forall (fun kv => NoDup (dict_keys (snd kv))) all_docs.

Section Loading.

(** The decoded density of states and band structure of a stored file,
    and the decoding itself (lines 165 to 169: [gzip.open], [json.load],
    [PhononDos.from_dict], [PhononBandStructureSymmLine.from_dict]). *)
Variable DocDict : Type.
Variable read_doc : string -> result DocDict.

(** [doc_dict | {formula_key: formula, id_key: mp_id}] *)
Record doc : Type := Doc {
  payload : DocDict;
  formula : string;
  material_id : string
}.

(** [all_docs = defaultdict(dict)]: material id to (model to document). *)
Definition all_docs_t : Type := list (string * list (string * doc)).

(** [all_docs[mp_id][model] = d] on a [defaultdict(dict)]. *)
Definition all_docs_set (mp_id model : string) (d : doc) (all_docs : all_docs_t)
  : all_docs_t :=
  match dict_get mp_id all_docs with
  | Some by_model => dict_set mp_id (dict_set model d by_model) all_docs
  | None => dict_set mp_id [(model, d)] all_docs
  end.

(** One turn of the loading loop. *)
Definition load_doc (all_docs : all_docs_t) (phonon_doc : string) : result all_docs_t :=
  match read_doc phonon_doc with
  | Raise e => Raise e
  | Ok doc_dict =>
      match re_search key_pattern phonon_doc with
      | None => Raise (AttributeError "'NoneType' object has no attribute 'groups'")
      | Some [mp_id; formula; model] =>
          if String.prefix "mp-" mp_id
          then Ok (all_docs_set mp_id model (Doc doc_dict formula mp_id) all_docs)
          else Raise (AssertionError "Invalid mp_id")
      | Some _ => Raise (ValueError "wrong number of values to unpack")
      end
  end.

Fixpoint load_docs (all_docs : all_docs_t) (paths : list string) : result all_docs_t :=
  match paths with
  | [] => Ok all_docs
  | phonon_doc :: rest =>
      match load_doc all_docs phonon_doc with
      | Ok all_docs' => load_docs all_docs' rest
      | Raise e => Raise e
      end
  end.

(** The whole cell: glob, then the loop from an empty [all_docs]. *)
Definition load_all_docs (FIGS_DIR : string) (existing : list string) : result all_docs_t :=
  load_docs [] (glob_phonon_docs FIGS_DIR existing).

(** The comprehension [[k for k, v in all_docs.items() if len(v) == n]];
    the source writes it out for [n = 2] and [n = 3]. *)
Definition materials_with (n : nat) (all_docs : all_docs_t) : list string :=
  map fst (List.filter (fun kv => (length (snd kv) =? n)%nat) all_docs).

Definition materials_with_2 : all_docs_t -> list string := materials_with 2.
Definition materials_with_3 : all_docs_t -> list string := materials_with 3.

End Loading.

(** Storage contents for the examples: every stored file decodes (to a
    payload without content). *)
Definition read_any (path : string) : result unit := Ok tt.

(** Three materials under [figs]: the first with results from two sources,
    the second from three, the third from the reference only. *)
Definition coverage_example : list string :=
  [ "figs/mp-1-NaCl/phonon-bs-dos-mp.json.gz";
    "figs/mp-2-Si2/phonon-bs-dos-mp.json.gz";
    "figs/mp-1-NaCl/phonon-bs-dos-chgnet.json.gz";
    "figs/mp-3-MgO/phonon-bs-dos-mp.json.gz";
    "figs/mp-2-Si2/phonon-bs-dos-chgnet.json.gz";
    "figs/mp-2-Si2/phonon-bs-dos-mace.json.gz" ].


(** [all_docs[mp_id][model]] as a read: nothing when the material or the
    model is missing. *)
Definition all_docs_get {V} (mp_id model : string)
    (all_docs : list (string * list (string * V))) : option V :=
  match dict_get mp_id all_docs with
  | Some by_model => dict_get model by_model
  | None => None
  end.

(** The directory of a material and the path of a stored document, as the
    script builds them: [out_dir = f"{FIGS_DIR}/{mp_id}-{formula}"] with the
    spaces of the formula removed, and [f"{out_dir}/phonon-bs-dos-{tag}.json.gz"]
    where the tag is [mp] for the reference and the lower-case model name
    otherwise. *)
Definition out_dir (FIGS_DIR mp_id formula : string) : string :=
  FIGS_DIR +:+ "/" +:+ mp_id +:+ "-" +:+ remove_spaces formula.

Definition doc_path (FIGS_DIR mp_id formula tag : string) : string :=
  out_dir FIGS_DIR mp_id formula +:+ "/phonon-bs-dos-" +:+ tag +:+ ".json.gz".

(** The characters a group has taken after reading the run [a]. *)
Definition capture_run (a : string) (open_group : option string) : option string :=
  match open_group with
  | Some g => Some (g +:+ a)
  | None => None
  end.

(** The key pattern, cut after each of its four stars. *)
Definition after_tag : list re_item :=
  [GroupClose; Dot] ++ lits "json" ++ [Dot] ++ lits "gz".

Definition after_formula : list re_item :=
  [GroupClose] ++ lits "/phonon-bs-dos-" ++ [GroupOpen; DotStar] ++ after_tag.

Definition after_id : list re_item :=
  [GroupClose; Lit "-"%char; GroupOpen; DotStar] ++ after_formula.

Definition after_prefix : list re_item :=
  [Lit "/"%char; GroupOpen] ++ lits "mp-" ++ [DotStar] ++ after_id.

(** What the loop keeps true of every record beside the uniqueness of the
    keys: it is not empty and its documents carry the key of the record
    as their material id. *)
Definition records_inv {DocDict} (all_docs : all_docs_t DocDict) : Prop :=
  Forall (fun kv => snd kv <> []
                    /\ Forall (fun md => material_id DocDict (snd md) = fst kv) (snd kv))
         all_docs.

(** [n_preds = sum(len(v) for v in all_docs.values())] *)
Definition n_preds {V} (all_docs : list (string * list (string * V))) : nat :=
  foldr (fun kv n => length (snd kv) + n) 0 all_docs.

(** *** The comparison plots (lines 187 to 212) *)

Section Plotting.

Variable DocDict : Type.

(** The two figures of one material, from the documents of CHGNet, MACE
    and (for the second) the reference: lines 192 to 199 and lines 207 to
    209.  What they draw is left out; each returns or raises. *)
Variable plot_bands : doc DocDict -> doc DocDict -> string -> result unit.
Variable plot_dos : doc DocDict -> doc DocDict -> doc DocDict -> string -> result unit.

(** The body of the loop with its [try ... except ValueError]: a missing
    source raises [KeyError], which the handler does not catch. *)
Definition plot_material (all_docs : all_docs_t DocDict) (material : string)
  : result unit :=
  match all_docs_get material "mace" all_docs with
  | None => Raise (ExternalError "KeyError")
  | Some mace =>
      match all_docs_get material "chgnet" all_docs with
      | None => Raise (ExternalError "KeyError")
      | Some chgnet =>
          match plot_bands chgnet mace material with
          | Raise (ValueError _) => Ok tt
          | Raise e => Raise e
          | Ok _ =>
              match all_docs_get material "mp" all_docs with
              | None => Raise (ExternalError "KeyError")
              | Some mp =>
                  match plot_dos chgnet mace mp material with
                  | Raise (ValueError _) => Ok tt
                  | Raise e => Raise e
                  | Ok _ => Ok tt
                  end
              end
          end
      end
  end.

Fixpoint plot_materials (all_docs : all_docs_t DocDict) (materials : list string)
  : result unit :=
  match materials with
  | [] => Ok tt
  | material :: rest =>
      match plot_material all_docs material with
      | Raise e => Raise e
      | Ok _ => plot_materials all_docs rest
      end
  end.

Definition plot_all (all_docs : all_docs_t DocDict) : result unit :=
  plot_materials all_docs (materials_with_3 DocDict all_docs).

End Plotting.

(** Two materials with three sources each: the first has the three the
    plots ask for, the second has M3GNet in the place of MACE. *)
Definition plot_example : all_docs_t unit :=
  [ ("mp-1", [ ("mace", Doc unit tt "NaCl" "mp-1"); ("chgnet", Doc unit tt "NaCl" "mp-1");
               ("mp", Doc unit tt "NaCl" "mp-1") ]);
    ("mp-2", [ ("m3gnet", Doc unit tt "MgO" "mp-2"); ("chgnet", Doc unit tt "MgO" "mp-2");
               ("mp", Doc unit tt "MgO" "mp-2") ]) ].

(** Plotting calls for the example: the band structures are drawn, the
    densities of states have no data to draw. *)
Definition plot_bands_example (chgnet mace : doc unit) (material : string) : result unit :=
  Ok tt.

Definition plot_dos_example (chgnet mace mp : doc unit) (material : string) : result unit :=
  Raise (ValueError "no data").

(** *** The main loop (lines 84 to 159) *)

(** What a run leaves behind: the files that exist, the expensive calls
    made and the lines printed, oldest first. *)
Inductive job : Type :=
  | FetchReference (mp_id : string)    (* mpr.materials.phonon.get_data_by_id *)
  | RunModel (model mp_id : string).   (* PhononMaker(...).make and run_locally *)

Inductive line : Type :=
  | Skipping (model formula : string)
  | Took (model : string)
  | Failed (model : string) (e : exn).

Record run_state : Type := RunState {
  on_disk : gset string;
  jobs : list job;
  printed : list line
}.

Definition print (l : line) (st : run_state) : run_state :=
  RunState (on_disk st) (jobs st) (printed st ++ [l]).

Definition save (path : string) (st : run_state) : run_state :=
  RunState ({[path]} ∪ on_disk st) (jobs st) (printed st).

Definition start (j : job) (st : run_state) : run_state :=
  RunState (on_disk st) (jobs st ++ [j]) (printed st).

Definition isfile (path : string) (st : run_state) : bool :=
  bool_decide (path ∈ on_disk st).

(** [str.lower], on the letters A to Z. *)
Fixpoint lower (s : string) : string :=
  match s with
  | EmptyString => EmptyString
  | String c s' =>
      let n := nat_of_ascii c in
      String (if (65 <=? n)%nat && (n <=? 90)%nat then ascii_of_nat (n + 32) else c)
             (lower s')
  end.

(** [except (RuntimeError, ValueError)]: the handler takes an exception
    of one of the two classes or of a subclass; of the classes carried by
    name these are [RuntimeError] and its builtin subclasses. *)
Definition caught (e : exn) : bool :=
  match e with
  | ValueError _ => true
  | ExternalError name =>
      existsb (String.eqb name)
        ["RuntimeError"; "NotImplementedError"; "RecursionError";
         "PythonFinalizationError"]
  | _ => false
  end.

Section MainLoop.

Variable FIGS_DIR : string.

(** The models of the script, by name. *)
Variable models : list string.

(** The collaborators: the two calls of the database client; the phonon
    calculation of one model for one structure (lines 122 to 134); the
    search of its responses for the phonon document, with the renaming
    of the Gamma label (lines 137 to 147); and the two plotting
    functions, of which only whether they return matters here.
    [save_fig] and the writing of a document are taken to create the
    file they are given. *)
Variable Responses : Type.
Variable get_structure_by_material_id : string -> result Mp.Structure.
Variable get_data_by_id : string -> result unit.
Variable run_locally : string -> string -> result Responses.
Variable ml_phonon_doc : Responses -> result unit.
Variable plot_phonon_bs : string -> string -> result unit.
Variable plot_phonon_dos : string -> string -> result unit.

(** The reference part of one turn (lines 89 to 110): nothing here is
    inside a [try]. *)
Definition reference_turn (mp_id dir : string) (st : run_state) : result run_state :=
  let mp_dos_fig_path := dir +:+ "/dos-mp.pdf" in
  let mp_bands_fig_path := dir +:+ "/bands-mp.pdf" in
  if negb (isfile mp_dos_fig_path st) || negb (isfile mp_bands_fig_path st) then
    match get_data_by_id mp_id with
    | Raise e => Raise e
    | Ok _ =>
        let st := save (dir +:+ "/phonon-bs-dos-mp.json.gz") (start (FetchReference mp_id) st) in
        match plot_phonon_bs "MP" mp_id with
        | Raise e => Raise e
        | Ok _ =>
            let st := save mp_bands_fig_path st in
            match plot_phonon_dos "MP" mp_id with
            | Raise e => Raise e
            | Ok _ => Ok (save mp_dos_fig_path st)
            end
        end
    end
  else Ok st.

(** What the handler does with an exception raised inside the [try]. *)
Definition handle (model : string) (e : exn) (st : run_state) : result run_state :=
  if caught e then Ok (print (Failed model e) st) else Raise e.

(** The turn of one model (lines 113 to 159). *)
Definition model_turn (mp_id formula dir : string) (st : run_state) (model : string)
  : result run_state :=
  let dos_fig_path := dir +:+ "/dos-" +:+ lower model +:+ ".pdf" in
  let bands_fig_path := dir +:+ "/bands-" +:+ lower model +:+ ".pdf" in
  let ml_doc_path := dir +:+ "/phonon-bs-dos-" +:+ lower model +:+ ".json.gz" in
  if isfile dos_fig_path st && isfile bands_fig_path st && isfile ml_doc_path st then
    Ok (print (Skipping model formula) st)
  else
    let st := start (RunModel model mp_id) st in
    match run_locally model mp_id with
    | Raise e => handle model e st
    | Ok responses =>
        let st := print (Took model) st in
        match ml_phonon_doc responses with
        | Raise e => handle model e st
        | Ok _ =>
            let st := save ml_doc_path st in
            match plot_phonon_dos model mp_id with
            | Raise e => handle model e st
            | Ok _ =>
                let st := save dos_fig_path st in
                match plot_phonon_bs model mp_id with
                | Raise e => handle model e st
                | Ok _ => Ok (save bands_fig_path st)
                end
            end
        end
    end.

Fixpoint model_turns (mp_id formula dir : string) (ms : list string) (st : run_state)
  : result run_state :=
  match ms with
  | [] => Ok st
  | model :: rest =>
      match model_turn mp_id formula dir st model with
      | Raise e => Raise e
      | Ok st => model_turns mp_id formula dir rest st
      end
  end.

(** One turn of the loop over the material ids. *)
Definition material_turn (mp_id : string) (st : run_state) : result run_state :=
  match get_structure_by_material_id mp_id with
  | Raise e => Raise e
  | Ok struct =>
      let dir := out_dir FIGS_DIR mp_id (Mp.formula struct) in
      match reference_turn mp_id dir st with
      | Raise e => Raise e
      | Ok st => model_turns mp_id (Mp.formula struct) dir models st
      end
  end.

Fixpoint main_loop (mp_ids : list string) (st : run_state) : result run_state :=
  match mp_ids with
  | [] => Ok st
  | mp_id :: rest =>
      match material_turn mp_id st with
      | Raise e => Raise e
      | Ok st => main_loop rest st
      end
  end.

(** The files whose presence makes a turn skip its work, and a material
    all of whose files are there. *)
Definition reference_files (dir : string) : list string :=
  [dir +:+ "/dos-mp.pdf"; dir +:+ "/bands-mp.pdf"].

Definition model_files (dir model : string) : list string :=
  [ dir +:+ "/dos-" +:+ lower model +:+ ".pdf";
    dir +:+ "/bands-" +:+ lower model +:+ ".pdf";
    dir +:+ "/phonon-bs-dos-" +:+ lower model +:+ ".json.gz" ].

Definition settled (mp_id : string) (st : run_state) : Prop :=
  exists struct,
    get_structure_by_material_id mp_id = Ok struct
    /\ let dir := out_dir FIGS_DIR mp_id (Mp.formula struct) in
       Forall (fun path => path ∈ on_disk st) (reference_files dir)
       /\ Forall (fun model => Forall (fun path => path ∈ on_disk st) (model_files dir model))
                 models.

End MainLoop.

(** A run for the examples: every call returns, every structure has the
    formula of rock salt. *)
Definition main_loop_example (mp_ids : list string) (st : run_state) : result run_state :=
  main_loop "figs" ["CHGNet"] unit
    (fun _ => Ok {| Mp.formula := "Na1 Cl1" |}) (fun _ => Ok tt)
    (fun _ _ => Ok tt) (fun _ => Ok tt) (fun _ _ => Ok tt) (fun _ _ => Ok tt)
    mp_ids st.

(** A line other than the report of a failure. *)
Definition not_failed (l : line) : Prop :=
  match l with Failed _ _ => False | _ => True end.

(** [st'] has the files of [st] and more, and continues its output. *)
Definition extends (st st' : run_state) : Prop :=
  on_disk st ⊆ on_disk st' /\ printed st `prefix_of` printed st'.

(** [st'] differs from [st] in its output only. *)
Definition same_work (st st' : run_state) : Prop :=
  on_disk st' = on_disk st /\ jobs st' = jobs st.

End Phonon.

(** ** scripts/analysis/metrics_table.py *)

Module MetricsTable.

(** *** The export of the analysed material ids *)

(** The white space that [int] strips from an ASCII string: the space and
    the control characters 9 to 13. *)
Definition is_space (c : ascii) : bool :=
  let n := nat_of_ascii c in
  (n =? 32)%nat || ((9 <=? n)%nat && (n <=? 13)%nat).

Definition digit_of (c : ascii) : option Z :=
  let n := nat_of_ascii c in
  if (48 <=? n)%nat && (n <=? 57)%nat then Some (Z.of_nat (n - 48)) else None.

Fixpoint lstrip (s : string) : string :=
  match s with
  | String c s' => if is_space c then lstrip s' else s
  | EmptyString => EmptyString
  end.

Definition rev_string (s : string) : string :=
  string_of_list_ascii (rev (list_ascii_of_string s)).

Definition strip (s : string) : string :=
  rev_string (lstrip (rev_string (lstrip s))).

(** The digits of a decimal literal; a single underscore may stand between
    two digits. *)
Fixpoint parse_digits (s : string) (acc : Z) (after_digit : bool) : option Z :=
  match s with
  | EmptyString => if after_digit then Some acc else None
  | String c s' =>
      match digit_of c with
      | Some d => parse_digits s' (10 * acc + d)%Z true
      | None =>
          if Ascii.eqb c "_"%char && after_digit
          then match s' with
               | String c' _ =>
                   match digit_of c' with
                   | Some _ => parse_digits s' acc false
                   | None => None
                   end
               | EmptyString => None
               end
          else None
      end
  end.

(** The limit of the interpreter on the number of digits that [int]
    converts (the default of Python 3.11 and later). *)
Definition int_max_str_digits : nat := 4300.

Definition is_digit (c : ascii) : bool :=
  match digit_of c with Some _ => true | None => false end.

Definition digit_count (s : string) : nat :=
  length (List.filter is_digit (list_ascii_of_string s)).

(** The value of the digits of a literal with their sign; digits that are
    well formed but more than the limit raise as well. *)
Definition literal (digits : string) (sign : Z) : result Z :=
  match parse_digits digits 0 false with
  | Some n =>
      if (int_max_str_digits <? digit_count digits)%nat
      then Raise (ValueError "Exceeds the limit (4300 digits) for integer string conversion")
      else Ok (sign * n)%Z
  | None => Raise (ValueError "invalid literal for int() with base 10")
  end.

(** [int(s)] for a string of ASCII characters: surrounding white space,
    an optional sign and decimal digits.  The decimal digits and spaces
    of other scripts, which [int] reads as well, are not modelled. *)
Definition py_int (s : string) : result Z :=
  match strip s with
  | String "-"%char digits => literal digits (-1)
  | String "+"%char digits => literal digits 1
  | digits => literal digits 1
  end.

(** Whether a string holds ASCII characters only. *)
Definition ascii_only (s : string) : bool :=
  forallb (fun c => (nat_of_ascii c <? 128)%nat) (list_ascii_of_string s).

(** [astype(int)] stores a key as a 64-bit integer; a number outside of
    their range raises [OverflowError]. *)
Definition astype_int (n : Z) : result Z :=
  if ((- 2 ^ 63 <=? n) && (n <? 2 ^ 63))%Z then Ok n
  else Raise (ExternalError "OverflowError").

(** The sort key of one index label:
    [idx.str.split("-").str[1].astype(int)].  A label without a dash has
    no second part; the conversion of the missing value raises. *)
Definition sort_key (material_id : string) : result Z :=
  match Phonon.split_on "-"%char material_id with
  | _ :: suffix :: _ =>
      match py_int suffix with
      | Ok n => astype_int n
      | Raise e => Raise e
      end
  | _ => Raise (ValueError "cannot convert float NaN to integer")
  end.

(** The numeric suffix of an identifier in the words of the
    specification: the identifier is a name, a dash and a number written
    in decimal digits, and the suffix is that number.  It is the order the
    export is compared with below. *)
Definition add_digit (number : option Z) (c : ascii) : option Z :=
  match number, digit_of c with
  | Some n, Some d => Some (10 * n + d)%Z
  | _, _ => None
  end.

Definition spec_numeric_suffix (material_id : string) : option Z :=
  match Phonon.split_on "-"%char material_id with
  | [_; digits] =>
      match list_ascii_of_string digits with
      | [] => None
      | cs => foldl add_digit (Some 0%Z) cs
      end
  | _ => None
  end.

(** The columns of the summary frame that the script names. *)
Inductive Key : Type :=
  | formula | supercell | n_sites
  | max_freq | dos_mae | ph_dos_r2
  | has_imag_freq | has_imag_gamma_freq.

#[global] Instance Key_eq_dec : EqDecision Key.
Proof. solve_decision. Defined.

(** A frame indexed by material id: the rows in index order, each row a
    cell (as text) per column. *)
Definition frame : Type := list (string * (Key -> string)).

(** [df.loc[labels]]: the rows of the labels, in the order of the labels;
    a label that is not in the index raises [KeyError]. *)
Fixpoint loc (df : frame) (labels : list string) : result frame :=
  match labels with
  | [] => Ok []
  | label :: rest =>
      match Phonon.dict_get label df with
      | None => Raise (ExternalError "KeyError")
      | Some row =>
          match loc df rest with
          | Ok rows => Ok ((label, row) :: rows)
          | Raise e => Raise e
          end
      end
  end.

(** [df[[c1, c2, ...]]] keeps the listed columns in the listed order; a
    row of the result is the list of its cells in that order. *)
Definition select (columns : list Key) (df : frame) : list (string * list string) :=
  map (fun '(label, row) => (label, map row columns)) df.

(** The keys of all labels, converted in the order of the rows; the first
    label without a key raises. *)
Fixpoint with_keys {A} (rows : list (string * A)) : result (list (Z * (string * A))) :=
  match rows with
  | [] => Ok []
  | (label, a) :: rest =>
      match sort_key label with
      | Raise e => Raise e
      | Ok k =>
          match with_keys rest with
          | Ok keyed => Ok ((k, (label, a)) :: keyed)
          | Raise e => Raise e
          end
      end
  end.

Fixpoint insert_by_key {A} (x : Z * A) (sorted : list (Z * A)) : list (Z * A) :=
  match sorted with
  | [] => [x]
  | y :: rest =>
      if (fst x <=? fst y)%Z then x :: y :: rest
      else y :: insert_by_key x rest
  end.

Definition key_le {A} (x y : Z * A) : Prop := (fst x <= fst y)%Z.

(** [sort_index(key=...)], ascending.  Rows with equal keys stay in their
    order here; pandas' default sort gives no such promise. *)
Definition sort_index {A} (rows : list (string * A)) : result (list (string * A)) :=
  match with_keys rows with
  | Raise e => Raise e
  | Ok keyed => Ok (map snd (foldr insert_by_key [] keyed))
  end.

(** The table handed to [to_csv]: the header and the data rows, each with
    the index label first. *)
Record csv_table : Type := CsvTable {
  header : list Key;
  rows : list (string * list string)
}.

Definition export_columns : list Key := [formula; supercell; n_sites].

(** The body of the export loop for one folder:
    [df_pbe.loc[idx_n_avail][[formula, supercell, n_sites]].sort_index(key=...)]
    with [df_pbe = df_summary.xs(Key.pbe, level=1)]. *)
Definition export_mp_ids (df_pbe : frame) (idx_n_avail : list string) : result csv_table :=
  match loc df_pbe idx_n_avail with
  | Raise e => Raise e
  | Ok selected =>
      match sort_index (select export_columns selected) with
      | Raise e => Raise e
      | Ok sorted => Ok (CsvTable export_columns sorted)
      end
  end.

(** A string of decimal digits only. *)
Definition decimal (s : string) : Prop :=
  Forall (fun c => is_Some (digit_of c)) (list_ascii_of_string s).

(** The key of a label that has one, and the row of a label that is in the
    frame. *)
Definition key_or_zero (label : string) : Z :=
  match sort_key label with Ok k => k | Raise _ => 0%Z end.

Definition row_or_blank (df : frame) (label : string) : Key -> string :=
  default (fun _ => EmptyString) (Phonon.dict_get label df).

(** A reference frame for the examples: three materials whose identifiers
    sort differently as text and as numbers. *)
Definition export_example : frame :=
  [ ("mp-10", fun k => match k with formula => "NaCl" | supercell => "2x2x2"
                                 | n_sites => "2" | _ => "" end);
    ("mp-149", fun k => match k with formula => "Si2" | supercell => "2x2x2"
                                  | n_sites => "2" | _ => "" end);
    ("mp-9", fun k => match k with formula => "MgO" | supercell => "3x3x3"
                                | n_sites => "2" | _ => "" end) ].

(** A frame with an identifier whose number does not fit into 64 bits and
    one without a dash. *)
Definition bad_ids_example : frame :=
  [ ("mp-9", fun _ => "x"); ("mp-99999999999999999999", fun _ => "y");
    ("mp9", fun _ => "z") ].

(** *** Regression metrics *)

(** A numeric cell of the summary frame: a real number, or NaN ([None]) for
    a missing value.  Rounding and overflow of binary floats are left out. *)
Abbreviation cell := (option Qc).

(** [a - b] on two series: the result has the labels of both; a label that
    one side lacks, or whose value is NaN on one side, gets NaN. *)
Definition series_sub (a b : gmap string cell) : gmap string cell :=
  merge (fun x y =>
           match x, y with
           | Some (Some p), Some (Some q) => Some (Some (p - q)%Qc)
           | None, None => None
           | _, _ => Some None
           end) a b.

Definition series_abs (s : gmap string cell) : gmap string cell :=
  (fun c : cell => Qcabs <$> c) <$> s.

Definition add_cell (c : cell) (acc : Qc) : Qc :=
  match c with Some q => (acc + q)%Qc | None => acc end.

Definition count_cell (c : cell) (n : nat) : nat :=
  match c with Some _ => S n | None => n end.

(** [s.mean()]: NaN cells are skipped; NaN when nothing is left. *)
Definition series_mean (s : gmap string cell) : cell :=
  let total := map_fold (fun _ => add_cell) 0%Qc s in
  let n := map_fold (fun _ => count_cell) O s in
  match n with
  | O => None
  | S _ => Some (total / Qc_of_Z (Z.of_nat n))%Qc
  end.

(** [s.dropna().index] *)
Definition dropna_index (s : gmap string cell) : list string :=
  (map_to_list (filter (fun kv => is_Some (snd kv)) s)).*1.

(** [s.loc[labels]], the values only. *)
Fixpoint series_loc (s : gmap string cell) (labels : list string) : result (list cell) :=
  match labels with
  | [] => Ok []
  | label :: rest =>
      match s !! label with
      | None => Raise (ExternalError "KeyError")
      | Some c =>
          match series_loc s rest with
          | Ok cs => Ok (c :: cs)
          | Raise e => Raise e
          end
      end
  end.

Definition all_finite (cs : list cell) : option (list Qc) := mapM id cs.

Definition qsum (l : list Qc) : Qc := foldr Qcplus 0%Qc l.

Definition qmean (l : list Qc) : Qc := (qsum l / Qc_of_Z (Z.of_nat (length l)))%Qc.

(** [sklearn.metrics.r2_score(y_true, y_pred)] with its defaults: NaN below
    two samples, and for a constant reference 1 on a perfect fit and 0
    otherwise. *)
Definition r2_score (y_true y_pred : list cell) : result cell :=
  if negb (length y_true =? length y_pred)%nat
  then Raise (ValueError "inconsistent numbers of samples")
  else
    match all_finite y_true, all_finite y_pred with
    | Some ts, Some ps =>
        match ts with
        | [] => Raise (ValueError "Found array with 0 sample(s)")
        | [_] => Ok None
        | _ =>
            let ss_res := qsum (zip_with (fun t p => (t - p) * (t - p))%Qc ts ps) in
            let m := qmean ts in
            let ss_tot := qsum (map (fun t => (t - m) * (t - m))%Qc ts) in
            if decide (ss_tot = 0%Qc)
            then Ok (Some (if decide (ss_res = 0%Qc) then 1%Qc else 0%Qc))
            else Ok (Some (1 - ss_res / ss_tot)%Qc)
        end
    | _, _ => Raise (ValueError "Input contains NaN")
    end.

Record freq_metrics : Type := FreqMetrics {
  ph_freq_mae : cell;
  ph_freq_r2 : cell
}.

(** The body of the loop over the frequency metrics for one model:
    [dft_col] is [df_dft[metric]] and [model_col] is [df_model[metric]]. *)
Definition regression_metrics (dft_col model_col : gmap string cell) : result freq_metrics :=
  let diff := series_sub dft_col model_col in
  let mae := series_mean (series_abs diff) in
  let not_nan := dropna_index diff in
  match series_loc dft_col not_nan with
  | Raise e => Raise e
  | Ok y_true =>
      match series_loc model_col not_nan with
      | Raise e => Raise e
      | Ok y_pred =>
          match r2_score y_true y_pred with
          | Raise e => Raise e
          | Ok r2 => Ok (FreqMetrics mae r2)
          end
      end
  end.

(** The same two numbers as the spec words them: over the materials where
    both values are present. *)
Definition both_present (dft_col model_col : gmap string cell) : gmap string (Qc * Qc) :=
  merge (fun x y =>
           match x, y with
           | Some (Some p), Some (Some q) => Some (p, q)
           | _, _ => None
           end) dft_col model_col.

Definition abs_errors (dft_col model_col : gmap string cell) : gmap string Qc :=
  (fun pq => Qcabs (fst pq - snd pq)) <$> both_present dft_col model_col.

Definition mae_spec (dft_col model_col : gmap string cell) : cell :=
  let errs := abs_errors dft_col model_col in
  match size errs with
  | O => None
  | S _ =>
      Some (map_fold (fun _ e acc => acc + e) 0 errs / Qc_of_Z (Z.of_nat (size errs)))%Qc
  end.

(** Reference values 1, 2, 3 and model values 1.5, 2, 2 for three
    materials; and the same with a material the model has no row for, one
    whose model value is NaN and one the reference lacks. *)
Definition dft_example : gmap string cell :=
  list_to_map [("mp-1", Some (Q2Qc 1)); ("mp-2", Some (Q2Qc 2)); ("mp-3", Some (Q2Qc 3))].

Definition model_example : gmap string cell :=
  list_to_map [("mp-1", Some (Q2Qc (3 # 2))); ("mp-2", Some (Q2Qc 2)); ("mp-3", Some (Q2Qc 2))].

Definition dft_gaps_example : gmap string cell :=
  <["mp-4" := Some (Q2Qc 10)]> (<["mp-5" := Some (Q2Qc 7)]> dft_example).

Definition model_gaps_example : gmap string cell :=
  <["mp-5" := None]> (<["mp-6" := Some (Q2Qc 4)]> model_example).

(** *** Classification metrics *)

(** A NumPy float as far as the scores need it: a real number, an
    infinity or NaN.  Signed zeros and rounding are left out. *)
Inductive npfloat : Type :=
  | Finite (q : Qc)
  | Inf (negative : bool)
  | NaN.

Definition is_neg (q : Qc) : bool := bool_decide (q < 0)%Qc.

Definition fadd (a b : npfloat) : npfloat :=
  match a, b with
  | NaN, _ | _, NaN => NaN
  | Finite p, Finite q => Finite (p + q)%Qc
  | Inf s, Finite _ | Finite _, Inf s => Inf s
  | Inf s, Inf s' => if Bool.eqb s s' then Inf s else NaN
  end.

Definition fmul (a b : npfloat) : npfloat :=
  match a, b with
  | NaN, _ | _, NaN => NaN
  | Finite p, Finite q => Finite (p * q)%Qc
  | Inf s, Finite q | Finite q, Inf s =>
      if decide (q = 0%Qc) then NaN else Inf (xorb s (is_neg q))
  | Inf s, Inf s' => Inf (xorb s s')
  end.

(** Float division does not raise: a zero divided by zero is NaN, anything
    else divided by zero an infinity. *)
Definition fdiv (a b : npfloat) : npfloat :=
  match a, b with
  | NaN, _ | _, NaN => NaN
  | Finite p, Finite q =>
      if decide (q = 0%Qc)
      then (if decide (p = 0%Qc) then NaN else Inf (is_neg p))
      else Finite (p / q)%Qc
  | Finite _, Inf _ => Finite 0%Qc
  | Inf s, Finite q => Inf (xorb s (is_neg q))
  | Inf _, Inf _ => NaN
  end.

Inductive normalize_t : Type :=
  | norm_true | norm_pred | norm_all | norm_none.

Definition qnat (n : nat) : Qc := Qc_of_Z (Z.of_nat n).

(** The labels that occur in either vector, sorted: [False] before [True]. *)
Definition unique_labels (y_true y_pred : list bool) : list bool :=
  let ys := y_true ++ y_pred in
  (if existsb negb ys then [false] else []) ++ (if existsb id ys then [true] else []).

(** Number of samples with true label [t] and predicted label [p]. *)
Definition count_pairs (t p : bool) (y_true y_pred : list bool) : nat :=
  length (List.filter (fun tp => Bool.eqb (fst tp) t && Bool.eqb (snd tp) p)
                      (zip y_true y_pred)).

(** Number of samples whose reference label is [t]. *)
Definition n_true_label (t : bool) (y_true : list bool) : nat :=
  length (List.filter (Bool.eqb t) y_true).

(** [np.nan_to_num(c / total)] for a count [c] out of [total]: the NaN of
    a zero total becomes 0. *)
Definition nan_to_num_div (c total : Qc) : Qc :=
  if decide (total = 0%Qc) then 0%Qc else (c / total)%Qc.

Definition column_sums (cm : list (list Qc)) : list Qc :=
  match cm with
  | [] => []
  | row :: _ => foldr (zip_with Qcplus) (map (fun _ => 0%Qc) row) cm
  end.

(** [sklearn.metrics.confusion_matrix(y_true, y_pred, normalize=...)]: one
    row per true label and one column per predicted label, over the labels
    that occur. *)
Definition confusion_matrix (y_true y_pred : list bool) (normalize : normalize_t)
  : result (list (list Qc)) :=
  if negb (length y_true =? length y_pred)%nat
  then Raise (ValueError "inconsistent numbers of samples")
  else
    let labels := unique_labels y_true y_pred in
    let cm := map (fun t => map (fun p => qnat (count_pairs t p y_true y_pred)) labels) labels in
    Ok match normalize with
       | norm_true => map (fun row => map (fun c => nan_to_num_div c (qsum row)) row) cm
       | norm_pred => map (fun row => zip_with nan_to_num_div row (column_sums cm)) cm
       | norm_all => map (map (fun c => nan_to_num_div c (qsum (map qsum cm)))) cm
       | norm_none => cm
       end.

(** [accuracy_score]: the share of samples predicted as the reference. *)
Definition accuracy_score (y_true y_pred : list bool) : npfloat :=
  fdiv (Finite (qnat (length (List.filter (fun tp => Bool.eqb (fst tp) (snd tp))
                                          (zip y_true y_pred)))))
       (Finite (qnat (length y_true))).

(** [roc_auc_score] for hard predictions: the curve has the one inner
    point (false-positive rate, true-positive rate), so the area is
    (TPR + 1 - FPR) / 2; with one class only in the reference it raises. *)
Definition roc_auc_score (y_true y_pred : list bool) : result npfloat :=
  let pos := qnat (n_true_label true y_true) in
  let neg := qnat (n_true_label false y_true) in
  if decide (pos = 0%Qc \/ neg = 0%Qc)
  then Raise (ValueError "Only one class present in y_true")
  else
    let tpr := (qnat (count_pairs true true y_true y_pred) / pos)%Qc in
    let fpr := (qnat (count_pairs false true y_true y_pred) / neg)%Qc in
    Ok (Finite ((tpr + 1 - fpr) / 2)%Qc).

Record imag_metrics : Type := ImagMetrics {
  prec_imag_freq : npfloat;
  recall_imag_freq : npfloat;
  f1_imag_freq : npfloat;
  roc_auc_imag_freq : npfloat;
  acc_imag_freq : npfloat;
  fpr_imag_freq : npfloat;
  fnr_imag_freq : npfloat
}.

(** The assertions on the unpacked matrix.  The script compares floats:
    a quotient and its complement add up to exactly 1, so that the
    equations of the policies [true] and [pred] hold on floats when they
    hold here; the sum of four quotients under [all] (a policy the script
    does not set) can miss 1 by a rounding error, which the exact numbers
    of this model do not show. *)
Definition check_normalized (normalize : normalize_t) (tn fp fn tp : Qc) : result unit :=
  let failed := Raise (AssertionError "") in
  match normalize with
  | norm_true =>
      if decide (tn + fp = 1)%Qc
      then (if decide (fn + tp = 1)%Qc then Ok tt else failed)
      else failed
  | norm_pred =>
      if decide (tn + fn = 1)%Qc
      then (if decide (fp + tp = 1)%Qc then Ok tt else failed)
      else failed
  | norm_all =>
      if decide (tn + fp + fn + tp = 1)%Qc then Ok tt else failed
  | norm_none => Ok tt
  end.

(** The body of the loop over the models for one boolean column, from the
    call of [confusion_matrix] to the values stored in the table. *)
Definition classification_metrics (normalize : normalize_t)
    (imag_modes_true imag_modes_pred : list bool) : result imag_metrics :=
  match confusion_matrix imag_modes_true imag_modes_pred normalize with
  | Raise e => Raise e
  | Ok [[tn; fp]; [fn; tp]] =>
      match check_normalized normalize tn fp fn tp with
      | Raise e => Raise e
      | Ok _ =>
          let acc := accuracy_score imag_modes_true imag_modes_pred in
          let precision := fdiv (Finite tp) (Finite (tp + fp)%Qc) in
          let recall := fdiv (Finite tp) (Finite (tp + fn)%Qc) in
          let f1 := fdiv (fmul (Finite 2%Qc) (fmul precision recall)) (fadd precision recall) in
          match roc_auc_score imag_modes_true imag_modes_pred with
          | Raise e => Raise e
          | Ok roc_auc =>
              Ok (ImagMetrics precision recall f1 roc_auc acc (Finite fp) (Finite fn))
          end
      end
  | Ok _ => Raise (ValueError "wrong number of values to unpack")
  end.

(** The policy the script sets. *)
Definition normalize : normalize_t := norm_true.

(** Four materials, one with imaginary modes in the reference; the model
    finds it and flags one more.  The scores stored for them. *)
Definition imag_true_example : list bool := [true; false; false; false].

Definition imag_pred_example : list bool := [true; true; false; false].

Definition imag_metrics_example : imag_metrics :=
  ImagMetrics (Finite (Q2Qc (3 # 4))) (Finite (Q2Qc 1)) (Finite (Q2Qc (6 # 7)))
    (Finite (Q2Qc (5 # 6))) (Finite (Q2Qc (3 # 4)))
    (Finite (Q2Qc (1 # 3))) (Finite (Q2Qc 0)).

(** *** The tables of classification scores *)

(** A frame of scores: the rows in index order, each with its cells in
    column order; a cell that was never set is absent (NaN).  Rows are
    keyed by the label of the model, columns by the name of the metric. *)
Definition table : Type := list (string * list (string * npfloat)).

(** [df.loc[row, col] = val], with enlargement. *)
Definition set_cell (row col : string) (val : npfloat) (df : table) : table :=
  match Phonon.dict_get row df with
  | Some cells => Phonon.dict_set row (Phonon.dict_set col val cells) df
  | None => Phonon.dict_set row [(col, val)] df
  end.

(** The dict of metric and value the inner loop goes through. *)
Definition metric_items (m : imag_metrics) : list (string * npfloat) :=
  [ ("prec_imag_freq", prec_imag_freq m);
    ("recall_imag_freq", recall_imag_freq m);
    ("f1_imag_freq", f1_imag_freq m);
    ("roc_auc_imag_freq", roc_auc_imag_freq m);
    ("acc_imag_freq", acc_imag_freq m);
    ("fpr_imag_freq", fpr_imag_freq m);
    ("fnr_imag_freq", fnr_imag_freq m) ].

Definition store_metrics (label : string) (m : imag_metrics) (df : table) : table :=
  foldl (fun df item => set_cell label (fst item) (snd item) df) df (metric_items m).

(** The frames live in a store and are named by their address: the name
    [df_imag] and the entries of the dict [dfs_imag] hold addresses, so
    that two of them can name one frame. *)
Record store : Type := Store {
  heap : list table;
  df_imag : option nat;
  dfs_imag : Key -> option nat
}.

(** A model that is not skipped: its label and the two vectors handed to
    [confusion_matrix]. *)
Definition model_input : Type := string * (list bool * list bool).

(** What a row of a filled frame holds: the label of its model and the
    scores of that model, as computed. *)
Definition row_of (input : model_input) (row : string * list (string * npfloat)) : Prop :=
  exists m,
    classification_metrics normalize (fst (snd input)) (snd (snd input)) = Ok m
    /\ row = (fst input, metric_items m).

Section ImagTables.

(** [df.sort_values(by=..., ascending=False)] and [df.round(2)]: each
    returns a new frame and leaves its argument alone; sorting by a column
    that the frame lacks raises. *)
Variable sort_values : table -> result table.
Variable round : table -> table.

(** The loop over the models: every score is written into the frame at
    address [r]. *)
Fixpoint fill_models (models : list model_input) (r : nat) (h : list table)
  : result (list table) :=
  match models with
  | [] => Ok h
  | (label, (imag_modes_true, imag_modes_pred)) :: rest =>
      match classification_metrics normalize imag_modes_true imag_modes_pred with
      | Raise e => Raise e
      | Ok m => fill_models rest r (alter (store_metrics label m) r h)
      end
  end.

(** One turn of the loop over the two boolean columns (lines 81 to 126):
    a new empty frame is bound to [df_imag] and stored in [dfs_imag], the
    models fill it, and [df_imag] is bound anew to a sorted and rounded
    copy. *)
Definition column_turn (col : Key) (models : list model_input) (st : store)
  : result store :=
  let r := length (heap st) in
  let dfs := fun c => if decide (c = col) then Some r else dfs_imag st c in
  match fill_models models r (heap st ++ [[]]) with
  | Raise e => Raise e
  | Ok h =>
      match sort_values (default [] (h !! r)) with
      | Raise e => Raise e
      | Ok sorted => Ok (Store (h ++ [round sorted]) (Some (length h)) dfs)
      end
  end.

Definition imag_tables (inputs : Key -> list model_input) : result store :=
  match column_turn has_imag_freq (inputs has_imag_freq) (Store [] None (fun _ => None)) with
  | Raise e => Raise e
  | Ok st => column_turn has_imag_gamma_freq (inputs has_imag_gamma_freq) st
  end.

(** [dfs_imag[col]], as the rendering loop reads it (lines 146 and 147). *)
Definition rendered (st : store) (col : Key) : option table :=
  match dfs_imag st col with
  | Some r => heap st !! r
  | None => None
  end.

End ImagTables.

(** Two models on the example vectors, for both columns; a sort that
    reverses the rows and a rounding that changes nothing. *)
Definition imag_inputs_example (col : Key) : list model_input :=
  [ ("CHGNet", (imag_true_example, imag_pred_example));
    ("MACE", (imag_true_example, imag_true_example)) ].

Definition sort_values_example (df : table) : result table := Ok (rev df).

(** *** The arrows of the rendered table *)

(** [pat in col] for two strings. *)
Fixpoint contains (pat s : string) : bool :=
  String.prefix pat s
  || match s with
     | String _ s' => contains pat s'
     | EmptyString => false
     end.

Definition is_lower_better (col : string) : bool :=
  existsb (fun pat => contains pat col) ["MAE"; "FNR"; "FPR"].

(** [[col for col in df_loop if any(pat in col for pat in ...)]] *)
Definition lower_better (columns : list string) : list string :=
  List.filter is_lower_better columns.

(** [{*df_loop} - set(lower_better)], a set: it has no order of its own. *)
Definition higher_better (columns : list string) : gset string :=
  list_to_set columns ∖ list_to_set (lower_better columns).

(** [dict.fromkeys(keys, v)] and [d1 | d2]. *)
Definition fromkeys {V} (keys : list string) (v : V) : list (string * V) :=
  foldl (fun d k => Phonon.dict_set k v d) [] keys.

Definition dict_union {V} (d1 d2 : list (string * V)) : list (string * V) :=
  foldl (fun d kv => Phonon.dict_set (fst kv) (snd kv) d) d1 d2.

Definition arrow_up : string := " ↑".
Definition arrow_down : string := " ↓".

Definition arrow_suffix (columns : list string) : list (string * string) :=
  dict_union (fromkeys (elements (higher_better columns)) arrow_up)
             (fromkeys (lower_better columns) arrow_down).

(** The labels handed to [relabel_index]:
    [[f"{col}{arrow_suffix.get(col, '')}" for col in styler.data.index]],
    the index of the transposed frame being the columns of [df_loop]. *)
Definition relabel_index (columns : list string) : list string :=
  map (fun col => col +:+ default EmptyString (Phonon.dict_get col (arrow_suffix columns)))
      columns.

End MetricsTable.

(** ** tests/test_enums.py *)

Module TestEnums.

(** The objects the test meets: a string, a class (by its name) or
    anything else. *)
Inductive pyvalue : Type :=
  | PyStr (s : string)
  | PyClass (name : string)
  | PyOther.

(** [inspect.isclass] *)
Definition isclass (v : pyvalue) : bool :=
  match v with PyClass _ => true | _ => false end.

(** [issubclass(v, base)]: its first argument must be a class. *)
Definition issubclass (v : pyvalue) (base : string -> bool) : result bool :=
  match v with
  | PyClass name => Ok (base name)
  | _ => Raise (ExternalError "TypeError")
  end.

(** [dir(module)]: the names of the attributes, as strings. *)
Definition dir (module : list (string * pyvalue)) : list pyvalue :=
  map (fun attribute => PyStr (fst attribute)) module.

Section TestLabelEnum.

(** The classes: which derive from [StrEnum] and from [LabelEnum], and
    what their two class methods return: a dict, an object that is not a
    dict ([None]), or an exception. *)
Variable StrEnum LabelEnum : string -> bool.
Variable key_val_dict val_label_dict : string -> result (option (list (string * string))).

Definition class_name (v : pyvalue) : string :=
  match v with PyClass name => name | _ => EmptyString end.

Definition assert_ (b : bool) : result unit :=
  if b then Ok tt else Raise (AssertionError "").

(** The body of the loop for one element. *)
Definition check_enum (enum : pyvalue) : result unit :=
  if isclass enum then
    match issubclass enum StrEnum with
    | Raise e => Raise e
    | Ok false => Ok tt
    | Ok true =>
        match issubclass enum LabelEnum with
        | Raise e => Raise e
        | Ok is_label =>
            match assert_ is_label with
            | Raise e => Raise e
            | Ok _ =>
                match key_val_dict (class_name enum) with
                | Raise e => Raise e
                | Ok None => Raise (AssertionError "")
                | Ok (Some val_dict) =>
                    match val_label_dict (class_name enum) with
                    | Raise e => Raise e
                    | Ok None => Raise (AssertionError "")
                    | Ok (Some label_dict) =>
                        match assert_ (negb (bool_decide (val_dict ≡ₚ label_dict))) with
                        | Raise e => Raise e
                        | Ok _ =>
                            assert_ (length val_dict =? length label_dict)%nat
                        end
                    end
                end
            end
        end
    end
  else Ok tt.

Fixpoint check_all (enums : list pyvalue) : result unit :=
  match enums with
  | [] => Ok tt
  | enum :: rest =>
      match check_enum enum with
      | Raise e => Raise e
      | Ok _ => check_all rest
      end
  end.

(** [test_label_enum], for the module [ffonons.enums] given by its
    attributes. *)
Definition test_label_enum (enums_module : list (string * pyvalue)) : result unit :=
  check_all (dir enums_module).

End TestLabelEnum.

End TestEnums.

(* ================================================================= *)
(** * Properties *)

(** ** The document cache ([get_mp_ph_docs]) *)

Section MpFacts.
Import Mp.

Context {PhononBSDOSDoc Json : Type}.
Variable as_json : PhononBSDOSDoc -> Json.
Variable json_dumps : Json -> string.
Variable json_load : string -> result Json.
Variable isdir : string -> bool.
Variable dump_error : PhononBSDOSDoc -> option (string * exn).

Abbreviation get_mp_ph_docs :=
  (Mp.get_mp_ph_docs PhononBSDOSDoc Json as_json json_dumps json_load isdir dump_error).
Abbreviation write_outcome :=
  (Mp.write_outcome PhononBSDOSDoc Json as_json json_dumps isdir dump_error).
Abbreviation MPRester := (Mp.MPRester PhononBSDOSDoc).

Lemma truthy_path docs_dir mp_id struct :
  truthy docs_dir = true ->
  truthy (mp_ph_doc_path docs_dir mp_id struct) = true.
Proof.
  unfold mp_ph_doc_path. intros H. rewrite H. destruct docs_dir; [discriminate|reflexivity].
Qed.

Lemma fetch_count_app mp_id l1 l2 :
  fetch_count mp_id (l1 ++ l2) = fetch_count mp_id l1 + fetch_count mp_id l2.
Proof. unfold fetch_count. by rewrite filter_app, length_app. Qed.

Lemma fetch_count_nil mp_id : fetch_count mp_id [] = 0.
Proof. reflexivity. Qed.

Lemma fetch_count_fetch mp_id l :
  fetch_count mp_id (PhononFetch mp_id :: l) = S (fetch_count mp_id l).
Proof. unfold fetch_count. by rewrite filter_cons_True. Qed.

Lemma fetch_count_other mp_id e l :
  e <> PhononFetch mp_id ->
  fetch_count mp_id (e :: l) = fetch_count mp_id l.
Proof. intros H. unfold fetch_count. by rewrite filter_cons_False. Qed.

(** A call that finds nothing to load, be it that the path is empty or
    that no file is there, takes the fetch branch. *)
Lemma get_mp_ph_docs_not_cached (mp_rester : MPRester) mp_id docs_dir struct w :
  get_structure_by_material_id _ mp_rester mp_id = Ok struct ->
  let path := mp_ph_doc_path docs_dir mp_id struct in
  truthy path = false \/ files w !! path = None ->
  get_mp_ph_docs mp_rester mp_id docs_dir w =
    match get_data_by_id _ mp_rester mp_id with
    | Ok doc =>
        if truthy path
        then (match (write_outcome path doc w).1 with
              | Ok _ => Ok (DocObject _ _ doc, path)
              | Raise e => Raise e
              end,
              World (write_outcome path doc w).2
                    (calls w ++ [StructureLookup mp_id; PhononFetch mp_id; FileWrite path]))
        else (Ok (DocObject _ _ doc, path),
              World (files w) (calls w ++ [StructureLookup mp_id; PhononFetch mp_id]))
    | Raise e =>
        (Raise e, World (files w) (calls w ++ [StructureLookup mp_id; PhononFetch mp_id]))
    end.
Proof.
  intros Hs path Hmiss.
  cbv [Mp.get_mp_ph_docs bind log lift isfile write_text ret Mp.write_outcome].
  cbn [files calls]. rewrite Hs. fold path.
  assert ((if truthy path then bool_decide (is_Some (files w !! path)) else false)
          = false) as ->.
  { destruct Hmiss as [->|Hf]; [done|]. rewrite Hf.
    rewrite bool_decide_eq_false_2 by (by intros [? ?]). by destruct (truthy path). }
  destruct (get_data_by_id _ mp_rester mp_id) as [doc|e].
  - destruct (truthy path); cbn; [|by rewrite <- ?app_assoc].
    destruct (isdir (dirname path)); [destruct (dump_error doc) as [[written e]|]|];
      cbn; by rewrite <- ?app_assoc.
  - cbn. by rewrite <- ?app_assoc.
Qed.

(** A call that finds no file fetches, writes the encoded document when
    the path is non-empty, and returns the document object; the write
    needs the directory and a dump that does not raise. *)
Lemma get_mp_ph_docs_miss (mp_rester : MPRester) mp_id docs_dir struct doc w :
  get_structure_by_material_id _ mp_rester mp_id = Ok struct ->
  truthy docs_dir = true ->
  files w !! mp_ph_doc_path docs_dir mp_id struct = None ->
  get_data_by_id _ mp_rester mp_id = Ok doc ->
  isdir (dirname (mp_ph_doc_path docs_dir mp_id struct)) = true ->
  dump_error doc = None ->
  let path := mp_ph_doc_path docs_dir mp_id struct in
  get_mp_ph_docs mp_rester mp_id docs_dir w =
    (Ok (DocObject _ _ doc, path),
     World (<[path := json_dumps (as_json doc)]> (files w))
           (calls w ++ [StructureLookup mp_id; PhononFetch mp_id; FileWrite path])).
Proof.
  intros Hs Hd Hf Hg Hdir Hdump path.
  rewrite (get_mp_ph_docs_not_cached _ _ _ _ _ Hs) by (by right).
  assert (Hp : truthy path = true) by (by apply truthy_path).
  rewrite Hg. fold path. rewrite Hp. unfold Mp.write_outcome. fold path in Hdir.
  by rewrite Hdir, Hdump.
Qed.

(** A call that finds the file decodes it: no fetch, no write. *)
Lemma get_mp_ph_docs_hit (mp_rester : MPRester) mp_id docs_dir struct text w :
  get_structure_by_material_id _ mp_rester mp_id = Ok struct ->
  truthy docs_dir = true ->
  files w !! mp_ph_doc_path docs_dir mp_id struct = Some text ->
  let path := mp_ph_doc_path docs_dir mp_id struct in
  get_mp_ph_docs mp_rester mp_id docs_dir w =
    (match json_load text with
     | Ok j => Ok (JsonValue _ _ j, path)
     | Raise e => Raise e
     end,
     World (files w) (calls w ++ [StructureLookup mp_id; FileRead path])).
Proof.
  intros Hs Hd Hf path.
  assert (Hp : truthy path = true) by (by apply truthy_path).
  fold path in Hf.
  cbv [Mp.get_mp_ph_docs bind log lift isfile read_text ret].
  cbn [files calls]. rewrite Hs. fold path. rewrite Hp, Hf.
  rewrite bool_decide_eq_true_2 by eauto.
  cbn. rewrite Hf, <- !app_assoc. by destruct (json_load text).
Qed.

(** Once the file is there, any number of further calls decode it: no
    call fetches and the storage stays as it is. *)
Lemma repeat_get_mp_ph_docs_hits (mp_rester : MPRester) mp_id docs_dir struct text j n w :
  get_structure_by_material_id _ mp_rester mp_id = Ok struct ->
  truthy docs_dir = true ->
  files w !! mp_ph_doc_path docs_dir mp_id struct = Some text ->
  json_load text = Ok j ->
  exists w',
    repeat_get_mp_ph_docs _ _ as_json json_dumps json_load isdir dump_error
      n mp_rester mp_id docs_dir w =
      (Ok (replicate n (JsonValue _ _ j, mp_ph_doc_path docs_dir mp_id struct)), w')
    /\ files w' = files w
    /\ fetch_count mp_id (calls w') = fetch_count mp_id (calls w).
Proof.
  intros Hs Hd Hf Hj. revert w Hf.
  induction n as [|n IH]; intros w Hf.
  - exists w. by cbn.
  - cbn [repeat_get_mp_ph_docs]. unfold bind at 1.
    rewrite (get_mp_ph_docs_hit _ _ _ _ _ _ Hs Hd Hf), Hj.
    set (w1 := World _ _).
    destruct (IH w1 Hf) as (w' & Hrun & Hfiles & Hcount).
    exists w'. unfold bind, ret. rewrite Hrun. cbn [replicate].
    split; [done|]. split; [done|].
    rewrite Hcount. unfold w1. cbn [calls].
    rewrite fetch_count_app, !fetch_count_other, fetch_count_nil by done. lia.
Qed.


(** C6. With the empty docs directory a call that got the structure
    fetches the phonon document, reads no file, writes no file and leaves
    the storage as it was; this holds in any state, so for every call of a
    series. *)
Theorem get_mp_ph_docs_no_persistence (mp_rester : MPRester) mp_id struct w :
  get_structure_by_material_id _ mp_rester mp_id = Ok struct ->
  get_mp_ph_docs mp_rester mp_id "" w =
    (match get_data_by_id _ mp_rester mp_id with
     | Ok doc => Ok (DocObject _ _ doc, "")
     | Raise e => Raise e
     end,
     World (files w) (calls w ++ [StructureLookup mp_id; PhononFetch mp_id])).
Proof.
  intros Hs.
  rewrite (get_mp_ph_docs_not_cached _ _ _ _ _ Hs) by (by left).
  unfold mp_ph_doc_path. cbn [truthy].
  by destruct (get_data_by_id _ mp_rester mp_id).
Qed.

(** X4. With the empty docs directory and a client that answers, [n] calls
    in a row return the fetched document [n] times and fetch [n] times;
    the storage is left as it was and no file is read or written. *)
Lemma repeated_calls_without_persistence (mp_rester : MPRester) mp_id struct doc n w :
  get_structure_by_material_id _ mp_rester mp_id = Ok struct ->
  get_data_by_id _ mp_rester mp_id = Ok doc ->
  exists w',
    repeat_get_mp_ph_docs _ _ as_json json_dumps json_load isdir dump_error n mp_rester mp_id "" w =
      (Ok (replicate n (DocObject _ _ doc, "")), w')
    /\ files w' = files w
    /\ fetch_count mp_id (calls w') = n + fetch_count mp_id (calls w)
    /\ filter (fun e => touches_storage e = true) (calls w') =
       filter (fun e => touches_storage e = true) (calls w).
Proof.
  intros Hs Hg. revert w. induction n as [|n IH]; intros w.
  - exists w. by cbn.
  - cbn [repeat_get_mp_ph_docs]. unfold bind at 1.
    rewrite (get_mp_ph_docs_not_cached _ _ _ _ _ Hs) by (by left).
    rewrite Hg. unfold mp_ph_doc_path. cbn [truthy].
    set (w1 := World _ _).
    destruct (IH w1) as (w' & Hrun & Hfiles & Hcount & Hst).
    exists w'. unfold bind, ret. rewrite Hrun. cbn [replicate].
    repeat split; [done| |].
    + rewrite Hcount. unfold w1. cbn [calls]. rewrite fetch_count_app.
      rewrite fetch_count_other, fetch_count_fetch, fetch_count_nil by done. lia.
    + rewrite Hst. unfold w1. cbn [calls]. rewrite filter_app. cbn.
      by rewrite app_nil_r.
Qed.

(** C7. When the fetch raises, the call raises the same exception, adds
    no write to the call log and leaves the storage as it was. *)
Theorem get_mp_ph_docs_fetch_error (mp_rester : MPRester) mp_id docs_dir struct e w :
  get_structure_by_material_id _ mp_rester mp_id = Ok struct ->
  files w !! mp_ph_doc_path docs_dir mp_id struct = None ->
  get_data_by_id _ mp_rester mp_id = Raise e ->
  get_mp_ph_docs mp_rester mp_id docs_dir w =
    (Raise e, World (files w) (calls w ++ [StructureLookup mp_id; PhononFetch mp_id])).
Proof.
  intros Hs Hf Hg.
  rewrite (get_mp_ph_docs_not_cached _ _ _ _ _ Hs) by (by right).
  by rewrite Hg.
Qed.

(** Whatever is stored, a call whose fetch would raise changes no file. *)
Lemma fetch_error_keeps_files (mp_rester : MPRester) mp_id docs_dir e w :
  get_data_by_id _ mp_rester mp_id = Raise e ->
  files (get_mp_ph_docs mp_rester mp_id docs_dir w).2 = files w.
Proof.
  intros Hg.
  cbv [Mp.get_mp_ph_docs bind log lift isfile read_text ret].
  cbn [files calls].
  destruct (get_structure_by_material_id _ mp_rester mp_id) as [struct|e']; [|done].
  set (path := mp_ph_doc_path docs_dir mp_id struct).
  destruct (truthy path); [destruct (bool_decide _)|]; cbn.
  - destruct (files w !! path) as [text|]; [|done]. by destruct (json_load text).
  - by rewrite Hg.
  - by rewrite Hg.
Qed.

(** X29. When the docs directory exists, the dump does not raise, the
    encoding decodes and no file is there yet for the material, a series
    of two or more calls fetches exactly once; the first call returns the
    fetched document object, every later call the decoded file of that
    document, with the same path. *)
Theorem get_mp_ph_docs_one_fetch (mp_rester : MPRester) mp_id docs_dir struct doc n w :
  (forall j, json_load (json_dumps j) = Ok j) ->
  truthy docs_dir = true ->
  get_structure_by_material_id _ mp_rester mp_id = Ok struct ->
  get_data_by_id _ mp_rester mp_id = Ok doc ->
  files w !! mp_ph_doc_path docs_dir mp_id struct = None ->
  isdir (dirname (mp_ph_doc_path docs_dir mp_id struct)) = true ->
  dump_error doc = None ->
  exists w',
    repeat_get_mp_ph_docs _ _ as_json json_dumps json_load isdir dump_error
      (S (S n)) mp_rester mp_id docs_dir w =
      (Ok ((DocObject _ _ doc, mp_ph_doc_path docs_dir mp_id struct)
           :: replicate (S n) (JsonValue _ _ (as_json doc),
                               mp_ph_doc_path docs_dir mp_id struct)), w')
    /\ fetch_count mp_id (calls w') = S (fetch_count mp_id (calls w)).
Proof.
  intros Hcodec Hd Hs Hg Hf Hdir Hdump.
  set (path := mp_ph_doc_path docs_dir mp_id struct).
  cbn [repeat_get_mp_ph_docs]. unfold bind at 1.
  rewrite (get_mp_ph_docs_miss _ _ _ _ _ _ Hs Hd Hf Hg Hdir Hdump). fold path.
  set (w1 := World _ _).
  assert (Hf1 : files w1 !! mp_ph_doc_path docs_dir mp_id struct
                = Some (json_dumps (as_json doc))).
  { unfold w1. cbn [files]. apply lookup_insert_eq. }
  destruct (repeat_get_mp_ph_docs_hits mp_rester mp_id docs_dir struct _ _ (S n) w1
              Hs Hd Hf1 (Hcodec _)) as (w' & Hrun & _ & Hcount).
  exists w'. cbn [repeat_get_mp_ph_docs] in Hrun.
  unfold bind, ret in *. fold path in Hrun. rewrite Hrun.
  split; [done|].
  rewrite Hcount. unfold w1. cbn [calls]. rewrite fetch_count_app.
  rewrite fetch_count_other, fetch_count_fetch, fetch_count_other,
    fetch_count_nil by done. lia.
Qed.

End MpFacts.

Lemma get_mp_ph_docs_one_fetch_witness :
  (forall j, Mp.stub_json_load (Mp.stub_json_dumps j) = Ok j)
  /\ truthy "data/mp" = true
  /\ Mp.get_structure_by_material_id _ Mp.stub_rester "mp-22862"
       = Ok {| Mp.formula := "Na1 Cl1" |}
  /\ Mp.get_data_by_id _ Mp.stub_rester "mp-22862" = Ok (Mp.StubDoc "mp-22862" "dos+bands")
  /\ Mp.files Mp.empty_world
       !! Mp.mp_ph_doc_path "data/mp" "mp-22862" {| Mp.formula := "Na1 Cl1" |} = None
  /\ Mp.stub_isdir
       (Mp.dirname (Mp.mp_ph_doc_path "data/mp" "mp-22862" {| Mp.formula := "Na1 Cl1" |}))
     = true
  /\ Mp.stub_dump_error (Mp.StubDoc "mp-22862" "dos+bands") = None
  /\ exists w',
       Mp.repeat_get_mp_ph_docs _ _ Mp.stub_as_json Mp.stub_json_dumps Mp.stub_json_load
         Mp.stub_isdir Mp.stub_dump_error 3 Mp.stub_rester "mp-22862" "data/mp" Mp.empty_world
       = (Ok ((Mp.DocObject _ _ (Mp.StubDoc "mp-22862" "dos+bands"),
               Mp.mp_ph_doc_path "data/mp" "mp-22862" {| Mp.formula := "Na1 Cl1" |})
              :: replicate 2
                   (Mp.JsonValue _ _ (Mp.stub_as_json (Mp.StubDoc "mp-22862" "dos+bands")),
                    Mp.mp_ph_doc_path "data/mp" "mp-22862" {| Mp.formula := "Na1 Cl1" |})),
          w')
       /\ Mp.fetch_count "mp-22862" (Mp.calls w')
          = S (Mp.fetch_count "mp-22862" (Mp.calls Mp.empty_world)).
Proof.
  assert (H1 : forall j, Mp.stub_json_load (Mp.stub_json_dumps j) = Ok j) by reflexivity.
  assert (H2 : truthy "data/mp" = true) by reflexivity.
  assert (H3 : Mp.get_structure_by_material_id _ Mp.stub_rester "mp-22862"
               = Ok {| Mp.formula := "Na1 Cl1" |}) by reflexivity.
  assert (H4 : Mp.get_data_by_id _ Mp.stub_rester "mp-22862"
               = Ok (Mp.StubDoc "mp-22862" "dos+bands")) by reflexivity.
  assert (H5 : Mp.files Mp.empty_world
                 !! Mp.mp_ph_doc_path "data/mp" "mp-22862" {| Mp.formula := "Na1 Cl1" |}
               = None) by apply lookup_empty.
  assert (H6 : Mp.stub_isdir
                 (Mp.dirname (Mp.mp_ph_doc_path "data/mp" "mp-22862"
                                {| Mp.formula := "Na1 Cl1" |})) = true) by reflexivity.
  assert (H7 : Mp.stub_dump_error (Mp.StubDoc "mp-22862" "dos+bands") = None)
    by reflexivity.
  repeat (split; [assumption|]).
  exact (get_mp_ph_docs_one_fetch Mp.stub_as_json Mp.stub_json_dumps Mp.stub_json_load
           Mp.stub_isdir Mp.stub_dump_error
           Mp.stub_rester "mp-22862" "data/mp" _ _ 1 Mp.empty_world H1 H2 H3 H4 H5 H6 H7).
Defined.

(** C1. The code breaks the claim on two counts.  With the docs directory
    in place, the first of two calls returns the document object of the
    client and the second the plain value [json.load] gives: two values
    of different kind, where the function is annotated to return a
    [PhononBSDOSDoc].  Without the directory, which nothing creates, each
    call fetches, fails to open the file and raises: two calls fetch
    twice and cache nothing. *)
Theorem get_mp_ph_docs_twice_diverges :
  (Mp.repeat_get_mp_ph_docs _ _ Mp.stub_as_json Mp.stub_json_dumps Mp.stub_json_load
      Mp.stub_isdir Mp.stub_dump_error 2 Mp.stub_rester "mp-22862" "data/mp" Mp.empty_world).1
  = Ok [(Mp.DocObject _ _ (Mp.StubDoc "mp-22862" "dos+bands"),
         "data/mp/mp-22862-Na1Cl1.json.xz");
        (Mp.JsonValue _ _ "mp-22862:dos+bands", "data/mp/mp-22862-Na1Cl1.json.xz")]
  /\ let call := Mp.get_mp_ph_docs _ _ Mp.stub_as_json Mp.stub_json_dumps Mp.stub_json_load
                    Mp.no_isdir Mp.stub_dump_error Mp.stub_rester "mp-22862" "data/mp" in
     let first := call Mp.empty_world in
     let second := call first.2 in
     first.1 = Raise (ExternalError "FileNotFoundError")
     /\ second.1 = Raise (ExternalError "FileNotFoundError")
     /\ Mp.files second.2 = ∅
     /\ Mp.fetch_count "mp-22862" (Mp.calls second.2) = 2.
Proof. by vm_compute. Qed.

Lemma get_mp_ph_docs_no_persistence_witness :
  Mp.get_structure_by_material_id _ Mp.stub_rester "mp-22862"
    = Ok {| Mp.formula := "Na1 Cl1" |}
  /\ Mp.get_mp_ph_docs _ _ Mp.stub_as_json Mp.stub_json_dumps Mp.stub_json_load
        Mp.stub_isdir Mp.stub_dump_error Mp.stub_rester "mp-22862" "" Mp.empty_world
     = (match Mp.get_data_by_id _ Mp.stub_rester "mp-22862" with
        | Ok doc => Ok (Mp.DocObject _ _ doc, "")
        | Raise e => Raise e
        end,
        Mp.World (Mp.files Mp.empty_world)
                 (Mp.calls Mp.empty_world
                    ++ [Mp.StructureLookup "mp-22862"; Mp.PhononFetch "mp-22862"])).
Proof.
  split; [reflexivity|].
  apply (get_mp_ph_docs_no_persistence Mp.stub_as_json Mp.stub_json_dumps Mp.stub_json_load
            Mp.stub_isdir Mp.stub_dump_error
              Mp.stub_rester "mp-22862" {| Mp.formula := "Na1 Cl1" |}).
  reflexivity.
Defined.

Lemma get_mp_ph_docs_fetch_error_witness :
  Mp.get_structure_by_material_id _ Mp.failing_rester "mp-22862"
    = Ok {| Mp.formula := "Na1 Cl1" |}
  /\ Mp.files Mp.empty_world
       !! Mp.mp_ph_doc_path "data/mp" "mp-22862" {| Mp.formula := "Na1 Cl1" |} = None
  /\ Mp.get_data_by_id _ Mp.failing_rester "mp-22862"
       = Raise (ExternalError "connection lost")
  /\ Mp.get_mp_ph_docs _ _ Mp.stub_as_json Mp.stub_json_dumps Mp.stub_json_load
        Mp.stub_isdir Mp.stub_dump_error Mp.failing_rester "mp-22862" "data/mp" Mp.empty_world
     = (Raise (ExternalError "connection lost"),
        Mp.World (Mp.files Mp.empty_world)
                 (Mp.calls Mp.empty_world
                    ++ [Mp.StructureLookup "mp-22862"; Mp.PhononFetch "mp-22862"])).
Proof.
  split; [reflexivity|]. split; [apply lookup_empty|]. split; [reflexivity|].
  apply (get_mp_ph_docs_fetch_error Mp.stub_as_json Mp.stub_json_dumps Mp.stub_json_load
            Mp.stub_isdir Mp.stub_dump_error
              Mp.failing_rester "mp-22862" "data/mp" {| Mp.formula := "Na1 Cl1" |}).
  - reflexivity.
  - apply lookup_empty.
  - reflexivity.
Defined.

(** ** Loading and grouping the stored documents *)

Section PhononFacts.
Import Phonon.

Context {DocDict : Type}.
Variable read_doc : string -> result DocDict.


Lemma dict_get_None {V} k (d : list (string * V)) :
  dict_get k d = None <-> k ∉ dict_keys d.
Proof.
  unfold dict_keys. induction d as [|[k' v] d IH]; cbn.
  - split; [intros _ ?%elem_of_nil; done|done].
  - rewrite not_elem_of_cons. destruct (String.eqb_spec k k') as [->|Hne].
    + split; [done|]. by intros [? _].
    + rewrite IH. tauto.
Qed.

Lemma dict_keys_set {V} k (v : V) d :
  dict_keys (dict_set k v d) =
    match dict_get k d with
    | Some _ => dict_keys d
    | None => dict_keys d ++ [k]
    end.
Proof.
  unfold dict_keys. induction d as [|[k' v'] d IH]; cbn; [done|].
  destruct (String.eqb_spec k k') as [->|Hne]; cbn; [done|].
  rewrite IH. by destruct (dict_get k d).
Qed.

Lemma dict_set_nodup {V} k (v : V) d :
  NoDup (dict_keys d) -> NoDup (dict_keys (dict_set k v d)).
Proof.
  intros Hd. rewrite dict_keys_set. destruct (dict_get k d) eqn:Hk; [done|].
  apply NoDup_app. split; [done|]. split; [|apply NoDup_singleton].
  intros x Hx ->%list_elem_of_singleton. by apply dict_get_None in Hk.
Qed.

Lemma dict_set_Forall {V} (P : string * V -> Prop) k v d :
  P (k, v) -> Forall P d -> Forall P (dict_set k v d).
Proof.
  intros Hkv. induction 1 as [|[k' v'] d Hx Hd IH]; cbn.
  - by repeat constructor.
  - destruct (String.eqb k k'); by constructor.
Qed.

Lemma dict_get_Forall {V} (P : string * V -> Prop) k v d :
  Forall P d -> dict_get k d = Some v -> P (k, v).
Proof.
  induction 1 as [|[k' v'] d Hx Hd IH]; cbn; [done|].
  destruct (String.eqb_spec k k') as [->|Hne]; [by intros [= <-]|done].
Qed.

(** The loop keeps [all_docs] a dict of dicts: every material once, and
    every source once under its material. *)
Lemma load_docs_wf (all_docs all_docs' : all_docs_t DocDict) paths :
  all_docs_wf all_docs ->
  load_docs DocDict read_doc all_docs paths = Ok all_docs' ->
  all_docs_wf all_docs'.
Proof.
  revert all_docs. induction paths as [|p paths IH]; intros all_docs Hwf; cbn.
  - by intros [= <-].
  - destruct (load_doc DocDict read_doc all_docs p) as [next|e] eqn:Hstep; [|done].
    apply IH. clear IH. unfold load_doc in Hstep.
    destruct (read_doc p) as [doc_dict|]; [|done].
    destruct (re_search key_pattern p) as [[|mp_id [|formula [|model [|]]]]|]; try done.
    destruct (String.prefix "mp-" mp_id); [|done].
    injection Hstep as <-. destruct Hwf as [Hkeys Hinner].
    unfold all_docs_set.
    destruct (dict_get mp_id all_docs) as [by_model|] eqn:Hget.
    + split; [by apply dict_set_nodup|].
      apply dict_set_Forall; [|done]. cbn. apply dict_set_nodup.
      by apply (dict_get_Forall _ _ _ _ Hinner Hget).
    + split; [by apply dict_set_nodup|].
      apply dict_set_Forall; [|done]. cbn. apply NoDup_singleton.
Qed.


(** C8. For every [n], the comprehension lists exactly the materials of
    [all_docs] whose record holds [n] sources; for the three example
    materials the filter for two sources gives the first and the filter
    for three sources the second. *)
Theorem materials_with_exactly :
  (forall (n : nat) (all_docs : all_docs_t DocDict) (material : string),
      material ∈ materials_with DocDict n all_docs <->
      exists by_model, (material, by_model) ∈ all_docs /\ length by_model = n)
  /\ (exists all_docs,
        load_all_docs unit read_any "figs" coverage_example = Ok all_docs
        /\ map (fun kv => (fst kv, dict_keys (snd kv))) all_docs =
             [("mp-1", ["mp"; "chgnet"]); ("mp-2", ["mp"; "chgnet"; "mace"]);
              ("mp-3", ["mp"])]
        /\ materials_with_2 unit all_docs = ["mp-1"]
        /\ materials_with_3 unit all_docs = ["mp-2"]).
Proof.
  split.
  - intros n all_docs material. unfold materials_with.
    rewrite list_elem_of_fmap. split.
    + intros [[k v] [-> Hin]]. apply list_elem_of_In, filter_In in Hin as [Hin Hlen].
      exists v. split; [by apply list_elem_of_In|]. by apply Nat.eqb_eq in Hlen.
    + intros (v & Hin & Hlen). exists (material, v). split; [done|].
      apply list_elem_of_In, filter_In. split; [by apply list_elem_of_In|].
      by apply Nat.eqb_eq.
  - eexists. split; [vm_compute; reflexivity|]. by vm_compute.
Qed.

End PhononFacts.

(** ** The export of the analysed material ids *)

Section ExportFacts.
Import MetricsTable.

Lemma insert_by_key_perm {A} (x : Z * A) l : insert_by_key x l ≡ₚ x :: l.
Proof.
  induction l as [|y l IH]; cbn; [done|].
  destruct (fst x <=? fst y)%Z; [done|].
  rewrite IH. apply Permutation_swap.
Qed.

Lemma insert_by_key_sorted {A} (x : Z * A) l :
  StronglySorted key_le l -> StronglySorted key_le (insert_by_key x l).
Proof.
  induction 1 as [|y l Hs IH Hall]; cbn.
  - repeat constructor.
  - destruct (Z.leb_spec (fst x) (fst y)) as [Hle|Hlt].
    + constructor; [by constructor|]. constructor; [done|].
      eapply Forall_impl; [exact Hall|]. unfold key_le. intros z Hz. cbn in *. lia.
    + constructor; [done|].
      rewrite insert_by_key_perm. constructor; [|done]. unfold key_le. lia.
Qed.

Lemma insertion_sort_perm {A} (l : list (Z * A)) : foldr insert_by_key [] l ≡ₚ l.
Proof.
  induction l as [|x l IH]; cbn; [done|]. by rewrite insert_by_key_perm, IH.
Qed.

Lemma insertion_sort_sorted {A} (l : list (Z * A)) :
  StronglySorted key_le (foldr insert_by_key [] l).
Proof.
  induction l as [|x l IH]; cbn; [constructor|]. by apply insert_by_key_sorted.
Qed.

Lemma with_keys_ok {A} (rows keyed : list (string * A)) ks :
  with_keys rows = Ok ks ->
  map snd ks = rows /\ Forall (fun kr => sort_key (fst (snd kr)) = Ok (fst kr)) ks.
Proof.
  revert ks. induction rows as [|[label a] rows IH]; intros ks; cbn.
  - intros [= <-]. by split.
  - destruct (sort_key label) as [k|e] eqn:Hk; [|done].
    destruct (with_keys rows) as [ks'|e]; [|done].
    intros [= <-]. destruct (IH ks' eq_refl) as [Hmap Hall].
    cbn. split; [by rewrite Hmap|]. by constructor.
Qed.

Lemma loc_ok (df : frame) labels selected :
  loc df labels = Ok selected ->
  map fst selected = labels
  /\ Forall (fun lr => Phonon.dict_get (fst lr) df = Some (snd lr)) selected.
Proof.
  revert selected. induction labels as [|label labels IH]; intros selected; cbn.
  - intros [= <-]. by split.
  - destruct (Phonon.dict_get label df) as [row|] eqn:Hrow; [|done].
    destruct (loc df labels) as [rows'|e]; [|done].
    intros [= <-]. destruct (IH rows' eq_refl) as [Hmap Hall].
    cbn. split; [by rewrite Hmap|]. by constructor.
Qed.

Lemma select_labels columns (df : frame) :
  map fst (select columns df) = map fst df.
Proof.
  unfold select. induction df as [|[l r] df IH]; cbn; [done|]. by rewrite IH.
Qed.

(** What [sort_index] returns: the same rows, ordered by ascending key. *)
Lemma sort_index_ok {A} (rows sorted : list (string * A)) :
  sort_index rows = Ok sorted ->
  sorted ≡ₚ rows
  /\ exists keys,
       Forall2 (fun row k => sort_key (fst row) = Ok k) sorted keys
       /\ StronglySorted Z.le keys.
Proof.
  unfold sort_index. destruct (with_keys rows) as [ks|e] eqn:Hks; [|done].
  intros [= <-]. destruct (with_keys_ok rows rows ks Hks) as [Hmap Hall].
  split.
  - rewrite <- Hmap. apply Permutation_map, insertion_sort_perm.
  - exists (map fst (foldr insert_by_key [] ks)). split.
    + apply Forall2_fmap. apply Forall_Forall2_diag.
      by rewrite insertion_sort_perm.
    + pose proof (insertion_sort_sorted ks) as Hs.
      induction Hs as [|x l _ IH Hx]; cbn; constructor; [done|].
      by apply Forall_fmap.
Qed.

(** What a successful export holds. *)
Lemma export_mp_ids_ok (df_pbe : frame) idx_n_avail table :
  export_mp_ids df_pbe idx_n_avail = Ok table ->
  header table = [formula; supercell; n_sites]
  /\ map fst (rows table) ≡ₚ idx_n_avail
  /\ Forall (fun row => exists r,
               Phonon.dict_get (fst row) df_pbe = Some r
               /\ snd row = [r formula; r supercell; r n_sites]) (rows table)
  /\ exists keys,
       Forall2 (fun row k => sort_key (fst row) = Ok k) (rows table) keys
       /\ StronglySorted Z.le keys.
Proof.
  unfold export_mp_ids.
  destruct (loc df_pbe idx_n_avail) as [selected|e] eqn:Hloc; [|done].
  destruct (sort_index _) as [sorted|e] eqn:Hsort; [|done].
  intros [= <-]. cbn [header rows].
  destruct (loc_ok _ _ _ Hloc) as [Hlabels Hrows].
  destruct (sort_index_ok _ _ Hsort) as [Hperm Hkeys].
  split; [done|]. split; [|split; [|done]].
  - by rewrite Hperm, select_labels, Hlabels.
  - rewrite Hperm. unfold select. apply Forall_fmap.
    eapply Forall_impl; [exact Hrows|]. intros [l r] Hr. by exists r.
Qed.

Lemma loc_succeeds (df : frame) labels :
  Forall (fun label => is_Some (Phonon.dict_get label df)) labels ->
  exists selected, loc df labels = Ok selected.
Proof.
  induction 1 as [|label labels [row Hrow] _ [selected IH]]; cbn; [by eexists|].
  rewrite Hrow, IH. by eexists.
Qed.

Lemma with_keys_succeeds {A} (rows : list (string * A)) :
  Forall (fun label => is_ok (sort_key label) = true) (map fst rows) ->
  exists keyed, with_keys rows = Ok keyed.
Proof.
  induction rows as [|[label a] rows IH]; cbn; [by eexists|].
  intros [Hk Hrest]%Forall_cons. destruct (IH Hrest) as [keyed ->].
  destruct (sort_key label); [by eexists|done].
Qed.

(** When every selected identifier has a row in the reference frame and
    a key, the export returns a table, with the rows in ascending order
    of their keys. *)
Lemma export_mp_ids_by_key (df_pbe : frame) idx_n_avail :
  Forall (fun label => is_Some (Phonon.dict_get label df_pbe)) idx_n_avail ->
  Forall (fun label => is_ok (sort_key label) = true) idx_n_avail ->
  exists table,
    export_mp_ids df_pbe idx_n_avail = Ok table
    /\ header table = [formula; supercell; n_sites]
    /\ map fst (rows table) ≡ₚ idx_n_avail
    /\ Forall (fun row => exists r,
                 Phonon.dict_get (fst row) df_pbe = Some r
                 /\ snd row = [r formula; r supercell; r n_sites]) (rows table)
    /\ exists keys,
         Forall2 (fun row k => sort_key (fst row) = Ok k) (rows table) keys
         /\ StronglySorted Z.le keys.
Proof.
  intros Hrows Hkeys.
  assert (exists table, export_mp_ids df_pbe idx_n_avail = Ok table) as [table Htable].
  { unfold export_mp_ids.
    destruct (loc_succeeds _ _ Hrows) as [selected Hloc]. rewrite Hloc.
    destruct (loc_ok _ _ _ Hloc) as [Hlabels _].
    destruct (with_keys_succeeds (select export_columns selected)) as [keyed Hkeyed].
    { by rewrite select_labels, Hlabels. }
    unfold sort_index. rewrite Hkeyed. by eexists. }
  exists table. split; [done|]. by apply export_mp_ids_ok.
Qed.

End ExportFacts.

(** The example export: the identifiers come out in the order 9, 10, 149,
    not in the order of their text. *)
Example export_mp_ids_example :
  (MetricsTable.rows <$>
     match MetricsTable.export_mp_ids MetricsTable.export_example
             ["mp-149"; "mp-10"; "mp-9"] with
     | Ok table => Some table
     | Raise _ => None
     end)
  = Some [("mp-9", ["MgO"; "3x3x3"; "2"]); ("mp-10", ["NaCl"; "2x2x2"; "2"]);
          ("mp-149", ["Si2"; "2x2x2"; "2"])].
Proof. by vm_compute. Qed.


(** ** Regression metrics *)

Section RegressionFacts.
Import MetricsTable.

Implicit Types dft_col model_col s : gmap string cell.

Lemma lookup_series_sub dft_col model_col k :
  series_sub dft_col model_col !! k =
    match dft_col !! k, model_col !! k with
    | Some (Some p), Some (Some q) => Some (Some (p - q)%Qc)
    | None, None => None
    | _, _ => Some None
    end.
Proof.
  unfold series_sub. rewrite lookup_merge.
  by destruct (dft_col !! k) as [[?|]|], (model_col !! k) as [[?|]|].
Qed.

Lemma lookup_both_present dft_col model_col k :
  both_present dft_col model_col !! k =
    match dft_col !! k, model_col !! k with
    | Some (Some p), Some (Some q) => Some (p, q)
    | _, _ => None
    end.
Proof.
  unfold both_present. rewrite lookup_merge.
  by destruct (dft_col !! k) as [[?|]|], (model_col !! k) as [[?|]|].
Qed.

(** The non-NaN cells of [|dft - model|] are the absolute errors of the
    materials where both values are present. *)
Lemma finite_abs_diff dft_col model_col :
  omap id (series_abs (series_sub dft_col model_col)) = abs_errors dft_col model_col.
Proof.
  apply map_eq. intros k. unfold series_abs, abs_errors.
  rewrite lookup_omap, !lookup_fmap, lookup_series_sub, lookup_both_present.
  by destruct (dft_col !! k) as [[?|]|], (model_col !! k) as [[?|]|].
Qed.

Lemma add_comm_fold (j1 j2 : string) (z1 z2 y : Qc) :
  (y + z2 + z1 = y + z1 + z2)%Qc.
Proof. ring. Qed.

(** Skipping NaN in the sum and in the count is summing and counting the
    non-NaN cells. *)
Lemma sum_skipna s :
  map_fold (fun _ => add_cell) 0%Qc s
  = map_fold (fun _ e acc => (acc + e)%Qc) 0%Qc (omap id s).
Proof.
  apply (map_fold_weak_ind
           (fun r m => r = map_fold (fun _ e acc => (acc + e)%Qc) 0%Qc (omap id m))).
  - by rewrite omap_empty, map_fold_empty.
  - intros k c m r Hk ->.
    assert (Hk' : omap id m !! k = None) by (by rewrite lookup_omap, Hk).
    destruct c as [q|]; cbn.
    + rewrite (omap_insert_Some _ _ _ _ q) by done.
      rewrite map_fold_insert_L; [done| |done].
      intros. apply add_comm_fold; done.
    + rewrite omap_insert_None by done. by rewrite delete_id.
Qed.

Lemma count_skipna s :
  map_fold (fun _ => count_cell) O s = size (omap id s).
Proof.
  apply (map_fold_weak_ind (fun r m => r = size (omap id m))).
  - by rewrite omap_empty, map_size_empty.
  - intros k c m r Hk ->.
    assert (Hk' : omap id m !! k = None) by (by rewrite lookup_omap, Hk).
    destruct c as [q|]; cbn.
    + rewrite (omap_insert_Some _ _ _ _ q) by done.
      by rewrite map_size_insert_None.
    + rewrite omap_insert_None by done. by rewrite delete_id.
Qed.

(** The mean absolute error the loop computes is the spec's. *)
Lemma mae_refines_spec dft_col model_col :
  series_mean (series_abs (series_sub dft_col model_col)) = mae_spec dft_col model_col.
Proof.
  unfold series_mean, mae_spec.
  by rewrite sum_skipna, count_skipna, finite_abs_diff.
Qed.

Lemma elem_of_dropna_index dft_col model_col k :
  k ∈ dropna_index (series_sub dft_col model_col) <->
  exists p q, dft_col !! k = Some (Some p) /\ model_col !! k = Some (Some q).
Proof.
  unfold dropna_index. rewrite list_elem_of_fmap. split.
  - intros [[k' c] [-> Hin]].
    apply elem_of_map_to_list, map_lookup_filter_Some in Hin as [Hk [d Hd]].
    cbn in Hd. subst c. rewrite lookup_series_sub in Hk. cbn.
    destruct (dft_col !! k') as [[p|]|], (model_col !! k') as [[q|]|];
      try done; eauto.
  - intros (p & q & Hp & Hq). exists (k, Some (p - q)%Qc). split; [done|].
    apply elem_of_map_to_list, map_lookup_filter_Some. split; [|by eexists].
    by rewrite lookup_series_sub, Hp, Hq.
Qed.

Lemma series_loc_present s labels :
  Forall (fun k => is_Some (s !! k)) labels ->
  series_loc s labels = Ok ((fun k => default None (s !! k)) <$> labels).
Proof.
  induction 1 as [|k labels [c Hc] _ IH]; cbn; [done|].
  by rewrite Hc, IH.
Qed.

(** C4. The mean absolute error is the mean of the absolute differences
    over exactly the materials where reference and model both have a
    value, and [r2_score] receives the reference and the model values of
    exactly these materials, each once; on the example values the mean
    absolute error is 1/2, also when materials with a missing value on
    one side are added. *)
Theorem regression_metrics_over_both_present :
  (forall dft_col model_col,
      exists labels,
        NoDup labels
        /\ (forall k, k ∈ labels <->
                      exists p q, dft_col !! k = Some (Some p)
                                  /\ model_col !! k = Some (Some q))
        /\ regression_metrics dft_col model_col =
             match r2_score ((fun k => default None (dft_col !! k)) <$> labels)
                            ((fun k => default None (model_col !! k)) <$> labels) with
             | Ok r2 => Ok (FreqMetrics (mae_spec dft_col model_col) r2)
             | Raise e => Raise e
             end)
  /\ regression_metrics dft_example model_example =
       Ok (FreqMetrics (Some (Q2Qc (1 # 2))) (Some (Q2Qc (3 # 8))))
  /\ regression_metrics dft_gaps_example model_gaps_example =
       Ok (FreqMetrics (Some (Q2Qc (1 # 2))) (Some (Q2Qc (3 # 8)))).
Proof.
  split; [|split].
  - intros dft_col model_col.
    exists (dropna_index (series_sub dft_col model_col)).
    split; [apply NoDup_fst_map_to_list|].
    split; [apply elem_of_dropna_index|].
    unfold regression_metrics. rewrite mae_refines_spec.
    rewrite !series_loc_present.
    + by destruct (r2_score _ _).
    + apply Forall_forall. intros k Hk.
      apply elem_of_dropna_index in Hk as (p & q & _ & ->). by eexists.
    + apply Forall_forall. intros k Hk.
      apply elem_of_dropna_index in Hk as (p & q & -> & _). by eexists.
  - vm_compute. do 2 f_equal; f_equal; by apply Qc_is_canon.
  - vm_compute. do 2 f_equal; f_equal; by apply Qc_is_canon.
Qed.

End RegressionFacts.

(** ** Classification metrics *)

Section ClassificationFacts.
Import MetricsTable.

Local Open Scope Qc_scope.

Lemma count_pairs_row t y_true y_pred :
  length y_true = length y_pred ->
  (count_pairs t false y_true y_pred + count_pairs t true y_true y_pred)%nat
  = n_true_label t y_true.
Proof.
  unfold count_pairs, n_true_label. revert y_pred.
  induction y_true as [|a y_true IH]; intros [|b y_pred] Hlen; try done.
  injection Hlen as Hlen. specialize (IH _ Hlen). cbn.
  destruct a, b, t; cbn in *; lia.
Qed.

Lemma count_pairs_no_pred t p y_true y_pred :
  Forall (fun b => b = negb p) y_pred -> count_pairs t p y_true y_pred = O.
Proof.
  unfold count_pairs. intros Hall. revert y_true.
  induction Hall as [|b y_pred -> _ IH]; intros [|a y_true]; try done.
  cbn. rewrite andb_comm. destruct p; cbn; apply IH.
Qed.

Lemma count_pairs_no_true t p y_true y_pred :
  Forall (fun b => b = negb t) y_true -> count_pairs t p y_true y_pred = O.
Proof.
  unfold count_pairs. intros Hall. revert y_pred.
  induction Hall as [|a y_true -> _ IH]; intros [|b y_pred]; try done.
  cbn. destruct t; cbn; apply IH.
Qed.

Lemma existsb_false_Forall (f : bool -> bool) l :
  existsb f l = false -> Forall (fun b => f b = false) l.
Proof.
  induction l as [|a l IH]; cbn; [constructor|].
  intros [Ha Hl]%orb_false_iff. constructor; auto.
Qed.

Lemma n_true_label_pos t y_true : t ∈ y_true <-> n_true_label t y_true <> O.
Proof.
  unfold n_true_label. induction y_true as [|a y_true IH]; cbn.
  - split; [by intros ?%elem_of_nil|done].
  - rewrite elem_of_cons. destruct t, a; cbn; try (split; [done|]; by left);
      rewrite IH; split; auto; intros [|]; done.
Qed.

Lemma qnat_add a b : qnat (a + b) = qnat a + qnat b.
Proof. unfold qnat. by rewrite Nat2Z.inj_add, Z2Qc_inj_add. Qed.

Lemma qnat_zero n : qnat n = 0 <-> n = O.
Proof.
  unfold qnat. rewrite <- Z2Qc_inj_0, Z2Qc_inj_iff. lia.
Qed.

Lemma qnat_nonneg n : 0 <= qnat n.
Proof. unfold qnat. rewrite <- Z2Qc_inj_0, <- Z2Qc_inj_le. lia. Qed.

(** The counts of the row of label [t], over the labels that occur, add
    up to the number of samples whose reference label is [t]. *)
Lemma row_counts_sum t y_true y_pred :
  length y_true = length y_pred ->
  qsum (map (fun p => qnat (count_pairs t p y_true y_pred))
            (unique_labels y_true y_pred))
  = qnat (n_true_label t y_true).
Proof.
  intros Hlen. rewrite <- (count_pairs_row t _ _ Hlen), qnat_add.
  unfold unique_labels.
  destruct (existsb negb _) eqn:Hf, (existsb id _) eqn:Ht;
    unfold qsum; cbn [app map foldr].
  - by rewrite Qcplus_0_r.
  - apply existsb_false_Forall, Forall_app in Ht as [_ Ht].
    rewrite (count_pairs_no_pred t true) by done.
    by rewrite (proj2 (qnat_zero O)).
  - apply existsb_false_Forall, Forall_app in Hf as [_ Hf].
    rewrite (count_pairs_no_pred t false).
    + by rewrite (proj2 (qnat_zero O)), Qcplus_0_l, Qcplus_0_r.
    + eapply Forall_impl; [exact Hf|]. by intros [].
  - apply existsb_false_Forall, Forall_app in Ht as [_ Ht].
    apply existsb_false_Forall, Forall_app in Hf as [_ Hf].
    rewrite (count_pairs_no_pred t true) by done.
    rewrite (count_pairs_no_pred t false).
    + by rewrite (proj2 (qnat_zero O)), Qcplus_0_l.
    + eapply Forall_impl; [exact Hf|]. by intros [].
Qed.

Lemma qsum_div l total :
  total <> 0 -> qsum (map (fun c => nan_to_num_div c total) l) = qsum l / total.
Proof.
  intros Hne. induction l as [|c l IH].
  - unfold Qcdiv. cbn. by rewrite Qcmult_0_l.
  - cbn [map]. unfold qsum in *. cbn [foldr]. rewrite IH.
    unfold nan_to_num_div. rewrite decide_False by done.
    unfold Qcdiv. by rewrite Qcmult_plus_distr_l.
Qed.

(** By-true-row normalization of one row: it sums to 1 when the label has
    a sample in the reference and is all zeros otherwise. *)
Lemma normalized_row t y_true y_pred :
  length y_true = length y_pred ->
  let counts := map (fun p => qnat (count_pairs t p y_true y_pred))
                    (unique_labels y_true y_pred) in
  let row := map (fun c => nan_to_num_div c (qsum counts)) counts in
  if decide (t ∈ y_true) then qsum row = 1 else Forall (eq 0) row.
Proof.
  intros Hlen counts row. subst row.
  pose proof (row_counts_sum t _ _ Hlen) as Hsum. fold counts in Hsum.
  rewrite Hsum. case_decide as Ht.
  - apply n_true_label_pos in Ht.
    assert (qnat (n_true_label t y_true) <> 0) as Hne by (by rewrite qnat_zero).
    rewrite qsum_div by done. rewrite Hsum. by field.
  - assert (n_true_label t y_true = O) as ->.
    { destruct (decide (n_true_label t y_true = O)); [done|].
      by apply n_true_label_pos in n. }
    apply Forall_fmap, Forall_true. intros c. cbn.
    unfold nan_to_num_div. by rewrite decide_True by (by apply qnat_zero).
Qed.

Lemma nan_to_num_div_nonneg a n : 0 <= nan_to_num_div (qnat a) (qnat n).
Proof.
  unfold nan_to_num_div. case_decide as Hn; [done|].
  apply Qcmult_nonneg_nonneg; [apply qnat_nonneg|].
  apply Qclt_le_weak, Qcinv_pos.
  destruct (Qcle_lt_or_eq _ _ (qnat_nonneg n)) as [?|Heq]; [done|].
  by destruct Hn.
Qed.

Lemma nonneg_sum_zero x y : 0 <= x -> 0 <= y -> x + y = 0 -> x = 0.
Proof.
  intros Hx Hy Hsum. apply Qcle_antisym; [|done].
  rewrite <- Hsum. rewrite <- (Qcplus_0_r x) at 1.
  by apply Qcplus_le_mono_l.
Qed.

Lemma confusion_matrix_by_true y_true y_pred :
  length y_true = length y_pred ->
  confusion_matrix y_true y_pred norm_true =
    Ok (map (fun t =>
               let counts := map (fun p => qnat (count_pairs t p y_true y_pred))
                                 (unique_labels y_true y_pred) in
               map (fun c => nan_to_num_div c (qsum counts)) counts)
            (unique_labels y_true y_pred)).
Proof.
  intros Hlen. unfold confusion_matrix.
  rewrite Hlen, Nat.eqb_refl. cbn [negb]. by rewrite map_map.
Qed.

Lemma unique_labels_both y_true y_pred :
  true ∈ y_true -> false ∈ y_true -> unique_labels y_true y_pred = [false; true].
Proof.
  intros Ht Hf. unfold unique_labels.
  assert (existsb negb (y_true ++ y_pred) = true) as ->.
  { apply existsb_exists. exists false. split; [|done].
    apply in_or_app. left. by apply list_elem_of_In. }
  assert (existsb id (y_true ++ y_pred) = true) as ->.
  { apply existsb_exists. exists true. split; [|done].
    apply in_or_app. left. by apply list_elem_of_In. }
  done.
Qed.

(** With both classes in the reference the matrix is two by two, both
    assertions hold and the scores are computed. *)
Lemma classification_metrics_both_classes y_true y_pred :
  length y_true = length y_pred ->
  true ∈ y_true -> false ∈ y_true ->
  exists tn fp fn tp m,
    confusion_matrix y_true y_pred norm_true = Ok [[tn; fp]; [fn; tp]]
    /\ tn + fp = 1 /\ fn + tp = 1
    /\ 0 <= fp /\ 0 <= tp
    /\ classification_metrics normalize y_true y_pred = Ok m
    /\ prec_imag_freq m = fdiv (Finite tp) (Finite (tp + fp))
    /\ recall_imag_freq m = fdiv (Finite tp) (Finite (tp + fn))
    /\ f1_imag_freq m =
         fdiv (fmul (Finite 2) (fmul (prec_imag_freq m) (recall_imag_freq m)))
              (fadd (prec_imag_freq m) (recall_imag_freq m)).
Proof.
  intros Hlen Ht Hf.
  pose proof (normalized_row false _ _ Hlen) as HF.
  pose proof (normalized_row true _ _ Hlen) as HT.
  cbv zeta in HF, HT.
  rewrite decide_True in HF by done. rewrite decide_True in HT by done.
  pose proof (confusion_matrix_by_true _ _ Hlen) as Hcm.
  pose proof (row_counts_sum false _ _ Hlen) as HsF.
  pose proof (row_counts_sum true _ _ Hlen) as HsT.
  rewrite (unique_labels_both _ _ Ht Hf) in *.
  cbn [map] in *. rewrite HsF, HsT in *.
  set (tn := nan_to_num_div (qnat (count_pairs false false y_true y_pred)) _) in *.
  set (fp := nan_to_num_div (qnat (count_pairs false true y_true y_pred)) _) in *.
  set (fn := nan_to_num_div (qnat (count_pairs true false y_true y_pred)) _) in *.
  set (tp := nan_to_num_div (qnat (count_pairs true true y_true y_pred)) _) in *.
  unfold qsum in HF, HT. cbn [foldr] in HF, HT.
  rewrite Qcplus_0_r in HF, HT.
  assert (Hroc : exists auc, roc_auc_score y_true y_pred = Ok auc).
  { unfold roc_auc_score. rewrite decide_False; [by eexists|].
    rewrite !qnat_zero. intros [H|H]; by eapply n_true_label_pos in H. }
  destruct Hroc as [auc Hroc].
  exists tn, fp, fn, tp. eexists.
  split; [done|]. split; [done|]. split; [done|].
  split; [apply nan_to_num_div_nonneg|]. split; [apply nan_to_num_div_nonneg|].
  unfold classification_metrics, normalize. rewrite Hcm.
  unfold check_normalized. rewrite !decide_True by done. rewrite Hroc.
  by cbn.
Qed.

(** With a class missing from the reference, the scores are not
    computed: the row of the missing class is all zeros and fails its
    assertion, or the matrix is not two by two and the unpacking fails. *)
Lemma classification_metrics_one_class y_true y_pred t :
  length y_true = length y_pred ->
  t ∉ y_true ->
  exists e, classification_metrics normalize y_true y_pred = Raise e.
Proof.
  intros Hlen Ht.
  pose proof (normalized_row t _ _ Hlen) as Hrow. cbv zeta in Hrow.
  rewrite decide_False in Hrow by done.
  unfold classification_metrics, normalize.
  rewrite (confusion_matrix_by_true _ _ Hlen).
  unfold unique_labels in *.
  destruct (existsb negb _), (existsb id _); cbn [app map] in *;
    try (by eexists).
  unfold check_normalized.
  destruct t.
  - apply Forall_cons in Hrow as [<- [<- _]%Forall_cons].
    case_decide; [|by eexists].
    rewrite decide_False; [by eexists|].
    rewrite Qcplus_0_r. intros Hbad. symmetry in Hbad. by apply Q_apart_0_1.
  - apply Forall_cons in Hrow as [<- [<- _]%Forall_cons].
    rewrite decide_False; [by eexists|].
    rewrite Qcplus_0_r. intros Hbad. symmetry in Hbad. by apply Q_apart_0_1.
Qed.

(** With both classes in the reference the scores of the model are
    computed, and only then. *)
Lemma classification_metrics_ok_iff y_true y_pred :
  length y_true = length y_pred ->
  is_ok (classification_metrics normalize y_true y_pred) = true
  <-> true ∈ y_true /\ false ∈ y_true.
Proof.
  intros Hlen. split.
  - intros Hok.
    destruct (decide (true ∈ y_true)) as [Ht|Ht].
    + destruct (decide (false ∈ y_true)) as [Hf|Hf]; [done|].
      destruct (classification_metrics_one_class _ _ _ Hlen Hf) as [e He].
      by rewrite He in Hok.
    + destruct (classification_metrics_one_class _ _ _ Hlen Ht) as [e He].
      by rewrite He in Hok.
  - intros [Ht Hf].
    destruct (classification_metrics_both_classes _ _ Hlen Ht Hf)
      as (tn & fp & fn & tp & m & _ & _ & _ & _ & _ & -> & _).
    done.
Qed.

(** C3 (as amended). For reference and model vectors of the same length,
    at least 1, by-true-row normalization gives every row whose label
    has a sample in the reference entries that add up to exactly 1, and
    fills a row without such a sample with zeros. *)
Theorem by_true_row_normalization y_true y_pred :
  length y_true = length y_pred ->
  (1 <= length y_true)%nat ->
  exists cm,
    confusion_matrix y_true y_pred norm_true = Ok cm
    /\ Forall2 (fun row t =>
                  if decide (t ∈ y_true) then qsum row = 1 else Forall (eq 0) row)
               cm (unique_labels y_true y_pred).
Proof.
  intros Hlen _.
  eexists. split; [by apply confusion_matrix_by_true|].
  apply Forall2_fmap_l, Forall_Forall2_diag, Forall_forall.
  intros t _. by apply (normalized_row t _ _ Hlen).
Qed.

(** X30. When the reference holds both classes, the scores are computed
    without an exception and a zero denominator gives NaN,
    neither an infinity nor zero: precision is NaN exactly when no sample
    is predicted positive, recall has denominator 1, and F1 is NaN
    exactly when precision is NaN or precision and recall are both zero. *)
Theorem zero_denominator_gives_nan y_true y_pred :
  length y_true = length y_pred ->
  true ∈ y_true -> false ∈ y_true ->
  exists tn fp fn tp m,
    confusion_matrix y_true y_pred norm_true = Ok [[tn; fp]; [fn; tp]]
    /\ classification_metrics normalize y_true y_pred = Ok m
    /\ prec_imag_freq m =
         (if decide (tp + fp = 0) then NaN else Finite (tp / (tp + fp)))
    /\ tp + fn = 1
    /\ recall_imag_freq m = Finite (tp / (tp + fn))
    /\ f1_imag_freq m =
         match prec_imag_freq m with
         | Finite p =>
             if decide (p + tp / (tp + fn) = 0) then NaN
             else Finite (2 * (p * (tp / (tp + fn))) / (p + tp / (tp + fn)))
         | _ => NaN
         end.
Proof.
  intros Hlen Ht Hf.
  destruct (classification_metrics_both_classes _ _ Hlen Ht Hf)
    as (tn & fp & fn & tp & m & Hcm & Hrow0 & Hrow1 & Hfp & Htp & Hm & Hp & Hr & Hf1).
  exists tn, fp, fn, tp, m.
  assert (Hden : tp + fn = 1) by (by rewrite Qcplus_comm).
  assert (Hprec : prec_imag_freq m =
            if decide (tp + fp = 0) then NaN else Finite (tp / (tp + fp))).
  { rewrite Hp. unfold fdiv. case_decide as Hz; [|done].
    by rewrite decide_True by (by apply (nonneg_sum_zero tp fp)). }
  assert (Hrec : recall_imag_freq m = Finite (tp / (tp + fn))).
  { rewrite Hr. unfold fdiv. rewrite decide_False; [done|].
    rewrite Hden. apply Q_apart_0_1. }
  repeat (split; [done|]).
  rewrite Hf1, Hrec, Hprec.
  assert (Hrnn : 0 <= tp / (tp + fn)).
  { rewrite Hden. unfold Qcdiv. by rewrite Qcmult_comm, <- (Qcmult_1_l (/1)),
      Qcmult_inv_r, Qcmult_1_l by apply Q_apart_0_1. }
  case_decide as Hz; [done|].
  assert (Hpnn : 0 <= tp / (tp + fp)).
  { apply Qcmult_nonneg_nonneg; [done|].
    apply Qclt_le_weak, Qcinv_pos.
    destruct (Qcle_lt_or_eq 0 (tp + fp)) as [?|Heq]; [|done|by destruct Hz].
    by apply Qcplus_nonneg_nonneg. }
  cbn [fmul fadd]. unfold fdiv. case_decide as Hsum; [|done].
  rewrite decide_True; [done|].
  rewrite (nonneg_sum_zero _ _ Hpnn Hrnn Hsum).
  by rewrite Qcmult_0_l, Qcmult_0_r.
Qed.

End ClassificationFacts.

(** C2. For the reference [True, True] and the model [False, False] no
    score is returned: the row of the negative class has no sample and is
    all zeros, and the first assertion of the script on the row sums
    raises before precision and recall are formed. *)
Theorem classification_metrics_all_positive_raises :
  MetricsTable.classification_metrics MetricsTable.normalize [true; true] [false; false]
  = Raise (AssertionError "").
Proof. by vm_compute. Qed.

Lemma zero_denominator_gives_nan_witness :
  length [false; true] = length [false; false]
  /\ true ∈ [false; true]
  /\ false ∈ [false; true]
  /\ exists tn fp fn tp m,
       MetricsTable.confusion_matrix [false; true] [false; false] MetricsTable.norm_true
         = Ok [[tn; fp]; [fn; tp]]
       /\ MetricsTable.classification_metrics MetricsTable.normalize
            [false; true] [false; false] = Ok m
       /\ MetricsTable.prec_imag_freq m =
            (if decide (tp + fp = 0)%Qc then MetricsTable.NaN
             else MetricsTable.Finite (tp / (tp + fp))%Qc)
       /\ (tp + fn = 1)%Qc
       /\ MetricsTable.recall_imag_freq m = MetricsTable.Finite (tp / (tp + fn))%Qc
       /\ MetricsTable.f1_imag_freq m =
            match MetricsTable.prec_imag_freq m with
            | MetricsTable.Finite p =>
                if decide (p + tp / (tp + fn) = 0)%Qc then MetricsTable.NaN
                else MetricsTable.Finite
                       (2 * (p * (tp / (tp + fn))) / (p + tp / (tp + fn)))%Qc
            | _ => MetricsTable.NaN
            end.
Proof.
  assert (H1 : length [false; true] = length [false; false]) by reflexivity.
  assert (H2 : true ∈ [false; true]) by (apply list_elem_of_In; simpl; tauto).
  assert (H3 : false ∈ [false; true]) by (apply list_elem_of_In; simpl; tauto).
  repeat (split; [assumption|]).
  exact (zero_denominator_gives_nan [false; true] [false; false] H1 H2 H3).
Defined.

(** A model that never predicts the positive class, scored against a
    reference with both classes: precision is NaN, recall is 0 and F1 is
    NaN, without an exception. *)
Example classification_metrics_never_positive :
  match MetricsTable.classification_metrics MetricsTable.normalize
          [false; true] [false; false] with
  | Ok m =>
      MetricsTable.prec_imag_freq m = MetricsTable.NaN
      /\ MetricsTable.recall_imag_freq m = MetricsTable.Finite 0%Qc
      /\ MetricsTable.f1_imag_freq m = MetricsTable.NaN
  | Raise _ => False
  end.
Proof. by vm_compute. Qed.

(** C3, the claim as stated fails: for the one-sample reference [True] and
    model [False] the row of the negative class has no sample, and the
    normalization fills it with the numbers 0 and 0, not with an
    undefined marker. *)
Lemma by_true_row_empty_row_zero_filled :
  exists cm,
    MetricsTable.confusion_matrix [true] [false] MetricsTable.norm_true = Ok cm
    /\ map (map this) cm = [[0; 0]; [1; 0]]%Q.
Proof. eexists; split; by vm_compute. Qed.

(** On that matrix the assertion of the script on the sum of the first row
    raises, so that no score is stored. *)
Example by_true_row_empty_row_raises :
  MetricsTable.classification_metrics MetricsTable.normalize [true] [false]
  = Raise (AssertionError "").
Proof. by vm_compute. Qed.

Lemma by_true_row_normalization_witness :
  length [false; true; true] = length [false; false; true]
  /\ 1 <= length [false; true; true]
  /\ exists cm,
       MetricsTable.confusion_matrix [false; true; true] [false; false; true]
         MetricsTable.norm_true = Ok cm
       /\ Forall2 (fun row t =>
                     if decide (t ∈ [false; true; true])
                     then MetricsTable.qsum row = 1%Qc else Forall (eq 0%Qc) row)
                  cm (MetricsTable.unique_labels [false; true; true] [false; false; true]).
Proof.
  split; [reflexivity|]. split; [cbn; lia|].
  apply (by_true_row_normalization [false; true; true] [false; false; true]).
  - reflexivity.
  - cbn. lia.
Defined.


(** ** More on the document cache *)

Section MpMore.
Import Mp.

Context {PhononBSDOSDoc Json : Type}.
Variable as_json : PhononBSDOSDoc -> Json.
Variable json_dumps : Json -> string.
Variable json_load : string -> result Json.
Variable isdir : string -> bool.
Variable dump_error : PhononBSDOSDoc -> option (string * exn).

Abbreviation get_mp_ph_docs' :=
  (Mp.get_mp_ph_docs PhononBSDOSDoc Json as_json json_dumps json_load isdir dump_error).
Abbreviation repeat_get_mp_ph_docs' :=
  (Mp.repeat_get_mp_ph_docs PhononBSDOSDoc Json as_json json_dumps json_load isdir dump_error).

(** X1. No call changes or removes a file that is already stored, whatever
    the material, the docs directory and the answers of the client. *)
Theorem get_mp_ph_docs_keeps_stored_files
    (mp_rester : Mp.MPRester PhononBSDOSDoc) mp_id docs_dir w path text :
  files w !! path = Some text ->
  files (get_mp_ph_docs' mp_rester mp_id docs_dir w).2 !! path = Some text.
Proof.
  intros Hstored.
  cbv [Mp.get_mp_ph_docs bind log lift isfile read_text write_text ret].
  cbn [files calls].
  destruct (get_structure_by_material_id _ mp_rester mp_id) as [struct|e]; [|done].
  set (target := mp_ph_doc_path docs_dir mp_id struct).
  destruct (truthy target) eqn:Htruthy.
  - destruct (bool_decide (is_Some (files w !! target))) eqn:Hcached.
    + apply bool_decide_eq_true in Hcached as [t Ht]. cbn. rewrite Ht.
      destruct (json_load t); exact Hstored.
    + destruct (get_data_by_id _ mp_rester mp_id) as [doc|e]; cbn; [|exact Hstored].
      apply bool_decide_eq_false in Hcached.
      assert (Hne : target <> path).
      { intros ->. apply Hcached. by eexists. }
      destruct (isdir (dirname target)); [|exact Hstored].
      destruct (dump_error doc) as [[written e]|]; cbn;
        by rewrite lookup_insert_ne.
  - destruct (get_data_by_id _ mp_rester mp_id); exact Hstored.
Qed.

(** X2. A stored file wins over the client: with a non-empty docs directory
    and a file at the path of the material, any number of calls returns the
    decoded file each time, or raises the decoder's exception at the first
    call when the file does not decode; no call fetches and the storage
    stays as it is, so an undecodable file is never replaced. *)
Theorem get_mp_ph_docs_stored_file_wins
    (mp_rester : Mp.MPRester PhononBSDOSDoc) mp_id docs_dir struct text n w :
  get_structure_by_material_id _ mp_rester mp_id = Ok struct ->
  truthy docs_dir = true ->
  files w !! mp_ph_doc_path docs_dir mp_id struct = Some text ->
  let run := repeat_get_mp_ph_docs' (S n) mp_rester mp_id docs_dir w in
  run.1 = match json_load text with
          | Ok j => Ok (replicate (S n) (JsonValue _ _ j, mp_ph_doc_path docs_dir mp_id struct))
          | Raise e => Raise e
          end
  /\ files run.2 = files w
  /\ fetch_count mp_id (calls run.2) = fetch_count mp_id (calls w).
Proof.
  intros Hs Hd Hf run. subst run.
  destruct (json_load text) as [j|e] eqn:Hj.
  - destruct (repeat_get_mp_ph_docs_hits as_json json_dumps json_load isdir dump_error
                mp_rester mp_id docs_dir struct text j (S n) w Hs Hd Hf Hj)
      as (w' & -> & Hfiles & Hcount).
    cbn [fst snd]. by rewrite Hfiles, Hcount.
  - assert (repeat_get_mp_ph_docs' (S n) mp_rester mp_id docs_dir w =
            (Raise e, World (files w)
                            (calls w ++ [StructureLookup mp_id;
                                         FileRead (mp_ph_doc_path docs_dir mp_id struct)])))
      as ->.
    { cbn [Mp.repeat_get_mp_ph_docs]. unfold bind at 1.
      by rewrite (get_mp_ph_docs_hit as_json json_dumps json_load isdir dump_error
        _ _ _ _ _ _ Hs Hd Hf), Hj. }
    cbn [fst snd files calls]. split; [done|]. split; [done|].
    by rewrite fetch_count_app, !fetch_count_other, fetch_count_nil, Nat.add_0_r.
Qed.

(** X3. A call reaches the phonon endpoint at most once, and exactly when
    the structure lookup returned and there is nothing to load: the path is
    empty or no file is stored at it. *)
Theorem get_mp_ph_docs_fetches_at_most_once
    (mp_rester : Mp.MPRester PhononBSDOSDoc) mp_id docs_dir w :
  fetch_count mp_id (calls (get_mp_ph_docs' mp_rester mp_id docs_dir w).2) =
    fetch_count mp_id (calls w) +
    match get_structure_by_material_id _ mp_rester mp_id with
    | Ok struct =>
        let path := mp_ph_doc_path docs_dir mp_id struct in
        if truthy path && bool_decide (is_Some (files w !! path)) then 0 else 1
    | Raise _ => 0
    end.
Proof.
  destruct (get_structure_by_material_id _ mp_rester mp_id) as [struct|e] eqn:Hs.
  - cbv zeta. set (path := mp_ph_doc_path docs_dir mp_id struct).
    destruct (truthy path) eqn:Hp; cbn [andb].
    + destruct (bool_decide (is_Some (files w !! path))) eqn:Hc.
      * apply bool_decide_eq_true in Hc as [text Hf].
        assert (Hd : truthy docs_dir = true).
        { unfold path, mp_ph_doc_path in Hp. by destruct (truthy docs_dir). }
        rewrite (get_mp_ph_docs_hit as_json json_dumps json_load isdir dump_error
          _ _ _ _ _ _ Hs Hd Hf).
        cbn [snd calls].
        by rewrite fetch_count_app, !fetch_count_other, fetch_count_nil.
      * apply bool_decide_eq_false in Hc.
        rewrite (get_mp_ph_docs_not_cached as_json json_dumps json_load isdir dump_error
          _ _ _ _ _ Hs).
        2: { right. fold path. destruct (files w !! path) eqn:E; [|done].
             destruct Hc. by eexists. }
        fold path. rewrite Hp.
        destruct (get_data_by_id _ mp_rester mp_id); cbn [snd calls];
          rewrite fetch_count_app, fetch_count_other, fetch_count_fetch by done;
          rewrite ?fetch_count_other, fetch_count_nil by done; lia.
    + rewrite (get_mp_ph_docs_not_cached as_json json_dumps json_load isdir dump_error _ _ _ _ _ Hs)
        by (by left).
      fold path. rewrite Hp.
      destruct (get_data_by_id _ mp_rester mp_id); cbn [snd calls];
        by rewrite fetch_count_app, fetch_count_other, fetch_count_fetch, fetch_count_nil.
  - cbv [Mp.get_mp_ph_docs bind log lift]. cbn [files calls]. rewrite Hs.
    cbn [snd calls]. by rewrite fetch_count_app, fetch_count_other, fetch_count_nil.
Qed.

End MpMore.

(** *** Strings as lists of characters *)

Section MpPaths.
Import Mp.

Lemma chars_app a b :
  list_ascii_of_string (a +:+ b) = list_ascii_of_string a ++ list_ascii_of_string b.
Proof. induction a as [|c a IH]; simpl; [done|]. by rewrite IH. Qed.

Lemma chars_inj a b : list_ascii_of_string a = list_ascii_of_string b -> a = b.
Proof.
  intros H. rewrite <- (string_of_list_ascii_of_string a),
    <- (string_of_list_ascii_of_string b). by rewrite H.
Qed.

Lemma has_char_false c s : has_char c s = false <-> c ∉ list_ascii_of_string s.
Proof.
  induction s as [|c' s IH]; cbn.
  - split; [intros _ ?%elem_of_nil; done|done].
  - rewrite orb_false_iff, IH, not_elem_of_cons, Ascii.eqb_neq. tauto.
Qed.

(** Cutting at the last occurrence of a separator is unambiguous. *)
Lemma split_at_last {A} (x : A) l1 r1 l2 r2 :
  x ∉ r1 -> x ∉ r2 -> l1 ++ x :: r1 = l2 ++ x :: r2 -> l1 = l2 /\ r1 = r2.
Proof.
  intros H1 H2. revert l2. induction l1 as [|a l1 IH]; intros [|b l2] Heq; cbn in Heq.
  - injection Heq as Heq. by subst.
  - injection Heq as Ha Hr. subst. destruct H1.
    apply elem_of_app. right. apply list_elem_of_here.
  - injection Heq as Ha Hr. subst. destruct H2.
    apply elem_of_app. right. apply list_elem_of_here.
  - injection Heq as Ha Hr. subst. apply IH in Hr as [? ?]. by subst.
Qed.

(** X5. Two materials share a cache file only if they have the same
    identifier and the same formula up to spaces: with a non-empty docs
    directory and formulas without a dash, equal paths force equal
    identifiers and equal space-free formulas. *)
Theorem mp_ph_doc_path_injective docs_dir id1 id2 struct1 struct2 :
  truthy docs_dir = true ->
  has_char "-" (remove_spaces (formula struct1)) = false ->
  has_char "-" (remove_spaces (formula struct2)) = false ->
  mp_ph_doc_path docs_dir id1 struct1 = mp_ph_doc_path docs_dir id2 struct2 ->
  id1 = id2 /\ remove_spaces (formula struct1) = remove_spaces (formula struct2).
Proof.
  intros Hd H1%has_char_false H2%has_char_false Heq.
  unfold mp_ph_doc_path, id_formula in Heq. rewrite Hd in Heq.
  apply (f_equal list_ascii_of_string) in Heq. rewrite !chars_app in Heq.
  apply app_inv_head in Heq. cbn [list_ascii_of_string app] in Heq.
  injection Heq as Heq. apply app_inv_tail in Heq.
  destruct (split_at_last _ _ _ _ _ H1 H2 Heq) as [Hid Hformula].
  split; by apply chars_inj.
Qed.

End MpPaths.

Lemma get_mp_ph_docs_keeps_stored_files_witness :
  Mp.files Mp.stocked_world !! "data/mp/mp-149-Si2.json.xz" = Some "mp-149:dos"
  /\ Mp.files (Mp.get_mp_ph_docs _ _ Mp.stub_as_json Mp.stub_json_dumps Mp.stub_json_load
                 Mp.stub_isdir Mp.stub_dump_error
                   Mp.stub_rester "mp-22862" "data/mp" Mp.stocked_world).2
       !! "data/mp/mp-149-Si2.json.xz" = Some "mp-149:dos".
Proof.
  assert (H : Mp.files Mp.stocked_world !! "data/mp/mp-149-Si2.json.xz"
              = Some "mp-149:dos") by (by vm_compute).
  split; [exact H|].
  exact (get_mp_ph_docs_keeps_stored_files Mp.stub_as_json Mp.stub_json_dumps
           Mp.stub_json_load Mp.stub_isdir Mp.stub_dump_error
             Mp.stub_rester "mp-22862" "data/mp" Mp.stocked_world _ _ H).
Defined.

Lemma get_mp_ph_docs_stored_file_wins_witness :
  Mp.get_structure_by_material_id _ Mp.stub_rester "mp-22862"
    = Ok {| Mp.formula := "Na1 Cl1" |}
  /\ truthy "data/mp" = true
  /\ Mp.files Mp.stocked_world
       !! Mp.mp_ph_doc_path "data/mp" "mp-22862" {| Mp.formula := "Na1 Cl1" |}
     = Some "mp-22862:old"
  /\ let run := Mp.repeat_get_mp_ph_docs _ _ Mp.stub_as_json Mp.stub_json_dumps
                  Mp.stub_json_load Mp.stub_isdir Mp.stub_dump_error
                    3 Mp.stub_rester "mp-22862" "data/mp" Mp.stocked_world in
     run.1 = match Mp.stub_json_load "mp-22862:old" with
             | Ok j => Ok (replicate 3
                             (Mp.JsonValue _ _ j,
                              Mp.mp_ph_doc_path "data/mp" "mp-22862" {| Mp.formula := "Na1 Cl1" |}))
             | Raise e => Raise e
             end
     /\ Mp.files run.2 = Mp.files Mp.stocked_world
     /\ Mp.fetch_count "mp-22862" (Mp.calls run.2)
        = Mp.fetch_count "mp-22862" (Mp.calls Mp.stocked_world).
Proof.
  assert (H1 : Mp.get_structure_by_material_id _ Mp.stub_rester "mp-22862"
               = Ok {| Mp.formula := "Na1 Cl1" |}) by reflexivity.
  assert (H2 : truthy "data/mp" = true) by reflexivity.
  assert (H3 : Mp.files Mp.stocked_world
                 !! Mp.mp_ph_doc_path "data/mp" "mp-22862" {| Mp.formula := "Na1 Cl1" |}
               = Some "mp-22862:old") by (by vm_compute).
  repeat (split; [assumption|]).
  exact (get_mp_ph_docs_stored_file_wins Mp.stub_as_json Mp.stub_json_dumps
           Mp.stub_json_load Mp.stub_isdir Mp.stub_dump_error
             Mp.stub_rester "mp-22862" "data/mp" _ _ 2 _ H1 H2 H3).
Defined.

Lemma repeated_calls_without_persistence_witness :
  Mp.get_structure_by_material_id _ Mp.stub_rester "mp-22862"
    = Ok {| Mp.formula := "Na1 Cl1" |}
  /\ Mp.get_data_by_id _ Mp.stub_rester "mp-22862" = Ok (Mp.StubDoc "mp-22862" "dos+bands")
  /\ exists w',
       Mp.repeat_get_mp_ph_docs _ _ Mp.stub_as_json Mp.stub_json_dumps Mp.stub_json_load
         Mp.stub_isdir Mp.stub_dump_error 3 Mp.stub_rester "mp-22862" "" Mp.stocked_world
       = (Ok (replicate 3 (Mp.DocObject _ _ (Mp.StubDoc "mp-22862" "dos+bands"), "")), w')
       /\ Mp.files w' = Mp.files Mp.stocked_world
       /\ Mp.fetch_count "mp-22862" (Mp.calls w')
          = 3 + Mp.fetch_count "mp-22862" (Mp.calls Mp.stocked_world)
       /\ filter (fun e => Mp.touches_storage e = true) (Mp.calls w')
          = filter (fun e => Mp.touches_storage e = true) (Mp.calls Mp.stocked_world).
Proof.
  assert (H1 : Mp.get_structure_by_material_id _ Mp.stub_rester "mp-22862"
               = Ok {| Mp.formula := "Na1 Cl1" |}) by reflexivity.
  assert (H2 : Mp.get_data_by_id _ Mp.stub_rester "mp-22862"
               = Ok (Mp.StubDoc "mp-22862" "dos+bands")) by reflexivity.
  repeat (split; [assumption|]).
  exact (repeated_calls_without_persistence Mp.stub_as_json Mp.stub_json_dumps
           Mp.stub_json_load Mp.stub_isdir Mp.stub_dump_error
             Mp.stub_rester "mp-22862" _ _ 3 Mp.stocked_world H1 H2).
Defined.

Lemma mp_ph_doc_path_injective_witness :
  truthy "data/mp" = true
  /\ Mp.has_char "-" (remove_spaces (Mp.formula {| Mp.formula := "Na1 Cl1" |})) = false
  /\ Mp.has_char "-" (remove_spaces (Mp.formula {| Mp.formula := "Na1Cl1" |})) = false
  /\ Mp.mp_ph_doc_path "data/mp" "mp-22862" {| Mp.formula := "Na1 Cl1" |}
     = Mp.mp_ph_doc_path "data/mp" "mp-22862" {| Mp.formula := "Na1Cl1" |}
  /\ ("mp-22862" = "mp-22862"
      /\ remove_spaces (Mp.formula {| Mp.formula := "Na1 Cl1" |})
         = remove_spaces (Mp.formula {| Mp.formula := "Na1Cl1" |})).
Proof.
  assert (H1 : truthy "data/mp" = true) by reflexivity.
  assert (H2 : Mp.has_char "-" (remove_spaces (Mp.formula {| Mp.formula := "Na1 Cl1" |}))
               = false) by reflexivity.
  assert (H3 : Mp.has_char "-" (remove_spaces (Mp.formula {| Mp.formula := "Na1Cl1" |}))
               = false) by reflexivity.
  assert (H4 : Mp.mp_ph_doc_path "data/mp" "mp-22862" {| Mp.formula := "Na1 Cl1" |}
               = Mp.mp_ph_doc_path "data/mp" "mp-22862" {| Mp.formula := "Na1Cl1" |})
    by reflexivity.
  repeat (split; [assumption|]).
  exact (mp_ph_doc_path_injective "data/mp" "mp-22862" "mp-22862" _ _ H1 H2 H3 H4).
Defined.

(** ** More on loading and grouping *)

Section PhononMore.
Import Phonon.

Context {DocDict : Type}.
Variable read_doc : string -> result DocDict.

Lemma dict_get_set_eq {V} k (v : V) d : dict_get k (dict_set k v d) = Some v.
Proof.
  induction d as [|[k' v'] d IH]; cbn.
  - by rewrite String.eqb_refl.
  - destruct (String.eqb_spec k k') as [->|Hne]; cbn.
    + by rewrite String.eqb_refl.
    + by rewrite (proj2 (String.eqb_neq k k')).
Qed.

Lemma dict_get_set_ne {V} k k' (v : V) d :
  k <> k' -> dict_get k' (dict_set k v d) = dict_get k' d.
Proof.
  intros Hne. induction d as [|[k0 v0] d IH]; cbn.
  - by rewrite (proj2 (String.eqb_neq k' k)).
  - destruct (String.eqb_spec k k0) as [->|Hne0]; cbn.
    + by rewrite !(proj2 (String.eqb_neq k' k0)).
    + by rewrite IH.
Qed.

Lemma all_docs_get_set_eq mp_id model (d : doc DocDict) all_docs :
  all_docs_get mp_id model (all_docs_set DocDict mp_id model d all_docs) = Some d.
Proof.
  unfold all_docs_get, all_docs_set.
  destruct (dict_get mp_id all_docs) as [by_model|];
    rewrite dict_get_set_eq; [apply dict_get_set_eq|].
  cbn. by rewrite String.eqb_refl.
Qed.

Lemma all_docs_get_set_ne mp_id model id' model' (d : doc DocDict) all_docs :
  (id', model') <> (mp_id, model) ->
  all_docs_get id' model' (all_docs_set DocDict mp_id model d all_docs)
  = all_docs_get id' model' all_docs.
Proof.
  intros Hne. unfold all_docs_get, all_docs_set.
  destruct (decide (mp_id = id')) as [<-|Hid].
  - assert (model <> model') as Hm by congruence.
    destruct (dict_get mp_id all_docs) as [by_model|] eqn:Hget;
      rewrite dict_get_set_eq.
    + by apply dict_get_set_ne.
    + cbn. by rewrite (proj2 (String.eqb_neq model' model)).
  - destruct (dict_get mp_id all_docs) as [by_model|];
      by rewrite dict_get_set_ne.
Qed.

(** X6. A turn of the loading loop files the decoded document under the
    material id and the model that its path spells, where it replaces an
    earlier document of the same material and model; the documents of all
    other materials and models stay as they were. *)
Theorem load_doc_files_document (all_docs all_docs' : all_docs_t DocDict) phonon_doc :
  load_doc DocDict read_doc all_docs phonon_doc = Ok all_docs' ->
  exists mp_id formula model doc_dict,
    re_search key_pattern phonon_doc = Some [mp_id; formula; model]
    /\ read_doc phonon_doc = Ok doc_dict
    /\ all_docs_get mp_id model all_docs' = Some (Doc DocDict doc_dict formula mp_id)
    /\ forall id' model',
         (id', model') <> (mp_id, model) ->
         all_docs_get id' model' all_docs' = all_docs_get id' model' all_docs.
Proof.
  unfold load_doc. destruct (read_doc phonon_doc) as [doc_dict|]; [|done].
  destruct (re_search key_pattern phonon_doc)
    as [[|mp_id [|formula [|model [|]]]]|]; try done.
  destruct (String.prefix "mp-" mp_id); [|done].
  intros [= <-]. exists mp_id, formula, model, doc_dict.
  split; [done|]. split; [done|]. split.
  - apply all_docs_get_set_eq.
  - intros id' model' Hne. by apply all_docs_get_set_ne.
Qed.

Lemma load_all_docs_wf FIGS_DIR existing (all_docs : all_docs_t DocDict) :
  load_all_docs DocDict read_doc FIGS_DIR existing = Ok all_docs ->
  all_docs_wf all_docs.
Proof.
  apply load_docs_wf. split; [apply NoDup_nil_2|constructor].
Qed.

Lemma dict_unique {V} k (v v' : V) d :
  NoDup (dict_keys d) -> (k, v) ∈ d -> (k, v') ∈ d -> v = v'.
Proof.
  unfold dict_keys. induction d as [|[k0 v0] d IH]; cbn.
  - by intros _ ?%elem_of_nil.
  - intros [Hk0 Hd]%NoDup_cons [Hv|Hv]%elem_of_cons [Hv'|Hv']%elem_of_cons.
    + congruence.
    + injection Hv as -> ->. destruct Hk0.
      apply list_elem_of_In, in_map_iff. exists (k0, v'). split; [done|].
      by apply list_elem_of_In.
    + injection Hv' as -> ->. destruct Hk0.
      apply list_elem_of_In, in_map_iff. exists (k0, v). split; [done|].
      by apply list_elem_of_In.
    + by apply IH.
Qed.

Lemma materials_with_nodup n (all_docs : all_docs_t DocDict) :
  NoDup (dict_keys all_docs) -> NoDup (materials_with DocDict n all_docs).
Proof.
  unfold materials_with, dict_keys. induction all_docs as [|[k v] d IH]; cbn.
  - constructor.
  - intros [Hk Hd]%NoDup_cons. destruct (length v =? n)%nat; cbn; [|by apply IH].
    apply NoDup_cons. split; [|by apply IH].
    intros Hin. apply Hk. apply list_elem_of_In, in_map_iff in Hin as [[k' v'] [Heq Hin]].
    cbn in Heq. subst k'. apply filter_In in Hin as [Hin _].
    apply list_elem_of_In, in_map_iff. by exists (k, v').
Qed.

(** X7. The two coverage lists of a loaded grouping name every material at
    most once, and no material is on both. *)
Theorem coverage_lists_disjoint FIGS_DIR existing (all_docs : all_docs_t DocDict) :
  load_all_docs DocDict read_doc FIGS_DIR existing = Ok all_docs ->
  NoDup (materials_with_2 DocDict all_docs)
  /\ NoDup (materials_with_3 DocDict all_docs)
  /\ forall material,
       material ∈ materials_with_2 DocDict all_docs ->
       material ∉ materials_with_3 DocDict all_docs.
Proof.
  intros [Hkeys _]%load_all_docs_wf.
  split; [by apply materials_with_nodup|]. split; [by apply materials_with_nodup|].
  intros material H2 H3. unfold materials_with_2, materials_with_3, materials_with in *.
  apply list_elem_of_In, in_map_iff in H2 as [[k2 v2] [E2 [H2 L2]%filter_In]].
  apply list_elem_of_In, in_map_iff in H3 as [[k3 v3] [E3 [H3 L3]%filter_In]].
  cbn in *. subst k2 k3.
  apply Nat.eqb_eq in L2, L3.
  assert (v2 = v3).
  { apply (dict_unique material v2 v3 all_docs Hkeys); by apply list_elem_of_In. }
  subst v3. lia.
Qed.

Lemma dict_set_nonempty {V} k (v : V) d : dict_set k v d <> [].
Proof. destruct d as [|[k' v'] d]; cbn; [done|]. by destruct (String.eqb k k'). Qed.

Lemma load_docs_records_inv (all_docs all_docs' : all_docs_t DocDict) paths :
  records_inv all_docs ->
  load_docs DocDict read_doc all_docs paths = Ok all_docs' ->
  records_inv all_docs'.
Proof.
  revert all_docs. induction paths as [|p paths IH]; intros all_docs Hinv; cbn.
  - by intros [= <-].
  - destruct (load_doc DocDict read_doc all_docs p) as [next|e] eqn:Hstep; [|done].
    apply IH. clear IH. unfold load_doc in Hstep.
    destruct (read_doc p) as [doc_dict|]; [|done].
    destruct (re_search key_pattern p) as [[|mp_id [|formula [|model [|]]]]|]; try done.
    destruct (String.prefix "mp-" mp_id); [|done].
    injection Hstep as <-. unfold all_docs_set, records_inv.
    destruct (dict_get mp_id all_docs) as [by_model|] eqn:Hget.
    + apply dict_set_Forall; [|done]. cbn. split; [apply dict_set_nonempty|].
      apply dict_set_Forall; [done|].
      by apply (dict_get_Forall _ _ _ _ Hinv Hget).
    + apply dict_set_Forall; [|done]. cbn. split; [done|]. by repeat constructor.
Qed.

(** X8. In a loaded grouping every material has one record, a record holds
    every source once and at least one, and each document carries the id
    of the record it is filed under. *)
Theorem load_all_docs_groups_by_material FIGS_DIR existing (all_docs : all_docs_t DocDict) :
  load_all_docs DocDict read_doc FIGS_DIR existing = Ok all_docs ->
  NoDup (dict_keys all_docs)
  /\ forall mp_id by_model,
       (mp_id, by_model) ∈ all_docs ->
       NoDup (dict_keys by_model)
       /\ by_model <> []
       /\ forall model d, (model, d) ∈ by_model -> material_id DocDict d = mp_id.
Proof.
  intros Hload. destruct (load_all_docs_wf _ _ _ Hload) as [Hkeys Hinner].
  assert (Hinv : records_inv all_docs).
  { by apply (load_docs_records_inv [] _ (glob_phonon_docs FIGS_DIR existing)); [constructor|]. }
  split; [done|]. intros mp_id by_model Hin.
  rewrite Forall_forall in Hinner. unfold records_inv in Hinv.
  rewrite Forall_forall in Hinv.
  specialize (Hinner _ Hin). destruct (Hinv _ Hin) as [Hne Hids]. cbn in *.
  split; [done|]. split; [done|].
  intros model d Hd. rewrite Forall_forall in Hids. by apply (Hids (model, d)).
Qed.

Lemma length_dict_set {V} k (v : V) d :
  length (dict_set k v d)
  = length d + match dict_get k d with Some _ => 0 | None => 1 end.
Proof.
  induction d as [|[k' v'] d IH]; cbn; [done|].
  destruct (String.eqb k k'); cbn; [lia|]. rewrite IH. lia.
Qed.

Lemma n_preds_dict_set k (v : list (string * doc DocDict)) (all_docs : all_docs_t DocDict) :
  n_preds (dict_set k v all_docs) + default 0 (length <$> dict_get k all_docs)
  = n_preds all_docs + length v.
Proof.
  induction all_docs as [|[k' v'] d IH]; simpl; [lia|].
  destruct (String.eqb k k'); simpl in *; lia.
Qed.

Lemma n_preds_all_docs_set mp_id model (d : doc DocDict) all_docs :
  n_preds (all_docs_set DocDict mp_id model d all_docs)
  = n_preds all_docs
    + match all_docs_get mp_id model all_docs with Some _ => 0 | None => 1 end.
Proof.
  unfold all_docs_set, all_docs_get.
  destruct (dict_get mp_id all_docs) as [by_model|] eqn:Hget.
  - pose proof (n_preds_dict_set mp_id (dict_set model d by_model) all_docs) as H.
    rewrite Hget, length_dict_set in H. cbn in H. lia.
  - pose proof (n_preds_dict_set mp_id [(model, d)] all_docs) as H.
    rewrite Hget in H. cbn in H. lia.
Qed.

Lemma load_docs_n_preds (all_docs all_docs' : all_docs_t DocDict) paths :
  load_docs DocDict read_doc all_docs paths = Ok all_docs' ->
  n_preds all_docs' <= n_preds all_docs + length paths.
Proof.
  revert all_docs. induction paths as [|p paths IH]; intros all_docs; cbn.
  - intros [= <-]. lia.
  - destruct (load_doc DocDict read_doc all_docs p) as [next|e] eqn:Hstep; [|done].
    intros Hrest%IH. unfold load_doc in Hstep.
    destruct (read_doc p) as [doc_dict|]; [|done].
    destruct (re_search key_pattern p) as [[|mp_id [|formula [|model [|]]]]|]; try done.
    destruct (String.prefix "mp-" mp_id); [|done].
    injection Hstep as <-. rewrite n_preds_all_docs_set in Hrest.
    destruct (all_docs_get _ _ _); lia.
Qed.

(** X9. The two numbers the script prints after loading are ordered: there
    are at most as many materials as predictions, and at most as many
    predictions as files the glob listed. *)
Theorem load_all_docs_counts FIGS_DIR existing (all_docs : all_docs_t DocDict) :
  load_all_docs DocDict read_doc FIGS_DIR existing = Ok all_docs ->
  length all_docs <= n_preds all_docs
  /\ n_preds all_docs <= length (glob_phonon_docs FIGS_DIR existing).
Proof.
  intros Hload. split.
  - assert (Hinv : records_inv all_docs).
    { by apply (load_docs_records_inv [] _ (glob_phonon_docs FIGS_DIR existing));
        [constructor|]. }
    clear Hload. unfold n_preds.
    induction Hinv as [|[k v] d [Hne _] _ IH]; simpl; [lia|].
    destruct v; [done|]. simpl in *. lia.
  - by apply load_docs_n_preds in Hload.
Qed.






End PhononMore.

(** The glob goes by the names of the files: an entry that is not named
    as a stored document, in whatever directory, is no input of the
    loading loop. *)
Example glob_phonon_docs_by_name :
  Phonon.glob_phonon_docs "figs"
    ["figs/garbage/result-x"; "figs/garbage/phonon-bs-dos-x.json.gz"]
  = ["figs/garbage/phonon-bs-dos-x.json.gz"].
Proof. by vm_compute. Qed.


Lemma load_doc_files_document_witness :
  Phonon.load_doc unit Phonon.read_any [] "figs/mp-1-NaCl/phonon-bs-dos-mp.json.gz"
    = Ok [("mp-1", [("mp", Phonon.Doc unit tt "NaCl" "mp-1")])]
  /\ exists mp_id formula model doc_dict,
       Phonon.re_search Phonon.key_pattern "figs/mp-1-NaCl/phonon-bs-dos-mp.json.gz"
         = Some [mp_id; formula; model]
       /\ Phonon.read_any "figs/mp-1-NaCl/phonon-bs-dos-mp.json.gz" = Ok doc_dict
       /\ Phonon.all_docs_get mp_id model
            [("mp-1", [("mp", Phonon.Doc unit tt "NaCl" "mp-1")])]
          = Some (Phonon.Doc unit doc_dict formula mp_id)
       /\ forall id' model',
            (id', model') <> (mp_id, model) ->
            Phonon.all_docs_get id' model'
              [("mp-1", [("mp", Phonon.Doc unit tt "NaCl" "mp-1")])]
            = Phonon.all_docs_get id' model' [].
Proof.
  assert (H : Phonon.load_doc unit Phonon.read_any []
                "figs/mp-1-NaCl/phonon-bs-dos-mp.json.gz"
              = Ok [("mp-1", [("mp", Phonon.Doc unit tt "NaCl" "mp-1")])])
    by (by vm_compute).
  split; [exact H|].
  exact (load_doc_files_document Phonon.read_any [] _ _ H).
Defined.

Lemma coverage_lists_disjoint_witness :
  exists all_docs,
    Phonon.load_all_docs unit Phonon.read_any "figs" Phonon.coverage_example = Ok all_docs
    /\ NoDup (Phonon.materials_with_2 unit all_docs)
    /\ NoDup (Phonon.materials_with_3 unit all_docs)
    /\ forall material,
         material ∈ Phonon.materials_with_2 unit all_docs ->
         material ∉ Phonon.materials_with_3 unit all_docs.
Proof.
  eexists. split; [by vm_compute|].
  apply (coverage_lists_disjoint Phonon.read_any "figs" Phonon.coverage_example).
  by vm_compute.
Defined.

Lemma load_all_docs_groups_by_material_witness :
  exists all_docs,
    Phonon.load_all_docs unit Phonon.read_any "figs" Phonon.coverage_example = Ok all_docs
    /\ NoDup (Phonon.dict_keys all_docs)
    /\ forall mp_id by_model,
         (mp_id, by_model) ∈ all_docs ->
         NoDup (Phonon.dict_keys by_model)
         /\ by_model <> []
         /\ forall model d, (model, d) ∈ by_model -> Phonon.material_id unit d = mp_id.
Proof.
  eexists. split; [by vm_compute|].
  apply (load_all_docs_groups_by_material Phonon.read_any "figs" Phonon.coverage_example).
  by vm_compute.
Defined.

Lemma load_all_docs_counts_witness :
  exists all_docs,
    Phonon.load_all_docs unit Phonon.read_any "figs" Phonon.coverage_example = Ok all_docs
    /\ length all_docs <= Phonon.n_preds all_docs
    /\ Phonon.n_preds all_docs
       <= length (Phonon.glob_phonon_docs "figs" Phonon.coverage_example).
Proof.
  eexists. split; [by vm_compute|].
  apply (load_all_docs_counts Phonon.read_any "figs" Phonon.coverage_example).
  by vm_compute.
Defined.

(** ** The path of a stored document and the key pattern *)

Section KeyPattern.
Import Phonon.
Import Mp (has_char).

Local Arguments String.append : simpl nomatch.

Lemma string_app_assoc a b c : (a +:+ b) +:+ c = a +:+ (b +:+ c).
Proof. induction a as [|x a IH]; simpl; [done|]. by f_equal. Qed.

Lemma string_app_nil_r a : a +:+ "" = a.
Proof. induction a as [|x a IH]; simpl; [done|]. by f_equal. Qed.

Lemma has_char_app c a b : has_char c (a +:+ b) = has_char c a || has_char c b.
Proof.
  induction a as [|x a IH]; simpl; [done|]. by rewrite IH, orb_assoc.
Qed.

Lemma has_char_remove_spaces c s :
  has_char c s = false -> has_char c (remove_spaces s) = false.
Proof.
  induction s as [|x s IH]; simpl; [done|].
  intros [Hx Hs]%orb_false_iff. destruct (Ascii.eqb x " "); simpl; [auto|].
  by rewrite Hx, IH.
Qed.

Lemma has_char_cons_false c x s :
  has_char c (String x s) = false -> Ascii.eqb c x = false /\ has_char c s = false.
Proof. intros H. by apply orb_false_iff. Qed.

(** Where a separator can stand in a string cut at its first occurrence. *)
Lemma split_first c W Y u t :
  has_char c W = false ->
  u +:+ String c t = W +:+ String c Y ->
  (u = W /\ t = Y) \/ exists u', Y = u' +:+ String c t.
Proof.
  revert u. induction W as [|w W IH]; intros [|x u]; simpl; intros Hc Heq.
  - injection Heq as ->. by left.
  - injection Heq as -> <-. right. by exists u.
  - injection Heq as <- _. by rewrite Ascii.eqb_refl in Hc.
  - apply orb_false_iff in Hc as [_ Hc]. injection Heq as -> Heq.
    destruct (IH _ Hc Heq) as [[-> ->]|?]; auto.
Qed.

Lemma split_after x y f Y u t :
  has_char x f = false -> x <> y ->
  u +:+ String x t = f +:+ String y Y ->
  exists u', Y = u' +:+ String x t.
Proof.
  revert u. induction f as [|w f IH]; intros [|c u]; simpl; intros Hx Hne Heq.
  - by injection Heq as -> _.
  - injection Heq as -> <-. by exists u.
  - injection Heq as <- _. by rewrite Ascii.eqb_refl in Hx.
  - apply orb_false_iff in Hx as [_ Hx]. injection Heq as -> Heq. by eapply IH.
Qed.

Lemma capture_as_run c og : capture c og = capture_run (String c "") og.
Proof. by destruct og. Qed.

Lemma capture_run_cons c a og :
  capture_run (String c a) og = capture_run a (capture c og).
Proof.
  destruct og as [g|]; [|done]. unfold capture_run, capture.
  by rewrite string_app_assoc.
Qed.

Lemma capture_run_nil og : capture_run "" og = og.
Proof.
  destruct og as [g|]; [|done]. unfold capture_run. by rewrite string_app_nil_r.
Qed.

(** The two equations of the greedy star. *)
Lemma match_star_nil p og cl :
  match_here (DotStar :: p) "" og cl = match_here p "" og cl.
Proof. reflexivity. Qed.

Lemma match_star_cons p c s og cl :
  match_here (DotStar :: p) (String c s) og cl =
    if is_newline c then match_here p (String c s) og cl
    else match match_here (DotStar :: p) s (capture c og) cl with
         | Some groups => Some groups
         | None => match_here p (String c s) og cl
         end.
Proof. reflexivity. Qed.

(** A star that can stop after the run [a] with success takes at least
    this run. *)
Lemma star_take p a b og cl r :
  has_char "010" a = false ->
  match_here (DotStar :: p) b (capture_run a og) cl = Some r ->
  match_here (DotStar :: p) (a +:+ b) og cl = Some r.
Proof.
  revert og. induction a as [|c a IH]; intros og Hnl Hb.
  - by rewrite capture_run_nil in Hb.
  - apply has_char_cons_false in Hnl as [Hc Hnl].
    change (String c a +:+ b) with (String c (a +:+ b)).
    rewrite match_star_cons. unfold is_newline. rewrite Ascii.eqb_sym, Hc.
    rewrite (IH (capture c og)); [done|done|]. by rewrite <- capture_run_cons.
Qed.

(** A star takes nothing when the rest of the pattern fails after every
    run it could take. *)
Lemma star_stop p b og cl :
  (forall b1 b2, b = b1 +:+ b2 -> b1 <> "" ->
                 match_here p b2 (capture_run b1 og) cl = None) ->
  match_here (DotStar :: p) b og cl = match_here p b og cl.
Proof.
  revert og. induction b as [|c b IH]; intros og Hfail; [done|].
  rewrite match_star_cons. destruct (is_newline c); [done|].
  rewrite IH.
  - rewrite capture_as_run. by rewrite (Hfail (String c "") b).
  - intros b1 b2 -> Hne. rewrite <- capture_run_cons.
    by apply (Hfail (String c b1) b2).
Qed.

Lemma match_lits t q s og cl :
  match_here (lits t ++ q) (t +:+ s) og cl = match_here q s (capture_run t og) cl.
Proof.
  revert og. induction t as [|c t IH]; intros og.
  - by rewrite capture_run_nil.
  - unfold lits. simpl. rewrite Ascii.eqb_refl. fold (lits t).
    by rewrite IH, <- capture_run_cons.
Qed.

Lemma match_lit_absent c q s og cl :
  has_char c s = false -> match_here (Lit c :: q) s og cl = None.
Proof.
  destruct s as [|x s]; [done|]. intros [Hx _]%has_char_cons_false.
  cbn [match_here]. by rewrite Hx.
Qed.

Lemma match_group_open p s og cl :
  match_here (GroupOpen :: p) s og cl = match_here p s (Some "") cl.
Proof. reflexivity. Qed.

Lemma match_group_close p s og cl :
  match_here (GroupClose :: p) s og cl = match_here p s None (close_group og cl).
Proof. reflexivity. Qed.

Lemma match_lit_same c p s og cl :
  match_here (Lit c :: p) (String c s) og cl = match_here p s (capture c og) cl.
Proof. cbn [match_here]. by rewrite Ascii.eqb_refl. Qed.

Lemma match_lit_other c p x s og cl :
  Ascii.eqb c x = false -> match_here (Lit c :: p) (String x s) og cl = None.
Proof. intros H. cbn [match_here]. by rewrite H. Qed.

Lemma has_char_file_name tag :
  has_char "/" tag = false ->
  has_char "/" ("phonon-bs-dos-" +:+ tag +:+ ".json.gz") = false.
Proof. intros H. rewrite !has_char_app, H. reflexivity. Qed.

Lemma string_cons_app x a b : String x a +:+ b = String x (a +:+ b).
Proof. reflexivity. Qed.

Lemma re_search_here p s groups :
  match_here p s None [] = Some groups -> re_search p s = Some groups.
Proof. intros H. destruct s; cbn [re_search]; by rewrite H. Qed.

Lemma key_pattern_cut : key_pattern = DotStar :: after_prefix.
Proof. reflexivity. Qed.

(** Case analysis on the ways to cut a literal string in two. *)
Ltac cut_literal H b1 :=
  repeat (destruct b1 as [|? b1];
          [ simpl in H; subst; try done; try reflexivity
          | simpl in H; try discriminate H; injection H as ? H; subst ]).

(** Group 3: the tag is everything up to the last [.json.gz]. *)
Lemma match_tag tag cl :
  has_char "010" tag = false ->
  match_here (DotStar :: after_tag) (tag +:+ ".json.gz") (Some "") cl
  = Some (cl ++ [tag]).
Proof.
  intros Hnl. apply star_take; [done|]. rewrite star_stop; [reflexivity|].
  intros b1 b2 Heq Hne. cut_literal Heq b1.
Qed.

Lemma match_close_lit_absent c q s og cl :
  has_char c s = false -> match_here (GroupClose :: Lit c :: q) s og cl = None.
Proof. intros H. rewrite match_group_close. by apply match_lit_absent. Qed.

(** Group 2: the formula is everything up to the slash before the file
    name. *)
Lemma match_formula f tag cl :
  has_char "010" f = false -> has_char "010" tag = false ->
  has_char "/" tag = false ->
  match_here (DotStar :: after_formula)
             (f +:+ "/phonon-bs-dos-" +:+ tag +:+ ".json.gz") (Some "") cl
  = Some (cl ++ [f; tag]).
Proof.
  intros Hf Htag Hslash. apply star_take; [done|]. rewrite star_stop.
  - change (capture_run f (Some "")) with (Some f).
    unfold after_formula. cbn [app]. rewrite match_group_close.
    rewrite (match_lits "/phonon-bs-dos-"), match_group_open.
    rewrite match_tag by done. cbn [close_group]. by rewrite <- app_assoc.
  - intros b1 b2 Heq Hne. destruct b1 as [|x b1]; [done|].
    change ("/phonon-bs-dos-" +:+ tag +:+ ".json.gz")
      with (String "/" ("phonon-bs-dos-" +:+ tag +:+ ".json.gz")) in Heq.
    rewrite string_cons_app in Heq. injection Heq as <- Heq.
    apply match_close_lit_absent.
    assert (H : has_char "/" (b1 +:+ b2) = false)
      by (rewrite <- Heq; exact (has_char_file_name tag Hslash)).
    rewrite has_char_app in H. by apply orb_false_iff in H as [_ ?].
Qed.

(** A star followed by a slash fails on a string without a slash. *)
Lemma match_star_no_slash q s og cl :
  has_char "/" s = false ->
  match_here (DotStar :: GroupClose :: Lit "/"%char :: q) s og cl = None.
Proof.
  revert og. induction s as [|c s IH]; intros og Hs.
  - reflexivity.
  - rewrite match_star_cons. apply has_char_cons_false in Hs as [Hc Hs].
    rewrite (IH _ Hs). rewrite match_close_lit_absent.
    + by destruct (is_newline c).
    + change (has_char "/" (String c s)) with (Ascii.eqb "/" c || has_char "/" s).
      by rewrite Hc, Hs.
Qed.

(** Group 1: the identifier is everything up to the last dash of the
    directory name, given that the formula has no dash. *)
Lemma match_id R f tag cl :
  has_char "010" R = false -> has_char "010" f = false -> has_char "010" tag = false ->
  has_char "-" f = false -> has_char "/" tag = false ->
  match_here (DotStar :: after_id)
             (R +:+ "-" +:+ f +:+ "/phonon-bs-dos-" +:+ tag +:+ ".json.gz") (Some "mp-") cl
  = Some (cl ++ ["mp-" +:+ R; f; tag]).
Proof.
  intros HR Hf Htag Hdash Hslash. apply star_take; [done|]. rewrite star_stop.
  - change (capture_run R (Some "mp-")) with (Some ("mp-" +:+ R)).
    unfold after_id. cbn [app].
    change ("-" +:+ f +:+ "/phonon-bs-dos-" +:+ tag +:+ ".json.gz")
      with (String "-" (f +:+ "/phonon-bs-dos-" +:+ tag +:+ ".json.gz")).
    rewrite match_group_close, match_lit_same, match_group_open.
    rewrite match_formula by done. cbn [close_group]. by rewrite <- app_assoc.
  - intros b1 b2 Heq Hne. destruct b1 as [|x b1]; [done|].
    change ("-" +:+ f +:+ "/phonon-bs-dos-" +:+ tag +:+ ".json.gz")
      with (String "-" (f +:+ "/phonon-bs-dos-" +:+ tag +:+ ".json.gz")) in Heq.
    rewrite string_cons_app in Heq. injection Heq as <- Heq.
    unfold after_id. cbn [app]. rewrite match_group_close.
    destruct b2 as [|c t]; [done|].
    destruct (Ascii.eqb "-" c) eqn:Hc; [|by apply match_lit_other].
    apply Ascii.eqb_eq in Hc as <-. rewrite match_lit_same, match_group_open.
    unfold after_formula. cbn [app lits map list_ascii_of_string].
    apply match_star_no_slash.
    change (f +:+ "/phonon-bs-dos-" +:+ tag +:+ ".json.gz")
      with (f +:+ String "/" ("phonon-bs-dos-" +:+ tag +:+ ".json.gz")) in Heq.
    symmetry in Heq.
    destruct (split_after "-" "/" f _ b1 t Hdash ltac:(done) Heq) as [u' Hu].
    assert (H : has_char "/" (u' +:+ String "-" t) = false)
      by (rewrite <- Hu; exact (has_char_file_name tag Hslash)).
    rewrite has_char_app in H. apply orb_false_iff in H as [_ H].
    by apply has_char_cons_false in H as [_ ?].
Qed.

(** The whole pattern on the path of a stored document. *)
Lemma key_pattern_on_doc_path FIGS_DIR R f tag :
  has_char "010" FIGS_DIR = false ->
  has_char "010" R = false -> has_char "010" f = false -> has_char "010" tag = false ->
  has_char "/" R = false -> has_char "/" f = false -> has_char "/" tag = false ->
  has_char "-" f = false ->
  re_search key_pattern
    (FIGS_DIR +:+ "/" +:+ ("mp-" +:+ R) +:+ "-" +:+ f
       +:+ "/phonon-bs-dos-" +:+ tag +:+ ".json.gz")
  = Some ["mp-" +:+ R; f; tag].
Proof.
  intros HF HR Hf Htag HsR Hsf Hstag Hdash.
  assert (Hmatch :
    match_here key_pattern
      (FIGS_DIR +:+ "/" +:+ ("mp-" +:+ R) +:+ "-" +:+ f
         +:+ "/phonon-bs-dos-" +:+ tag +:+ ".json.gz") None []
    = Some ["mp-" +:+ R; f; tag]).
  { rewrite key_pattern_cut. apply star_take; [done|]. rewrite star_stop.
    - rewrite string_app_assoc.
      change ("/" +:+ "mp-" +:+ R +:+ "-" +:+ f +:+ "/phonon-bs-dos-" +:+ tag +:+ ".json.gz")
        with (String "/" ("mp-" +:+ (R +:+ "-" +:+ f +:+ "/phonon-bs-dos-" +:+ tag
                                        +:+ ".json.gz"))).
      unfold after_prefix. cbn [app].
      rewrite match_lit_same, match_group_open, (match_lits "mp-"). cbn [app].
      change (capture_run "mp-" (Some "")) with (Some "mp-").
      by rewrite match_id.
    - intros b1 b2 Heq Hne. destruct b1 as [|x b1]; [done|].
      change ("/" +:+ ("mp-" +:+ R) +:+ "-" +:+ f +:+ "/phonon-bs-dos-" +:+ tag +:+ ".json.gz")
        with (String "/" (("mp-" +:+ R) +:+ "-" +:+ f +:+ "/phonon-bs-dos-" +:+ tag
                             +:+ ".json.gz")) in Heq.
      rewrite string_cons_app in Heq. injection Heq as <- Heq.
      unfold after_prefix. cbn [app].
      destruct b2 as [|c t]; [done|].
      destruct (Ascii.eqb "/" c) eqn:Hc; [|by apply match_lit_other].
      apply Ascii.eqb_eq in Hc as <-. rewrite match_lit_same, match_group_open.
      cbn [lits map list_ascii_of_string app].
      assert (Hcut : b1 +:+ String "/" t
                     = ("mp-" +:+ R +:+ "-" +:+ f)
                         +:+ String "/" ("phonon-bs-dos-" +:+ tag +:+ ".json.gz")).
      { rewrite <- Heq, !string_app_assoc. reflexivity. }
      clear Heq. apply split_first in Hcut as [[_ ->]|[u' Hu]].
      + by apply match_lit_other.
      + assert (H : has_char "/" (u' +:+ String "/" t) = false)
          by (rewrite <- Hu; exact (has_char_file_name tag Hstag)).
        rewrite has_char_app in H. apply orb_false_iff in H as [_ H].
        apply has_char_cons_false in H as [H _]. by rewrite Ascii.eqb_refl in H.
      + rewrite !has_char_app, HsR, Hsf. reflexivity. }
  by apply re_search_here.
Qed.

Lemma strip_prefix_app p s : strip_prefix p (p +:+ s) = Some s.
Proof.
  induction p as [|c p IH]; [by destruct s|].
  rewrite string_cons_app. cbn [strip_prefix]. by rewrite Ascii.eqb_refl.
Qed.

Lemma split_on_absent sep s : has_char sep s = false -> split_on sep s = [s].
Proof.
  induction s as [|c s IH]; [done|]. intros [Hc Hs]%has_char_cons_false.
  cbn [split_on]. rewrite Ascii.eqb_sym, Hc. by rewrite IH.
Qed.

Lemma split_on_app sep a b :
  has_char sep a = false -> split_on sep (a +:+ String sep b) = a :: split_on sep b.
Proof.
  induction a as [|c a IH].
  - intros _. change ("" +:+ String sep b) with (String sep b).
    cbn [split_on]. by rewrite Ascii.eqb_refl.
  - intros [Hc Ha]%has_char_cons_false. rewrite string_cons_app.
    cbn [split_on]. rewrite Ascii.eqb_sym, Hc. by rewrite IH.
Qed.

Lemma prefix_app a b : String.prefix a (a +:+ b) = true.
Proof.
  induction a as [|c a IH]; [by destruct b|].
  rewrite string_cons_app. cbn [String.prefix]. by destruct (ascii_dec c c).
Qed.

Lemma prefix_mp s : String.prefix "mp-" s = true -> exists R, s = "mp-" +:+ R.
Proof.
  destruct s as [|a [|b [|c R]]]; try done; cbn [String.prefix];
    repeat (destruct (ascii_dec _ _); [|done]); try done.
  intros _. subst. by exists R.
Qed.

Lemma length_string_app a b : String.length (a +:+ b) = String.length a + String.length b.
Proof. induction a as [|c a IH]; [done|]. rewrite string_cons_app. cbn. by rewrite IH. Qed.

Lemma substring_all b : String.substring 0 (String.length b) b = b.
Proof. induction b as [|c b IH]; [done|]. cbn. by rewrite IH. Qed.

Lemma substring_tail a b :
  String.substring (String.length a) (String.length b) (a +:+ b) = b.
Proof.
  induction a as [|c a IH]; [apply substring_all|].
  rewrite string_cons_app. cbn [String.length String.substring]. apply IH.
Qed.

Lemma ends_with_app a b : ends_with b (a +:+ b) = true.
Proof.
  unfold ends_with. rewrite length_string_app.
  replace (String.length a + String.length b - String.length b)
    with (String.length a) by lia.
  rewrite substring_tail, String.eqb_refl, andb_true_r.
  apply Nat.leb_le. lia.
Qed.

Context {DocDict : Type}.
Variable read_doc : string -> result DocDict.

(** X10. A document that the script stores is read back under its own
    key: for a figures directory that is a plain name (no star, question
    mark or opening bracket, no slash at its end), an identifier that
    starts with [mp-], a formula without dash and a tag, all free of
    slashes and line breaks, the path the script builds is listed by the
    glob, the key pattern returns the identifier, the formula without
    spaces and the tag, and the loop turn files the decoded document under
    them. *)
Theorem doc_path_round_trip FIGS_DIR mp_id formula tag existing :
  String.prefix "mp-" mp_id = true ->
  has_char "*" FIGS_DIR = false -> has_char "?" FIGS_DIR = false ->
  has_char "[" FIGS_DIR = false -> ends_with "/" FIGS_DIR = false ->
  has_char "010" FIGS_DIR = false ->
  has_char "010" mp_id = false -> has_char "/" mp_id = false ->
  has_char "010" formula = false -> has_char "/" formula = false ->
  has_char "-" formula = false ->
  has_char "010" tag = false -> has_char "/" tag = false ->
  let path := doc_path FIGS_DIR mp_id formula tag in
  (path ∈ existing -> path ∈ glob_phonon_docs FIGS_DIR existing)
  /\ re_search key_pattern path = Some [mp_id; remove_spaces formula; tag]
  /\ forall all_docs doc_dict,
       read_doc path = Ok doc_dict ->
       load_doc DocDict read_doc all_docs path
       = Ok (all_docs_set DocDict mp_id tag
               (Doc DocDict doc_dict (remove_spaces formula) mp_id) all_docs).
Proof.
  intros Hmp _ _ _ _ HF Hid Hsid Hf Hsf Hdash Htag Hstag path.
  apply (has_char_remove_spaces "010") in Hf.
  apply (has_char_remove_spaces "/") in Hsf.
  apply (has_char_remove_spaces "-") in Hdash.
  set (f := remove_spaces formula) in *.
  destruct (prefix_mp _ Hmp) as [R ->].
  assert (HR : has_char "010" R = false).
  { rewrite has_char_app in Hid. by apply orb_false_iff in Hid as [_ ?]. }
  assert (HsR : has_char "/" R = false).
  { rewrite has_char_app in Hsid. by apply orb_false_iff in Hsid as [_ ?]. }
  assert (Hpath : path = FIGS_DIR +:+ "/" +:+ ("mp-" +:+ R) +:+ "-" +:+ f
                           +:+ "/phonon-bs-dos-" +:+ tag +:+ ".json.gz").
  { unfold path, doc_path, out_dir. fold f. by rewrite !string_app_assoc. }
  assert (Hre : re_search key_pattern path = Some ["mp-" +:+ R; f; tag]).
  { rewrite Hpath. by apply key_pattern_on_doc_path. }
  split; [|split; [done|]].
  - intros Hin. unfold glob_phonon_docs.
    apply list_elem_of_In, filter_In. split; [by apply list_elem_of_In|].
    assert (path = (FIGS_DIR +:+ "/")
                     +:+ (("mp-" +:+ R) +:+ "-" +:+ f)
                     +:+ String "/" ("phonon-bs-dos-" +:+ tag +:+ ".json.gz")) as ->.
    { rewrite Hpath, !string_app_assoc. reflexivity. }
    rewrite strip_prefix_app, split_on_app.
    2: { rewrite !has_char_app, HsR, Hsf. reflexivity. }
    rewrite split_on_absent by (by apply has_char_file_name).
    apply andb_true_intro. split; [reflexivity|].
    unfold matches_doc_name. rewrite prefix_app.
    replace ("phonon-bs-dos-" +:+ tag +:+ ".json.gz")
      with (("phonon-bs-dos-" +:+ tag) +:+ ".json.gz") by apply string_app_assoc.
    rewrite ends_with_app, !length_string_app. cbn [andb].
    apply Nat.leb_le. cbn. lia.
  - intros all_docs doc_dict Hread. unfold load_doc.
    rewrite Hread, Hre. fold f. by rewrite prefix_app.
Qed.

End KeyPattern.

Lemma doc_path_round_trip_witness :
  String.prefix "mp-" "mp-22862" = true
  /\ Mp.has_char "*" "figs" = false /\ Mp.has_char "?" "figs" = false
  /\ Mp.has_char "[" "figs" = false /\ Phonon.ends_with "/" "figs" = false
  /\ Mp.has_char "010" "figs" = false
  /\ Mp.has_char "010" "mp-22862" = false /\ Mp.has_char "/" "mp-22862" = false
  /\ Mp.has_char "010" "Na1 Cl1" = false /\ Mp.has_char "/" "Na1 Cl1" = false
  /\ Mp.has_char "-" "Na1 Cl1" = false
  /\ Mp.has_char "010" "chgnet" = false /\ Mp.has_char "/" "chgnet" = false
  /\ let path := Phonon.doc_path "figs" "mp-22862" "Na1 Cl1" "chgnet" in
     (path ∈ [path] -> path ∈ Phonon.glob_phonon_docs "figs" [path])
     /\ Phonon.re_search Phonon.key_pattern path = Some ["mp-22862"; "Na1Cl1"; "chgnet"]
     /\ forall all_docs doc_dict,
          Phonon.read_any path = Ok doc_dict ->
          Phonon.load_doc unit Phonon.read_any all_docs path
          = Ok (Phonon.all_docs_set unit "mp-22862" "chgnet"
                  (Phonon.Doc unit doc_dict "Na1Cl1" "mp-22862") all_docs).
Proof.
  repeat (split; [reflexivity|]).
  exact (doc_path_round_trip Phonon.read_any "figs" "mp-22862" "Na1 Cl1" "chgnet" _
           eq_refl eq_refl eq_refl eq_refl eq_refl eq_refl eq_refl eq_refl eq_refl
           eq_refl eq_refl eq_refl eq_refl).
Defined.

(** ** More on the export *)

Section ExportMore.
Import MetricsTable.

(** X11. The export of identifiers of which one has no row in the
    reference frame raises [KeyError]; nothing is sorted or written. *)
Theorem export_mp_ids_missing_row (df_pbe : frame) idx_n_avail :
  Exists (fun label => Phonon.dict_get label df_pbe = None) idx_n_avail ->
  export_mp_ids df_pbe idx_n_avail = Raise (ExternalError "KeyError").
Proof.
  intros Hex. unfold export_mp_ids.
  assert (loc df_pbe idx_n_avail = Raise (ExternalError "KeyError")) as ->; [|done].
  induction idx_n_avail as [|label labels IH].
  - by apply Exists_nil in Hex.
  - cbn [loc]. destruct (Phonon.dict_get label df_pbe) as [row|] eqn:Hrow; [|done].
    apply Exists_cons in Hex as [Hhere|Hlater]; [congruence|].
    by rewrite IH.
Qed.

Lemma literal_error digits sign e :
  literal digits sign = Raise e -> exists msg, e = ValueError msg.
Proof.
  unfold literal. destruct (parse_digits digits 0 false); [|intros [= <-]; by eexists].
  destruct (int_max_str_digits <? digit_count digits)%nat; [|done].
  intros [= <-]. by eexists.
Qed.

(** The two ways in which a label has no key: the text after its first
    dash is no integer, or the integer does not fit. *)
Lemma sort_key_error label e :
  sort_key label = Raise e ->
  (exists msg, e = ValueError msg) \/ e = ExternalError "OverflowError".
Proof.
  unfold sort_key.
  destruct (Phonon.split_on "-" label) as [|? [|suffix ?]];
    [intros [= <-]; left; by eexists..|].
  destruct (py_int suffix) as [n|e'] eqn:Hint.
  - unfold astype_int. destruct (_ && _); [done|]. intros [= <-]. by right.
  - intros [= <-]. left. unfold py_int in Hint.
    repeat case_match; by eapply literal_error.
Qed.

Lemma with_keys_first_error {A} (good : list (string * A)) bad rest e :
  Forall (fun row => is_ok (sort_key (fst row)) = true) good ->
  sort_key (fst bad) = Raise e ->
  with_keys (good ++ bad :: rest) = Raise e.
Proof.
  intros Hgood Hbad. induction Hgood as [|[label a] good Hk _ IH]; cbn [app with_keys].
  - destruct bad as [label a]. cbn in Hbad. by rewrite Hbad.
  - cbn in Hk. destruct (sort_key label); [|done]. by rewrite IH.
Qed.

Lemma loc_as_map (df : frame) labels :
  Forall (fun label => is_Some (Phonon.dict_get label df)) labels ->
  loc df labels = Ok (map (fun label => (label, row_or_blank df label)) labels).
Proof.
  induction 1 as [|label labels [row Hrow] _ IH]; cbn [loc map]; [done|].
  unfold row_or_blank at 1. by rewrite Hrow, IH.
Qed.

(** X12. When every selected identifier has a reference row, the export
    raises what the conversion of the first identifier without a key
    raises, here an identifier of ASCII characters: [ValueError] when the
    text after its first dash is no integer, [OverflowError] when the
    integer does not fit into 64 bits.  The identifiers after it are not
    looked at. *)
Theorem export_mp_ids_bad_identifier (df_pbe : frame) good bad rest e :
  Forall (fun label => is_Some (Phonon.dict_get label df_pbe)) (good ++ bad :: rest) ->
  Forall (fun label => is_ok (sort_key label) = true) good ->
  ascii_only bad = true ->
  sort_key bad = Raise e ->
  export_mp_ids df_pbe (good ++ bad :: rest) = Raise e
  /\ ((exists msg, e = ValueError msg) \/ e = ExternalError "OverflowError").
Proof.
  intros Hrows Hgood _ Hbad. split; [|by apply (sort_key_error bad)].
  unfold export_mp_ids, sort_index.
  rewrite (loc_as_map _ _ Hrows). unfold select.
  rewrite !map_app. cbn [map].
  rewrite (with_keys_first_error _ _ _ e); [done| |done].
  rewrite !Forall_fmap. eapply Forall_impl; [exact Hgood|]. done.
Qed.

Lemma with_keys_as_map {A} (rows : list (string * A)) :
  Forall (fun row => is_ok (sort_key (fst row)) = true) rows ->
  with_keys rows = Ok (map (fun row => (key_or_zero (fst row), row)) rows).
Proof.
  induction 1 as [|[label a] rows Hk _ IH]; cbn [with_keys map]; [done|].
  cbn in Hk. unfold key_or_zero at 1. cbn [fst].
  destruct (sort_key label); [|done]. by rewrite IH.
Qed.

(** The export as one expression, when nothing raises. *)
Lemma export_mp_ids_as_sort (df_pbe : frame) idx_n_avail :
  Forall (fun label => is_Some (Phonon.dict_get label df_pbe)) idx_n_avail ->
  Forall (fun label => is_ok (sort_key label) = true) idx_n_avail ->
  export_mp_ids df_pbe idx_n_avail =
    Ok (CsvTable export_columns
          (map snd
             (foldr insert_by_key []
                (map (fun label =>
                        (key_or_zero label,
                         (label, map (row_or_blank df_pbe label) export_columns)))
                     idx_n_avail)))).
Proof.
  intros Hrows Hkeys. unfold export_mp_ids, sort_index, select.
  rewrite (loc_as_map _ _ Hrows), map_map, with_keys_as_map.
  - by rewrite map_map.
  - apply Forall_fmap. eapply Forall_impl; [exact Hkeys|]. done.
Qed.

Lemma loc_ok_present (df : frame) labels selected :
  loc df labels = Ok selected ->
  Forall (fun label => is_Some (Phonon.dict_get label df)) labels.
Proof.
  revert selected. induction labels as [|label labels IH]; intros selected Hok.
  - constructor.
  - cbn [loc] in Hok. destruct (Phonon.dict_get label df) as [row|] eqn:Hrow; [|done].
    destruct (loc df labels) as [rest|]; [|done].
    constructor; [by eexists | by eapply IH].
Qed.

Lemma with_keys_ok_keys {A} (rows : list (string * A)) keyed :
  with_keys rows = Ok keyed ->
  Forall (fun row => is_ok (sort_key (fst row)) = true) rows.
Proof.
  revert keyed. induction rows as [|[label a] rows IH]; intros keyed Hok.
  - constructor.
  - cbn [with_keys] in Hok. destruct (sort_key label) as [k|] eqn:Hk; [|done].
    destruct (with_keys rows) as [rest|]; [|done].
    constructor; [cbn; by rewrite Hk | by eapply IH].
Qed.

Lemma export_mp_ids_ok_inv (df_pbe : frame) idx_n_avail table :
  export_mp_ids df_pbe idx_n_avail = Ok table ->
  Forall (fun label => is_Some (Phonon.dict_get label df_pbe)) idx_n_avail
  /\ Forall (fun label => is_ok (sort_key label) = true) idx_n_avail.
Proof.
  unfold export_mp_ids, sort_index. intros Hok.
  destruct (loc df_pbe idx_n_avail) as [selected|] eqn:Hloc; [|done].
  pose proof (loc_ok_present _ _ _ Hloc) as Hrows. split; [done|].
  rewrite (loc_as_map _ _ Hrows) in Hloc. injection Hloc as <-.
  destruct (with_keys _) as [keyed|] eqn:Hkeys in Hok; [|done].
  apply with_keys_ok_keys in Hkeys. unfold select in Hkeys.
  rewrite !Forall_fmap in Hkeys.
  eapply Forall_impl; [exact Hkeys|]. done.
Qed.

(** Two sorted lists with the same elements and no two elements of one
    key are the same list. *)
Lemma sorted_perm_eq {A} (l1 l2 : list (Z * A)) :
  StronglySorted key_le l1 -> StronglySorted key_le l2 -> l1 ≡ₚ l2 ->
  (forall x y, x ∈ l1 -> y ∈ l1 -> fst x = fst y -> x = y) ->
  l1 = l2.
Proof.
  revert l2. induction l1 as [|x l1 IH]; intros l2 Hs1 Hs2 Hperm Hkeys.
  - by apply Permutation_nil_l in Hperm.
  - destruct l2 as [|y l2]; [by apply Permutation_nil_r in Hperm|].
    apply StronglySorted_inv in Hs1 as [Hs1 Hx].
    apply StronglySorted_inv in Hs2 as [Hs2 Hy].
    assert (x = y) as <-.
    { assert (Hxin : x ∈ y :: l2) by (rewrite <- Hperm; left).
      assert (Hyin : y ∈ x :: l1) by (rewrite Hperm; left).
      apply elem_of_cons in Hxin as [Hxy|Hxin]; [done|].
      pose proof Hyin as Hyin'.
      apply elem_of_cons in Hyin as [Hyx|Hyin]; [done|].
      rewrite Forall_forall in Hx, Hy.
      pose proof (Hx _ Hyin) as Hle1. pose proof (Hy _ Hxin) as Hle2.
      unfold key_le in Hle1, Hle2.
      apply Hkeys; [left | done | lia]. }
    f_equal. apply IH; [done | done | by eapply Permutation_cons_inv |].
    intros a b Ha Hb. apply Hkeys; by right.
Qed.

Lemma NoDup_fmap_eq {A B} (f : A -> B) (l : list A) x y :
  NoDup (f <$> l) -> x ∈ l -> y ∈ l -> f x = f y -> x = y.
Proof.
  induction l as [|a l IH]; intros Hnd Hx Hy Hf; [by apply elem_of_nil in Hx|].
  cbn in Hnd. apply NoDup_cons in Hnd as [Hnotin Hnd].
  apply elem_of_cons in Hx as [->|Hx]; apply elem_of_cons in Hy as [->|Hy].
  - done.
  - exfalso. apply Hnotin. rewrite Hf. by apply list_elem_of_fmap_2.
  - exfalso. apply Hnotin. rewrite <- Hf. by apply list_elem_of_fmap_2.
  - by apply IH.
Qed.

(** X13. The exported table does not depend on the order in which the
    selected identifiers arrive, as long as no two of them have the same
    number: a reordered selection gives the same table. *)
Theorem export_mp_ids_order_independent (df_pbe : frame) idx1 idx2 table :
  idx1 ≡ₚ idx2 ->
  NoDup (sort_key <$> idx1) ->
  export_mp_ids df_pbe idx1 = Ok table ->
  export_mp_ids df_pbe idx2 = Ok table.
Proof.
  intros Hperm Hnd Hok.
  destruct (export_mp_ids_ok_inv _ _ _ Hok) as [Hrows Hkeys].
  rewrite (export_mp_ids_as_sort _ _ Hrows Hkeys) in Hok. injection Hok as <-.
  rewrite export_mp_ids_as_sort by (by rewrite <- Hperm).
  do 3 f_equal. symmetry. apply sorted_perm_eq.
  - apply insertion_sort_sorted.
  - apply insertion_sort_sorted.
  - by rewrite !insertion_sort_perm, Hperm.
  - intros x y. rewrite !insertion_sort_perm.
    intros (a & -> & Ha)%list_elem_of_fmap (b & -> & Hb)%list_elem_of_fmap.
    cbn [fst]. intros Hab.
    rewrite Forall_forall in Hkeys.
    pose proof (Hkeys _ Ha) as Hka. pose proof (Hkeys _ Hb) as Hkb.
    unfold key_or_zero in Hab.
    rewrite (NoDup_fmap_eq sort_key idx1 a b Hnd Ha Hb); [done|].
    destruct (sort_key a), (sort_key b); try done. by rewrite Hab.
Qed.

End ExportMore.

Lemma export_mp_ids_missing_row_witness :
  MetricsTable.export_mp_ids MetricsTable.export_example ["mp-9"; "mp-7"] = Raise (ExternalError "KeyError").
Proof.
  apply export_mp_ids_missing_row.
  apply Exists_cons_tl, Exists_cons_hd. reflexivity.
Defined.

Lemma export_mp_ids_bad_identifier_witness :
  MetricsTable.export_mp_ids MetricsTable.bad_ids_example
    (["mp-9"] ++ "mp-99999999999999999999" :: ["mp9"])
  = Raise (ExternalError "OverflowError")
  /\ ((exists msg, ExternalError "OverflowError" = ValueError msg)
      \/ ExternalError "OverflowError" = ExternalError "OverflowError").
Proof.
  apply (export_mp_ids_bad_identifier MetricsTable.bad_ids_example
           ["mp-9"] "mp-99999999999999999999" ["mp9"]).
  - repeat constructor; by eexists.
  - repeat constructor.
  - reflexivity.
  - reflexivity.
Defined.

Lemma export_mp_ids_order_independent_witness :
  MetricsTable.export_mp_ids MetricsTable.export_example ["mp-9"; "mp-149"; "mp-10"]
  = MetricsTable.export_mp_ids MetricsTable.export_example ["mp-149"; "mp-10"; "mp-9"].
Proof.
  symmetry.
  eapply (export_mp_ids_order_independent MetricsTable.export_example
            ["mp-9"; "mp-149"; "mp-10"] ["mp-149"; "mp-10"; "mp-9"]).
  - apply (Permutation_cons_append ["mp-149"; "mp-10"] "mp-9").
  - vm_compute.
    repeat (constructor;
            [intros Hin;
             repeat (apply elem_of_cons in Hin as [Hin|Hin]; [discriminate|]);
             by apply elem_of_nil in Hin|]).
    constructor.
  - reflexivity.
Defined.

(** ** More on the sort key *)

Section SortKey.
Import MetricsTable.
Local Arguments String.append : simpl nomatch.

Lemma digit_not_space c : is_Some (digit_of c) -> is_space c = false.
Proof.
  intros [d Hd]. revert Hd.
  destruct c as [[] [] [] [] [] [] [] []]; vm_compute; intros Hd;
    reflexivity || discriminate.
Qed.

Lemma digit_not_dash c : is_Some (digit_of c) -> Ascii.eqb "-" c = false.
Proof.
  intros [d Hd]. revert Hd.
  destruct c as [[] [] [] [] [] [] [] []]; vm_compute; intros Hd;
    reflexivity || discriminate.
Qed.

Lemma decimal_no_dash s : decimal s -> Mp.has_char "-" s = false.
Proof.
  unfold decimal. induction s as [|c s IH]; [done|]. cbn [list_ascii_of_string].
  intros [Hc Hs]%Forall_cons. cbn [Mp.has_char].
  by rewrite (digit_not_dash _ Hc), IH.
Qed.

Lemma rev_string_chars s : list_ascii_of_string (rev_string s) = rev (list_ascii_of_string s).
Proof. unfold rev_string. by rewrite list_ascii_of_string_of_list_ascii. Qed.

Lemma rev_string_involutive s : rev_string (rev_string s) = s.
Proof.
  unfold rev_string at 1. rewrite rev_string_chars, rev_involutive.
  apply string_of_list_ascii_of_string.
Qed.

Lemma lstrip_no_space s :
  Forall (fun c => is_space c = false) (list_ascii_of_string s) -> lstrip s = s.
Proof.
  destruct s as [|c s]; [done|]. cbn [list_ascii_of_string lstrip].
  intros [-> _]%Forall_cons. done.
Qed.

Lemma strip_no_space s :
  Forall (fun c => is_space c = false) (list_ascii_of_string s) -> strip s = s.
Proof.
  intros Hs. unfold strip. rewrite (lstrip_no_space s Hs).
  rewrite lstrip_no_space, rev_string_involutive; [done|].
  rewrite rev_string_chars. by apply Forall_rev.
Qed.

Lemma strip_decimal s : decimal s -> strip s = s.
Proof.
  intros Hs. apply strip_no_space. eapply Forall_impl; [exact Hs|].
  apply digit_not_space.
Qed.

(** A literal that starts with a digit carries no sign. *)
Lemma py_int_unsigned c s :
  is_Some (digit_of c) -> strip (String c s) = String c s ->
  py_int (String c s) = literal (String c s) 1.
Proof.
  intros [d Hd] Hstrip. unfold py_int. rewrite Hstrip. revert Hd.
  destruct c as [[] [] [] [] [] [] [] []]; vm_compute digit_of; intros Hd;
    reflexivity || discriminate.
Qed.

Lemma py_int_decimal s : decimal s -> s <> "" -> py_int s = literal s 1.
Proof.
  intros Hdec Hne. destruct s as [|c s]; [done|].
  apply py_int_unsigned; [|by apply strip_decimal].
  unfold decimal in Hdec. cbn [list_ascii_of_string] in Hdec.
  by apply Forall_cons in Hdec as [Hc _].
Qed.

Lemma digit_count_le s : digit_count s <= String.length s.
Proof.
  unfold digit_count. induction s as [|c s IH]; cbn; [lia|].
  destruct (is_digit c); cbn; lia.
Qed.

Lemma digit_of_pretty_N_char d :
  (d < 10)%N -> digit_of (pretty_N_char d) = Some (Z.of_N d).
Proof.
  intros Hd.
  assert (d = 0 \/ d = 1 \/ d = 2 \/ d = 3 \/ d = 4 \/ d = 5 \/ d = 6 \/ d = 7
          \/ d = 8 \/ d = 9)%N as Hcases by lia.
  repeat (destruct Hcases as [->|Hcases]; [reflexivity|]). by subst.
Qed.

Lemma decimal_pretty_N_go x s : decimal s -> decimal (pretty_N_go x s).
Proof.
  revert s. induction x as [x IH] using (well_founded_induction N.lt_wf_0).
  intros s Hs. destruct (decide (x = 0)%N) as [->|Hx].
  - by rewrite pretty_N_go_0.
  - rewrite pretty_N_go_step by lia. apply IH.
    + apply N.div_lt; lia.
    + unfold decimal. cbn [list_ascii_of_string]. constructor; [|done].
      rewrite digit_of_pretty_N_char; [by eexists|]. apply N.mod_lt. lia.
Qed.

Lemma decimal_pretty_N (x : N) : decimal (pretty x).
Proof.
  unfold pretty, pretty_N. case_decide.
  - unfold decimal. cbn. constructor; [by eexists | constructor].
  - apply decimal_pretty_N_go. constructor.
Qed.

Lemma parse_digits_pretty_N_go x s b :
  (0 < x)%N ->
  parse_digits (pretty_N_go x s) 0 b = parse_digits s (Z.of_N x) true.
Proof.
  revert s b. induction x as [x IH] using (well_founded_induction N.lt_wf_0).
  intros s b Hx. rewrite pretty_N_go_step by done.
  pose proof (N.mod_lt x 10 ltac:(lia)) as Hmod.
  pose proof (N.div_mod x 10 ltac:(lia)) as Hdiv.
  destruct (decide (x `div` 10 = 0)%N) as [Hz|Hnz].
  - rewrite Hz, pretty_N_go_0. cbn [parse_digits].
    rewrite digit_of_pretty_N_char by done. f_equal. lia.
  - rewrite IH; [|apply N.div_lt; lia|lia]. cbn [parse_digits].
    rewrite digit_of_pretty_N_char by done. f_equal. lia.
Qed.

Lemma parse_digits_pretty_N (x : N) : parse_digits (pretty x) 0 false = Some (Z.of_N x).
Proof.
  unfold pretty, pretty_N. case_decide as Hx.
  - by subst.
  - rewrite parse_digits_pretty_N_go by lia. done.
Qed.

Lemma py_int_pretty_N (x : N) : py_int (pretty x) = literal (pretty x) 1.
Proof.
  apply py_int_decimal; [apply decimal_pretty_N|].
  pose proof (parse_digits_pretty_N x) as Hparse. by intros Heq; rewrite Heq in Hparse.
Qed.

Lemma length_pretty_N_go (k : nat) x s :
  (x < 10 ^ N.of_nat k)%N ->
  String.length (pretty_N_go x s) <= String.length s + k.
Proof.
  revert x s. induction k as [|k IH]; intros x s Hx.
  - assert (x = 0%N) as -> by (cbn in Hx; lia). rewrite pretty_N_go_0. lia.
  - destruct (decide (x = 0%N)) as [->|Hnz]; [rewrite pretty_N_go_0; lia|].
    rewrite pretty_N_go_step by lia.
    etrans; [apply IH|cbn; lia].
    rewrite Nat2N.inj_succ, N.pow_succ_r' in Hx.
    apply N.Div0.div_lt_upper_bound; lia.
Qed.

Lemma length_pretty_N (n : N) : (n < 2 ^ 63)%N -> String.length (pretty n) <= 19.
Proof.
  intros Hn. unfold pretty, pretty_N. case_decide; [cbn; lia|].
  etrans; [apply (length_pretty_N_go 19)|cbn; lia].
  eapply N.lt_trans; [exact Hn|]. reflexivity.
Qed.

(** The digits of a number below 2^63 are converted; those of a larger
    one are converted or exceed the limit on the digits. *)
Lemma literal_pretty_N (n : N) :
  literal (pretty n) 1 = Ok (Z.of_N n)
  \/ ((2 ^ 63 <= n)%N /\ exists e, literal (pretty n) 1 = Raise e).
Proof.
  unfold literal. rewrite parse_digits_pretty_N.
  destruct (int_max_str_digits <? digit_count (pretty n))%nat eqn:Hlimit.
  - right. split; [|by eexists].
    destruct (N.lt_ge_cases n (2 ^ 63)) as [Hsmall|Hbig]; [|done].
    apply Nat.ltb_lt in Hlimit. unfold int_max_str_digits in Hlimit.
    pose proof (length_pretty_N n Hsmall). pose proof (digit_count_le (pretty n)). lia.
  - left. by rewrite Z.mul_1_l.
Qed.

Lemma astype_int_ok n k :
  astype_int n = Ok k <-> k = n /\ (- 2 ^ 63 <= n < 2 ^ 63)%Z.
Proof.
  unfold astype_int.
  destruct (Z.leb_spec (- 2 ^ 63) n), (Z.ltb_spec n (2 ^ 63)); cbn [andb];
    split; try done; try (intros [= <-]; by split); try (intros [-> _]; done);
    intros [_ [? ?]]; lia.
Qed.

Lemma key_of_pretty_N (n : N) k :
  match py_int (pretty n) with Ok m => astype_int m | Raise e => Raise e end = Ok k
  <-> k = Z.of_N n /\ (n < 2 ^ 63)%N.
Proof.
  rewrite py_int_pretty_N.
  assert (Hpow : Z.of_N (2 ^ 63) = (2 ^ 63)%Z) by reflexivity.
  destruct (literal_pretty_N n) as [->|[Hbig [e ->]]].
  - rewrite astype_int_ok. split.
    + intros [-> [_ Hlt]]. split; [done|]. lia.
    + intros [-> Hlt]. split; [done|]. lia.
  - split; [done|]. intros [_ Hlt]. lia.
Qed.

(** X14. The sort key of an identifier is the number written after its
    first dash, as long as that number fits into 64 bits: for a dash-free
    prefix [p] and a natural number [n], the identifier [p-n] has the key
    [n] when [n] is below 2^63 and no key otherwise, and so has
    [p-n-rest]. *)
Theorem sort_key_reads_number (p : string) (n : N) :
  Mp.has_char "-" p = false ->
  (forall k, sort_key (p +:+ "-" +:+ pretty n) = Ok k
             <-> k = Z.of_N n /\ (n < 2 ^ 63)%N)
  /\ forall rest k,
       sort_key (p +:+ "-" +:+ pretty n +:+ "-" +:+ rest) = Ok k
       <-> k = Z.of_N n /\ (n < 2 ^ 63)%N.
Proof.
  intros Hp. pose proof (decimal_no_dash _ (decimal_pretty_N n)) as Hn.
  change ("-" +:+ pretty n) with (String "-" (pretty n)). split.
  - intros k. unfold sort_key. rewrite split_on_app, split_on_absent by done.
    apply key_of_pretty_N.
  - intros rest k. unfold sort_key.
    change ("-" +:+ pretty n +:+ "-" +:+ rest)
      with (String "-" (pretty n +:+ String "-" rest)).
    rewrite !split_on_app by done.
    destruct (Phonon.split_on "-" rest); apply key_of_pretty_N.
Qed.

(** *** The order of the export *)

Lemma foldl_add_digit_None cs : foldl add_digit None cs = None.
Proof. by induction cs. Qed.

(** A number that the specification reads from the digits is the one
    [int] reads. *)
Lemma spec_digits s acc v :
  foldl add_digit (Some acc) (list_ascii_of_string s) = Some v ->
  decimal s /\ (0 <= acc -> 0 <= v)%Z /\ parse_digits s acc true = Some v.
Proof.
  revert acc. induction s as [|c s IH]; intros acc; cbn [list_ascii_of_string foldl].
  - intros [= <-]. split; [constructor|]. by split.
  - unfold add_digit at 2. destruct (digit_of c) as [d|] eqn:Hd.
    + intros Hrest. destruct (IH _ Hrest) as (Hdec & Hpos & Hparse).
      split; [constructor; [by rewrite Hd | done]|]. split.
      * intros Hacc. apply Hpos.
        assert (0 <= d)%Z; [|lia].
        revert Hd. unfold digit_of. case_match; [|done]. intros [= <-]. lia.
      * cbn [parse_digits]. by rewrite Hd.
    + by rewrite foldl_add_digit_None.
Qed.

Lemma parse_digits_first s acc :
  decimal s -> s <> "" -> parse_digits s acc false = parse_digits s acc true.
Proof.
  intros Hdec Hne. destruct s as [|c s]; [done|].
  unfold decimal in Hdec. cbn [list_ascii_of_string] in Hdec.
  apply Forall_cons in Hdec as [[d Hd] _]. cbn [parse_digits]. by rewrite Hd.
Qed.

Lemma split_on_length sep s :
  Forall (fun part => String.length part <= String.length s) (Phonon.split_on sep s).
Proof.
  induction s as [|c s IH]; cbn [Phonon.split_on].
  - by repeat constructor.
  - destruct (Ascii.eqb c sep).
    + constructor; [cbn; lia|].
      eapply Forall_impl; [exact IH|]. cbn. intros; lia.
    + destruct (Phonon.split_on sep s) as [|x xs]; [constructor; [cbn; lia|constructor]|].
      apply Forall_cons in IH as [Hx Hxs]. constructor; [cbn; lia|].
      eapply Forall_impl; [exact Hxs|]. cbn. intros; lia.
Qed.

(** The key that the export sorts by is the numeric suffix of the
    specification, for an identifier within the limits of the
    conversion. *)
Lemma sort_key_refines_spec label n :
  spec_numeric_suffix label = Some n ->
  (n < 2 ^ 63)%Z ->
  String.length label <= int_max_str_digits ->
  sort_key label = Ok n.
Proof.
  unfold spec_numeric_suffix, sort_key. intros Hspec Hn Hlen.
  pose proof (split_on_length "-" label) as Hparts.
  destruct (Phonon.split_on "-" label) as [|name [|digits [|]]]; try done.
  apply Forall_cons in Hparts as [_ [Hdigits _]%Forall_cons].
  assert (Hne : digits <> "") by (intros ->; done).
  assert (Hfold : foldl add_digit (Some 0%Z) (list_ascii_of_string digits) = Some n).
  { by destruct (list_ascii_of_string digits). }
  destruct (spec_digits _ _ _ Hfold) as (Hdec & Hpos & Hparse).
  rewrite (py_int_decimal _ Hdec Hne). unfold literal.
  rewrite (parse_digits_first _ _ Hdec Hne), Hparse.
  pose proof (digit_count_le digits).
  rewrite (proj2 (Nat.ltb_ge _ _)) by lia.
  rewrite Z.mul_1_l. apply astype_int_ok. split; [done|].
  specialize (Hpos ltac:(done)). lia.
Qed.

Lemma Forall2_key_change {A} (P Q : A -> Z -> Prop) (R : A -> Prop) l ks :
  (forall a k, R a -> P a k -> Q a k) ->
  Forall R l -> Forall2 P l ks -> Forall2 Q l ks.
Proof.
  intros Himpl Hl H2. induction H2 as [|a k l ks Hak _ IH]; [constructor|].
  apply Forall_cons in Hl as [Ha Hl]. constructor; auto.
Qed.

(** C9. When every selected identifier has a row in the reference frame
    and is a name, a dash and a number that the conversion takes (below
    2^63, the identifier no longer than the limit on digits), the export
    produces a table with the columns formula, supercell and number of
    sites in this order, one row for each selected identifier with the
    cells of that material in the order of the columns, and the rows in
    ascending order of the numeric suffix of the identifier. *)
Theorem export_mp_ids_sorted (df_pbe : frame) idx_n_avail :
  Forall (fun label => is_Some (Phonon.dict_get label df_pbe)) idx_n_avail ->
  Forall (fun label => exists n, spec_numeric_suffix label = Some n
                                 /\ (n < 2 ^ 63)%Z
                                 /\ String.length label <= int_max_str_digits)
         idx_n_avail ->
  exists table,
    export_mp_ids df_pbe idx_n_avail = Ok table
    /\ header table = [formula; supercell; n_sites]
    /\ map fst (rows table) ≡ₚ idx_n_avail
    /\ Forall (fun row => exists r,
                 Phonon.dict_get (fst row) df_pbe = Some r
                 /\ snd row = [r formula; r supercell; r n_sites]) (rows table)
    /\ exists keys,
         Forall2 (fun row k => spec_numeric_suffix (fst row) = Some k) (rows table) keys
         /\ StronglySorted Z.le keys.
Proof.
  intros Hrows Hids.
  assert (Hkeys : Forall (fun label => is_ok (sort_key label) = true) idx_n_avail).
  { eapply Forall_impl; [exact Hids|]. intros label (n & Hspec & Hn & Hlen).
    by rewrite (sort_key_refines_spec label n). }
  destruct (export_mp_ids_by_key df_pbe idx_n_avail Hrows Hkeys)
    as (table & Hok & Hheader & Hperm & Hcells & keys & Hsorted & Hasc).
  exists table. repeat (split; [done|]).
  exists keys. split; [|done].
  apply (Forall2_key_change
           (fun row k => sort_key (fst row) = Ok k) _
           (fun row => fst row ∈ idx_n_avail)); [| |done].
  - intros row k Hin Hkey. rewrite Forall_forall in Hids.
    destruct (Hids _ Hin) as (n & Hspec & Hn & Hlen).
    rewrite (sort_key_refines_spec _ n) in Hkey by done. congruence.
  - apply Forall_forall. intros row Hin. rewrite <- Hperm.
    by apply list_elem_of_fmap_2.
Qed.

End SortKey.

Lemma sort_key_reads_number_witness :
  MetricsTable.sort_key "mp-149" = Ok 149%Z
  /\ MetricsTable.sort_key "mp-149-r2scan" = Ok 149%Z.
Proof.
  destruct (sort_key_reads_number "mp" 149 eq_refl) as [Hkey Hrest].
  split.
  - apply (proj2 (Hkey 149%Z)). split; reflexivity.
  - apply (proj2 (Hrest "r2scan" 149%Z)). split; reflexivity.
Defined.

(** An identifier whose number does not fit into 64 bits has no key. *)
Example sort_key_overflow :
  MetricsTable.sort_key "mp-9223372036854775807" = Ok 9223372036854775807%Z
  /\ MetricsTable.sort_key "mp-9223372036854775808" = Raise (ExternalError "OverflowError").
Proof. split; by vm_compute. Qed.

Lemma export_mp_ids_sorted_witness :
  Forall (fun label => is_Some (Phonon.dict_get label MetricsTable.export_example))
         ["mp-149"; "mp-10"; "mp-9"]
  /\ Forall (fun label => exists n, MetricsTable.spec_numeric_suffix label = Some n
                                    /\ (n < 2 ^ 63)%Z
                                    /\ String.length label <= MetricsTable.int_max_str_digits)
            ["mp-149"; "mp-10"; "mp-9"]
  /\ exists table,
       MetricsTable.export_mp_ids MetricsTable.export_example ["mp-149"; "mp-10"; "mp-9"]
         = Ok table
       /\ MetricsTable.header table
            = [MetricsTable.formula; MetricsTable.supercell; MetricsTable.n_sites]
       /\ map fst (MetricsTable.rows table) ≡ₚ ["mp-149"; "mp-10"; "mp-9"]
       /\ Forall (fun row => exists r,
                    Phonon.dict_get (fst row) MetricsTable.export_example = Some r
                    /\ snd row = [r MetricsTable.formula; r MetricsTable.supercell;
                                  r MetricsTable.n_sites]) (MetricsTable.rows table)
       /\ exists keys,
            Forall2 (fun row k => MetricsTable.spec_numeric_suffix (fst row) = Some k)
                    (MetricsTable.rows table) keys
            /\ StronglySorted Z.le keys.
Proof.
  assert (H1 : Forall (fun label => is_Some (Phonon.dict_get label MetricsTable.export_example))
                      ["mp-149"; "mp-10"; "mp-9"]).
  { repeat constructor; by eexists. }
  assert (H2 : Forall (fun label => exists n, MetricsTable.spec_numeric_suffix label = Some n
                                              /\ (n < 2 ^ 63)%Z
                                              /\ String.length label
                                                 <= MetricsTable.int_max_str_digits)
                      ["mp-149"; "mp-10"; "mp-9"]).
  { repeat constructor.
    - exists 149%Z. split; [reflexivity|]. split; [reflexivity|].
      unfold MetricsTable.int_max_str_digits. cbn. lia.
    - exists 10%Z. split; [reflexivity|]. split; [reflexivity|].
      unfold MetricsTable.int_max_str_digits. cbn. lia.
    - exists 9%Z. split; [reflexivity|]. split; [reflexivity|].
      unfold MetricsTable.int_max_str_digits. cbn. lia. }
  split; [exact H1|]. split; [exact H2|].
  exact (export_mp_ids_sorted MetricsTable.export_example _ H1 H2).
Defined.

(** ** More on the regression metrics *)

Section RegressionMore.
Import MetricsTable.
Local Open Scope Qc_scope.

Implicit Types a b : gmap string cell.

Lemma all_finite_Some (ts : list Qc) : all_finite (Some <$> ts) = Some ts.
Proof.
  unfold all_finite. apply mapM_Some, Forall2_fmap_l, Forall_Forall2_diag.
  by apply Forall_true.
Qed.

(** The loop on the values of the shared materials. *)
Lemma regression_metrics_values a b :
  exists labels ts ps,
    NoDup labels
    /\ (forall k, k ∈ labels <->
                  exists p q, a !! k = Some (Some p) /\ b !! k = Some (Some q))
    /\ Forall2 (fun k t => a !! k = Some (Some t)) labels ts
    /\ Forall2 (fun k p => b !! k = Some (Some p)) labels ps
    /\ regression_metrics a b =
         match r2_score (Some <$> ts) (Some <$> ps) with
         | Ok r2 => Ok (FreqMetrics (mae_spec a b) r2)
         | Raise e => Raise e
         end.
Proof.
  set (labels := dropna_index (series_sub a b)).
  assert (Hin : forall k, k ∈ labels <->
                  exists p q, a !! k = Some (Some p) /\ b !! k = Some (Some q))
    by apply elem_of_dropna_index.
  exists labels,
    ((fun k => default 0 (default None (a !! k))) <$> labels),
    ((fun k => default 0 (default None (b !! k))) <$> labels).
  split; [apply NoDup_fst_map_to_list|]. split; [done|].
  split; [|split].
  - apply Forall2_fmap_r, Forall_Forall2_diag, Forall_forall.
    intros k (p & q & Hp & _)%Hin. cbn. by rewrite Hp.
  - apply Forall2_fmap_r, Forall_Forall2_diag, Forall_forall.
    intros k (p & q & _ & Hq)%Hin. cbn. by rewrite Hq.
  - unfold regression_metrics. fold labels. rewrite mae_refines_spec.
    rewrite !series_loc_present.
    + rewrite <- !list_fmap_compose.
      rewrite (Forall_fmap_ext_1 (fun k => default None (a !! k))
                 (Some ∘ (fun k => default 0 (default None (a !! k)))) labels).
      2: { apply Forall_forall. intros k (p & q & Hp & _)%Hin. cbn. by rewrite Hp. }
      rewrite (Forall_fmap_ext_1 (fun k => default None (b !! k))
                 (Some ∘ (fun k => default 0 (default None (b !! k)))) labels).
      2: { apply Forall_forall. intros k (p & q & _ & Hq)%Hin. cbn. by rewrite Hq. }
      by destruct (r2_score _ _).
    + apply Forall_forall. intros k (p & q & _ & ->)%Hin. by eexists.
    + apply Forall_forall. intros k (p & q & -> & _)%Hin. by eexists.
Qed.

Lemma square_nonneg (x : Qc) : 0 <= x * x.
Proof.
  destruct (Qclt_le_dec x 0) as [Hneg|Hpos].
  - replace (x * x) with ((- x) * (- x)) by ring.
    assert (0 <= - x).
    { apply Qclt_le_weak in Hneg. apply Qcopp_le_compat in Hneg.
      by replace (- 0) with 0 in Hneg by ring. }
    by apply Qcmult_nonneg_nonneg.
  - by apply Qcmult_nonneg_nonneg.
Qed.

Lemma qsum_nonneg l : Forall (Qcle 0) l -> 0 <= qsum l.
Proof.
  induction 1 as [|x l Hx _ IH]; [done|].
  unfold qsum in *. cbn [foldr]. by apply Qcplus_nonneg_nonneg.
Qed.

Lemma div_nonneg x y : 0 <= x -> 0 < y -> 0 <= x / y.
Proof.
  intros Hx Hy. unfold Qcdiv.
  apply Qcmult_nonneg_nonneg; [done|]. by apply Qclt_le_weak, Qcinv_pos.
Qed.

Lemma squared_residuals_nonneg ts ps :
  0 <= qsum (zip_with (fun t p => (t - p) * (t - p)) ts ps).
Proof.
  apply qsum_nonneg. revert ps.
  induction ts as [|t ts IH]; intros [|p ps]; cbn; try constructor; [|apply IH].
  apply square_nonneg.
Qed.

Lemma squared_residuals_same ts :
  qsum (zip_with (fun t p => (t - p) * (t - p)) ts ts) = 0.
Proof.
  induction ts as [|t ts IH]; [done|].
  unfold qsum in *. cbn [zip_with foldr]. rewrite IH. ring.
Qed.

(** [r2_score] on complete vectors of one length, by the number of
    samples. *)
Lemma r2_score_values ts ps :
  length ts = length ps ->
  match ts with
  | [] => r2_score (Some <$> ts) (Some <$> ps)
          = Raise (ValueError "Found array with 0 sample(s)")
  | _ :: nil => r2_score (Some <$> ts) (Some <$> ps) = Ok None
  | _ => exists r, r2_score (Some <$> ts) (Some <$> ps) = Ok (Some r)
                   /\ r <= 1 /\ (ts = ps -> r = 1)
  end.
Proof.
  intros Hlen. unfold r2_score.
  rewrite !length_fmap, Hlen, Nat.eqb_refl, !all_finite_Some. cbn [negb].
  destruct ts as [|t1 [|t2 ts]]; [done..|].
  set (ss_res := qsum (zip_with _ _ _)). set (ss_tot := qsum (map _ _)).
  assert (Hres : 0 <= ss_res) by apply squared_residuals_nonneg.
  assert (Htot : 0 <= ss_tot).
  { apply qsum_nonneg, Forall_fmap, Forall_true. intros x. apply square_nonneg. }
  assert (Hsame : t1 :: t2 :: ts = ps -> ss_res = 0).
  { intros <-. apply squared_residuals_same. }
  destruct (decide (ss_tot = 0)) as [Hz|Hnz].
  - eexists. split; [done|]. split.
    + by case_decide.
    + intros Heq. by rewrite decide_True by auto.
  - eexists. split; [done|]. split.
    + apply Qcle_minus_iff.
      replace (1 + - (1 - ss_res / ss_tot)) with (ss_res / ss_tot) by ring.
      apply div_nonneg; [done|].
      destruct (Qcle_lt_or_eq _ _ Htot) as [?|Heq]; [done|]. by destruct Hnz.
    + intros Heq. rewrite (Hsame Heq). unfold Qcdiv. ring.
Qed.

(** X15. The regression loop returns exactly when reference and model
    share a material with a value on both sides; when they share none,
    [r2_score] is handed no sample and the loop raises [ValueError]. *)
Theorem regression_metrics_needs_shared_material a b :
  (is_ok (regression_metrics a b) = true <->
   exists k p q, a !! k = Some (Some p) /\ b !! k = Some (Some q))
  /\ (is_ok (regression_metrics a b) = false ->
      regression_metrics a b = Raise (ValueError "Found array with 0 sample(s)")).
Proof.
  destruct (regression_metrics_values a b)
    as (labels & ts & ps & _ & Hin & Hts & Hps & ->).
  assert (Hlen : length ts = length ps).
  { apply Forall2_length in Hts, Hps. congruence. }
  pose proof (r2_score_values ts ps Hlen) as Hr2.
  destruct ts as [|t1 [|t2 ts]].
  - rewrite Hr2. split; [|done]. split; [done|].
    intros (k & Hk%Hin). apply Forall2_nil_inv_r in Hts. subst labels.
    by apply elem_of_nil in Hk.
  - rewrite Hr2. split; [|done]. split; [|done]. intros _.
    destruct labels as [|k labels]; [by apply Forall2_nil_inv_l in Hts|].
    exists k. apply Hin. left.
  - destruct Hr2 as (r & -> & _). split; [|done]. split; [|done]. intros _.
    destruct labels as [|k labels]; [by apply Forall2_nil_inv_l in Hts|].
    exists k. apply Hin. left.
Qed.

Lemma lookup_abs_errors a b k :
  abs_errors a b !! k =
    match a !! k, b !! k with
    | Some (Some p), Some (Some q) => Some (Qcabs (p - q))
    | _, _ => None
    end.
Proof.
  unfold abs_errors. rewrite lookup_fmap, lookup_both_present.
  by destruct (a !! k) as [[?|]|], (b !! k) as [[?|]|].
Qed.

(** A sum of non-negative numbers is non-negative, and zero only when all
    of them are. *)
Lemma sum_fold_nonneg (m : gmap string Qc) :
  (forall k v, m !! k = Some v -> 0 <= v) ->
  0 <= map_fold (fun _ e acc => acc + e) 0 m
  /\ (map_fold (fun _ e acc => acc + e) 0 m = 0 <->
      forall k v, m !! k = Some v -> v = 0).
Proof.
  apply (map_fold_weak_ind
           (fun r m => (forall k v, m !! k = Some v -> 0 <= v) ->
                       0 <= r /\ (r = 0 <-> forall k v, m !! k = Some v -> v = 0))).
  - intros _. split; [done|]. split; [|done]. intros _ k v. by rewrite lookup_empty.
  - intros k x m' r Hk IH Hall.
    assert (Hx : 0 <= x) by (apply (Hall k); by rewrite lookup_insert_eq).
    destruct IH as [Hr Hiff].
    { intros k' v Hv. apply (Hall k'). rewrite lookup_insert_ne; [done|].
      intros ->. congruence. }
    split; [by apply Qcplus_nonneg_nonneg|]. split.
    + intros Hsum k' v.
      assert (r = 0) as Hr0 by exact (nonneg_sum_zero r x Hr Hx Hsum).
      assert (x = 0) as Hx0.
      { rewrite Qcplus_comm in Hsum. exact (nonneg_sum_zero x r Hx Hr Hsum). }
      destruct (decide (k' = k)) as [->|Hne].
      * rewrite lookup_insert_eq. congruence.
      * rewrite lookup_insert_ne by done. by apply Hiff.
    + intros Hzero. rewrite (Hzero k x) by apply lookup_insert_eq.
      rewrite Qcplus_0_r. apply Hiff. intros k' v Hv. apply (Hzero k').
      rewrite lookup_insert_ne; [done|congruence].
Qed.

Lemma div_zero_iff x y : 0 < y -> x / y = 0 <-> x = 0.
Proof.
  intros Hy. split.
  - intros Hdiv. rewrite <- (Qcmult_div_r x y) by (by apply not_eq_sym, Qclt_not_eq).
    by rewrite Hdiv, Qcmult_0_r.
  - intros ->. unfold Qcdiv. by rewrite Qcmult_0_l.
Qed.

(** The mean absolute error by overlap: NaN without a shared material,
    else a non-negative number that is zero only on a perfect fit. *)
Lemma mae_spec_cases a b :
  ((forall k p q, a !! k = Some (Some p) -> b !! k = Some (Some q) -> False)
   /\ mae_spec a b = None)
  \/ ((exists k p q, a !! k = Some (Some p) /\ b !! k = Some (Some q))
      /\ exists e, mae_spec a b = Some e /\ 0 <= e
           /\ (e = 0 <-> forall k p q, a !! k = Some (Some p) ->
                                       b !! k = Some (Some q) -> p = q)).
Proof.
  unfold mae_spec. destruct (size (abs_errors a b)) as [|n] eqn:Hsize.
  - left. split; [|done]. apply map_size_empty_iff in Hsize.
    intros k p q Hp Hq.
    assert (abs_errors a b !! k = None) as Hk by (by rewrite Hsize, lookup_empty).
    by rewrite lookup_abs_errors, Hp, Hq in Hk.
  - right. split.
    + destruct (map_choose (abs_errors a b)) as (k & v & Hk).
      { intros Hempty. by rewrite Hempty, map_size_empty in Hsize. }
      rewrite lookup_abs_errors in Hk. exists k.
      destruct (a !! k) as [[p|]|], (b !! k) as [[q|]|]; try done. eauto.
    + assert (Hn : 0 < Qc_of_Z (Z.of_nat (S n))).
      { rewrite <- Z2Qc_inj_0, <- Z2Qc_inj_lt. lia. }
      assert (Hvals : forall k v, abs_errors a b !! k = Some v -> 0 <= v).
      { intros k v. rewrite lookup_abs_errors.
        destruct (a !! k) as [[p|]|], (b !! k) as [[q|]|]; try done.
        intros [= <-]. apply Qcabs_nonneg. }
      destruct (sum_fold_nonneg _ Hvals) as [Hsum Hzero].
      eexists. split; [done|]. split; [by apply div_nonneg|].
      rewrite (div_zero_iff _ _ Hn), Hzero. split.
      * intros Hall k p q Hp Hq.
        assert (Qcabs (p - q) = 0) as Habs.
        { apply (Hall k). by rewrite lookup_abs_errors, Hp, Hq. }
        apply Qcabs_null in Habs.
        replace p with (p - q + q) by ring. rewrite Habs. ring.
      * intros Hfit k v.
        rewrite lookup_abs_errors.
        destruct (a !! k) as [[p|]|] eqn:Hp, (b !! k) as [[q|]|] eqn:Hq; try done.
        intros [= <-]. rewrite (Hfit k p q Hp Hq).
        replace (q - q) with 0 by ring. by apply Qcabs_pos.
Qed.

Lemma Forall2_agree {A B} (P Q : A -> B -> Prop) l xs ys :
  Forall2 P l xs -> Forall2 Q l ys ->
  (forall k x y, P k x -> Q k y -> x = y) -> xs = ys.
Proof.
  intros HP. revert ys. induction HP as [|k x l xs Hx _ IH]; intros ys HQ Hagree.
  - by apply Forall2_nil_inv_l in HQ.
  - apply Forall2_cons_inv_l in HQ as (y & ys' & Hy & HQ & ->).
    f_equal; [by eapply Hagree | by apply IH].
Qed.

(** X16. With exactly one shared material the loop returns the absolute
    difference of its two values as mean absolute error and NaN as R2. *)
Theorem regression_metrics_single_material a b k p q :
  a !! k = Some (Some p) -> b !! k = Some (Some q) ->
  (forall k' p' q', a !! k' = Some (Some p') -> b !! k' = Some (Some q') -> k' = k) ->
  regression_metrics a b = Ok (FreqMetrics (Some (Qcabs (p - q))) None).
Proof.
  intros Hp Hq Honly.
  destruct (regression_metrics_values a b)
    as (labels & ts & ps & Hnd & Hin & Hts & Hps & ->).
  assert (labels = [k]%list) as ->.
  { assert (Hk : k ∈ labels) by (apply Hin; eauto).
    assert (Hall : forall k', k' ∈ labels -> k' = k).
    { intros k' (p' & q' & Hp' & Hq')%Hin. by eapply Honly. }
    destruct labels as [|x [|y labels]].
    - by apply elem_of_nil in Hk.
    - by rewrite (Hall x) by left.
    - rewrite (Hall x), (Hall y) in Hnd by (repeat constructor).
      apply NoDup_cons in Hnd as [Hnotin _]. destruct Hnotin. left. }
  apply Forall2_cons_inv_l in Hts as (t & ts' & Ht & ->%Forall2_nil_inv_l & ->).
  apply Forall2_cons_inv_l in Hps as (p0 & ps' & Hp0 & ->%Forall2_nil_inv_l & ->).
  pose proof (r2_score_values [t]%list [p0]%list eq_refl) as Hr2. cbv beta iota in Hr2.
  rewrite Hr2. do 2 f_equal.
  assert (abs_errors a b = {[k := Qcabs (p - q)]}) as Herrs.
  { apply map_eq. intros k'. rewrite lookup_abs_errors.
    destruct (decide (k' = k)) as [->|Hne].
    - by rewrite Hp, Hq, lookup_singleton_eq.
    - rewrite lookup_singleton_ne by done.
      destruct (a !! k') as [[p'|]|] eqn:Hp', (b !! k') as [[q'|]|] eqn:Hq'; try done.
      destruct Hne. by eapply Honly. }
  unfold mae_spec. rewrite Herrs, map_size_singleton, map_fold_singleton.
  f_equal. rewrite Qcplus_0_l. unfold Qcdiv.
  replace (/ Qc_of_Z (Z.of_nat 1)) with 1 by (by apply Qc_is_canon). ring.
Qed.

(** X17. A model that agrees with the reference on every shared material,
    of which there are at least two, scores a mean absolute error of 0
    and an R2 of 1. *)
Theorem regression_metrics_perfect_model a b k1 k2 v1 v2 :
  k1 <> k2 ->
  a !! k1 = Some (Some v1) -> b !! k1 = Some (Some v1) ->
  a !! k2 = Some (Some v2) -> b !! k2 = Some (Some v2) ->
  (forall k p q, a !! k = Some (Some p) -> b !! k = Some (Some q) -> p = q) ->
  regression_metrics a b = Ok (FreqMetrics (Some 0) (Some 1)).
Proof.
  intros Hne Ha1 Hb1 Ha2 Hb2 Hfit.
  destruct (regression_metrics_values a b)
    as (labels & ts & ps & Hnd & Hin & Hts & Hps & ->).
  assert (ts = ps) as <-.
  { eapply Forall2_agree; [exact Hts | exact Hps|].
    intros k x y Hx Hy. exact (Hfit k x y Hx Hy). }
  assert (Hk1 : k1 ∈ labels) by (apply Hin; eauto).
  assert (Hk2 : k2 ∈ labels) by (apply Hin; eauto).
  pose proof (r2_score_values ts ts eq_refl) as Hr2.
  destruct ts as [|t1 [|t2 ts]].
  - apply Forall2_nil_inv_r in Hts as ->. by apply elem_of_nil in Hk1.
  - apply Forall2_cons_inv_r in Hts as (x & l' & _ & ->%Forall2_nil_inv_r & ->).
    apply list_elem_of_singleton in Hk1, Hk2. congruence.
  - destruct Hr2 as (r & -> & _ & Hone). rewrite (Hone eq_refl).
    destruct (mae_spec_cases a b) as [[Hnone _]|[_ (e & -> & _ & Hzero)]].
    + destruct (Hnone k1 v1 v1 Ha1 Hb1).
    + by rewrite (proj2 Hzero Hfit).
Qed.

(** X18. Whatever the data, a mean absolute error the loop returns is not
    negative and is zero only when the model agrees with the reference
    on every shared material, and an R2 it returns is at most 1. *)
Theorem regression_metrics_bounds a b m :
  regression_metrics a b = Ok m ->
  (exists e, ph_freq_mae m = Some e /\ 0 <= e
             /\ (e = 0 <-> forall k p q, a !! k = Some (Some p) ->
                                         b !! k = Some (Some q) -> p = q))
  /\ (forall r, ph_freq_r2 m = Some r -> r <= 1).
Proof.
  destruct (regression_metrics_values a b)
    as (labels & ts & ps & Hnd & Hin & Hts & Hps & ->).
  assert (Hlen : length ts = length ps).
  { apply Forall2_length in Hts, Hps. congruence. }
  pose proof (r2_score_values ts ps Hlen) as Hr2.
  destruct (mae_spec_cases a b) as [[Hnone _]|[_ (e & Hmae & He & Hzero)]].
  - destruct labels as [|k labels].
    + apply Forall2_nil_inv_l in Hts as ->. by rewrite Hr2.
    + assert (Hk : k ∈ k :: labels) by left.
      apply Hin in Hk as (p & q & Hp & Hq). destruct (Hnone k p q Hp Hq).
  - rewrite Hmae. destruct ts as [|t1 [|t2 ts]].
    + by rewrite Hr2.
    + rewrite Hr2. intros [= <-]. cbn. split; [by exists e | done].
    + destruct Hr2 as (r & -> & Hle & _). intros [= <-]. cbn.
      split; [by exists e|]. by intros r' [= <-].
Qed.

(** X19. The mean absolute error is the same whichever of the two columns
    is subtracted from the other, but R2 depends on which one is the
    reference: on the example values the error is the same both ways,
    while R2 is positive one way and negative the other. *)
Theorem regression_metrics_swapped :
  (forall a b,
      series_mean (series_abs (series_sub a b))
      = series_mean (series_abs (series_sub b a)))
  /\ exists mae r2 r2',
       regression_metrics dft_example model_example
       = Ok (FreqMetrics (Some mae) (Some r2))
       /\ regression_metrics model_example dft_example
          = Ok (FreqMetrics (Some mae) (Some r2'))
       /\ (0 < r2)%Qc /\ (r2' < 0)%Qc.
Proof.
  split.
  - intros a b. rewrite !mae_refines_spec. unfold mae_spec.
    assert (abs_errors a b = abs_errors b a) as ->; [|done].
    apply map_eq. intros k. rewrite !lookup_abs_errors.
    destruct (a !! k) as [[p|]|], (b !! k) as [[q|]|]; try done.
    by rewrite Qcabs_Qcminus.
  - exists (Q2Qc (1 # 2)), (Q2Qc (3 # 8)), (Q2Qc (-13 # 2)).
    split; [vm_compute; do 2 f_equal; f_equal; by apply Qc_is_canon|].
    split; [vm_compute; do 2 f_equal; f_equal; by apply Qc_is_canon|].
    split; reflexivity.
Qed.

End RegressionMore.

Lemma regression_metrics_single_material_witness :
  MetricsTable.regression_metrics
    {["mp-1" := Some (Q2Qc 3)]}
    (<["mp-2" := Some (Q2Qc 5)]> {["mp-1" := Some (Q2Qc 1)]})
  = Ok (MetricsTable.FreqMetrics (Some (Qcabs (Q2Qc 3 - Q2Qc 1))) None).
Proof.
  apply (regression_metrics_single_material _ _ "mp-1").
  - reflexivity.
  - reflexivity.
  - intros k' p' q' Ha _. destruct (decide (k' = "mp-1")) as [->|Hne]; [done|].
    by rewrite lookup_singleton_ne in Ha.
Defined.

Lemma regression_metrics_perfect_model_witness :
  MetricsTable.regression_metrics
    MetricsTable.dft_example
    (<["mp-9" := Some (Q2Qc 4)]> MetricsTable.dft_example)
  = Ok (MetricsTable.FreqMetrics (Some (Q2Qc 0)) (Some (Q2Qc 1))).
Proof.
  apply (regression_metrics_perfect_model _ _ "mp-1" "mp-2" (Q2Qc 1) (Q2Qc 2)).
  - done.
  - reflexivity.
  - reflexivity.
  - reflexivity.
  - reflexivity.
  - intros k p q Ha Hb. destruct (decide (k = "mp-9")) as [->|Hne]; [done|].
    rewrite lookup_insert_ne in Hb by done. congruence.
Defined.

Lemma regression_metrics_bounds_witness :
  (exists e, Some (Q2Qc (1 # 2)) = Some e /\ (0 <= e)%Qc
             /\ (e = Q2Qc 0 <->
                 forall k p q, MetricsTable.dft_example !! k = Some (Some p) ->
                               MetricsTable.model_example !! k = Some (Some q) -> p = q))
  /\ (forall r, Some (Q2Qc (3 # 8)) = Some r -> (r <= 1)%Qc).
Proof.
  apply (regression_metrics_bounds MetricsTable.dft_example MetricsTable.model_example
           (MetricsTable.FreqMetrics (Some (Q2Qc (1 # 2))) (Some (Q2Qc (3 # 8))))).
  vm_compute. do 2 f_equal; f_equal; by apply Qc_is_canon.
Defined.

(** ** More on the classification metrics *)

Section ClassificationMore.
Import MetricsTable.
Local Open Scope Qc_scope.

Lemma count_pairs_col p y_true y_pred :
  length y_true = length y_pred ->
  (count_pairs false p y_true y_pred + count_pairs true p y_true y_pred)%nat
  = n_true_label p y_pred.
Proof.
  unfold count_pairs, n_true_label. revert y_pred.
  induction y_true as [|a y_true IH]; intros [|b y_pred] Hlen; try done.
  injection Hlen as Hlen. specialize (IH _ Hlen).
  destruct a, b, p; cbn in *; lia.
Qed.

Lemma n_true_label_total l :
  (n_true_label false l + n_true_label true l)%nat = length l.
Proof.
  unfold n_true_label. induction l as [|a l IH]; [done|].
  destruct a; cbn in *; lia.
Qed.

(** Two counts that make up a total, each divided by it. *)
Lemma share_sum x y total :
  x + y = total ->
  nan_to_num_div x total + nan_to_num_div y total = if decide (total = 0) then 0 else 1.
Proof.
  intros Hsum. unfold nan_to_num_div. case_decide as Hz; [done|].
  unfold Qcdiv. rewrite <- Qcmult_plus_distr_l, Hsum. by apply Qcmult_inv_r.
Qed.

Lemma label_count_zero t l : qnat (n_true_label t l) = 0 <-> t ∉ l.
Proof. rewrite qnat_zero, n_true_label_pos. by destruct (decide (n_true_label t l = O)); split; auto. Qed.

Lemma confusion_matrix_two_by_two y_true y_pred policy tn fp fn tp :
  confusion_matrix y_true y_pred policy = Ok [[tn; fp]; [fn; tp]]%list ->
  length y_true = length y_pred /\ unique_labels y_true y_pred = [false; true]%list.
Proof.
  unfold confusion_matrix.
  destruct (length y_true =? length y_pred)%nat eqn:Hlen; cbn [negb]; [|done].
  intros [= Hcm]. split; [by apply Nat.eqb_eq|].
  unfold unique_labels in *.
  destruct (existsb negb _), (existsb id _), policy; cbn in Hcm |- *; done.
Qed.

(** X20. The assertions on the unpacked two-by-two matrix hold exactly
    when both classes occur in the vector the policy normalises over: in
    the reference for [true], in the prediction for [pred]; without
    normalisation there is nothing to hold.  (The policy [all], whose
    assertion adds four quotients, is left out.) *)
Theorem normalization_assertions y_true y_pred policy tn fp fn tp :
  policy <> norm_all ->
  confusion_matrix y_true y_pred policy = Ok [[tn; fp]; [fn; tp]]%list ->
  check_normalized policy tn fp fn tp = Ok tt <->
  match policy with
  | norm_true => true ∈ y_true /\ false ∈ y_true
  | norm_pred => true ∈ y_pred /\ false ∈ y_pred
  | norm_all | norm_none => True
  end.
Proof.
  intros Hpolicy Hcm.
  destruct (confusion_matrix_two_by_two _ _ _ _ _ _ _ Hcm) as [Hlen Hlabels].
  unfold confusion_matrix in Hcm.
  rewrite Hlen, Nat.eqb_refl, Hlabels in Hcm. cbn [negb map] in Hcm.
  pose proof (count_pairs_row false _ _ Hlen) as Hrow0.
  pose proof (count_pairs_row true _ _ Hlen) as Hrow1.
  pose proof (count_pairs_col false _ _ Hlen) as Hcol0.
  pose proof (count_pairs_col true _ _ Hlen) as Hcol1.
  apply (f_equal qnat) in Hrow0, Hrow1, Hcol0, Hcol1.
  rewrite qnat_add in Hrow0, Hrow1, Hcol0, Hcol1.
  destruct policy; unfold check_normalized.
  - unfold qsum in Hcm. cbn [foldr] in Hcm. rewrite !Qcplus_0_r in Hcm.
    injection Hcm as <- <- <- <-.
    rewrite Hrow0, Hrow1, !share_sum by done.
    pose proof (label_count_zero false y_true) as Hf.
    pose proof (label_count_zero true y_true) as Ht.
    destruct (decide (false ∈ y_true)), (decide (true ∈ y_true));
      repeat case_decide; split; try done; tauto.
  - unfold column_sums in Hcm. cbn [foldr map zip_with] in Hcm.
    rewrite !Qcplus_0_r in Hcm. injection Hcm as <- <- <- <-.
    rewrite Hcol0, Hcol1, !share_sum by done.
    pose proof (label_count_zero false y_pred) as Hf.
    pose proof (label_count_zero true y_pred) as Ht.
    destruct (decide (false ∈ y_pred)), (decide (true ∈ y_pred));
      repeat case_decide; split; try done; tauto.
  - done.
  - done.
Qed.

(** The scores of one model in counts: [TP], [FP], [FN] are the numbers of
    true positives, false positives and false negatives, [P] and [N] the
    numbers of positive and negative reference samples. *)
Lemma classification_metrics_counts y_true y_pred :
  length y_true = length y_pred -> true ∈ y_true -> false ∈ y_true ->
  let TP := qnat (count_pairs true true y_true y_pred) in
  let FP := qnat (count_pairs false true y_true y_pred) in
  let FN := qnat (count_pairs true false y_true y_pred) in
  let P := qnat (n_true_label true y_true) in
  let N := qnat (n_true_label false y_true) in
  let recall := Finite (TP / P) in
  let precision := fdiv (Finite (TP / P)) (Finite (TP / P + FP / N)) in
  P <> 0 /\ N <> 0
  /\ classification_metrics normalize y_true y_pred =
       Ok (ImagMetrics precision recall
             (fdiv (fmul (Finite 2) (fmul precision recall)) (fadd precision recall))
             (Finite ((TP / P + 1 - FP / N) / 2))
             (accuracy_score y_true y_pred)
             (Finite (FP / N)) (Finite (FN / P))).
Proof.
  intros Hlen Ht Hf TP FP FN P N recall precision.
  assert (HP : P <> 0) by (subst P; rewrite label_count_zero; tauto).
  assert (HN : N <> 0) by (subst N; rewrite label_count_zero; tauto).
  split; [done|]. split; [done|].
  pose proof (count_pairs_row false _ _ Hlen) as Hrow0.
  pose proof (count_pairs_row true _ _ Hlen) as Hrow1.
  apply (f_equal qnat) in Hrow0, Hrow1. rewrite qnat_add in Hrow0, Hrow1.
  fold FP N in Hrow0. fold TP FN P in Hrow1.
  unfold classification_metrics, normalize.
  rewrite (confusion_matrix_by_true _ _ Hlen), (unique_labels_both _ _ Ht Hf).
  cbn [map]. unfold qsum. cbn [foldr]. rewrite !Qcplus_0_r.
  fold TP FP FN. rewrite Hrow0, Hrow1.
  unfold check_normalized. rewrite !share_sum by done.
  rewrite !(decide_False (P := (P = 0))), !(decide_False (P := (N = 0))) by done.
  rewrite !decide_True by done.
  unfold roc_auc_score. fold P N TP FP.
  rewrite decide_False by tauto.
  assert (Hden : nan_to_num_div TP P + nan_to_num_div FN P = 1).
  { rewrite (Qcplus_comm (nan_to_num_div TP P)), share_sum by done.
    by rewrite decide_False. }
  rewrite Hden. unfold nan_to_num_div in *.
  rewrite !(decide_False (P := (P = 0))), !(decide_False (P := (N = 0))) by done.
  cbn [fdiv]. rewrite (decide_False (P := (1 = 0))) by apply Q_apart_0_1.
  by rewrite (right_id 1 Qcdiv).
Qed.

Lemma classification_metrics_ok_inv y_true y_pred m :
  classification_metrics normalize y_true y_pred = Ok m ->
  length y_true = length y_pred /\ true ∈ y_true /\ false ∈ y_true.
Proof.
  intros Hm.
  assert (Hlen : length y_true = length y_pred).
  { destruct (decide (length y_true = length y_pred)) as [|Hne]; [done|].
    unfold classification_metrics, confusion_matrix in Hm.
    apply Nat.eqb_neq in Hne. by rewrite Hne in Hm. }
  split; [done|]. split.
  - destruct (decide (true ∈ y_true)) as [|Hno]; [done|].
    destruct (classification_metrics_one_class _ _ _ Hlen Hno) as [e He]. congruence.
  - destruct (decide (false ∈ y_true)) as [|Hno]; [done|].
    destruct (classification_metrics_one_class _ _ _ Hlen Hno) as [e He]. congruence.
Qed.

Lemma count_agreeing y_true y_pred :
  length (List.filter (fun tp => Bool.eqb (fst tp) (snd tp)) (zip y_true y_pred))
  = (count_pairs false false y_true y_pred + count_pairs true true y_true y_pred)%nat.
Proof.
  unfold count_pairs. revert y_pred.
  induction y_true as [|a y_true IH]; intros [|b y_pred]; try done.
  specialize (IH y_pred). destruct a, b; cbn in *; lia.
Qed.

(** X21. The stored scores in counts, for by-true-row normalisation:
    recall is TP/P, the false-negative rate FN/P, the false-positive rate
    FP/N, the ROC AUC the mean of TP/P and TN/N, the accuracy
    (TP+TN)/(P+N); the stored precision is formed from the two rates, as
    (TP/P) / (TP/P + FP/N). *)
Theorem classification_metrics_in_counts y_true y_pred m :
  classification_metrics normalize y_true y_pred = Ok m ->
  let TP := qnat (count_pairs true true y_true y_pred) in
  let FP := qnat (count_pairs false true y_true y_pred) in
  let FN := qnat (count_pairs true false y_true y_pred) in
  let TN := qnat (count_pairs false false y_true y_pred) in
  let P := qnat (n_true_label true y_true) in
  let N := qnat (n_true_label false y_true) in
  recall_imag_freq m = Finite (TP / P)
  /\ fnr_imag_freq m = Finite (FN / P)
  /\ fpr_imag_freq m = Finite (FP / N)
  /\ roc_auc_imag_freq m = Finite ((TP / P + TN / N) / 2)
  /\ acc_imag_freq m = Finite ((TP + TN) / (P + N))
  /\ prec_imag_freq m = fdiv (Finite (TP / P)) (Finite (TP / P + FP / N)).
Proof.
  intros Hm TP FP FN TN P N.
  destruct (classification_metrics_ok_inv _ _ _ Hm) as (Hlen & Ht & Hf).
  destruct (classification_metrics_counts _ _ Hlen Ht Hf) as (HP & HN & Heq).
  rewrite Heq in Hm. injection Hm as <-. cbn.
  fold TP FP FN P N.
  pose proof (count_pairs_row false _ _ Hlen) as Hrow0.
  apply (f_equal qnat) in Hrow0. rewrite qnat_add in Hrow0. fold TN FP N in Hrow0.
  repeat split.
  - do 2 f_equal.
    assert (TN / N + FP / N = 1) as Hshare.
    { unfold Qcdiv. rewrite <- Qcmult_plus_distr_l, Hrow0. by apply Qcmult_inv_r. }
    rewrite <- Hshare. ring.
  - unfold accuracy_score.
    rewrite count_agreeing, qnat_add, <- (n_true_label_total y_true), qnat_add.
    fold TP TN P N. cbn [fdiv].
    assert (N + P <> 0) as Hsum.
    { intros Hz. apply HN. eapply nonneg_sum_zero; [| |exact Hz]; apply qnat_nonneg. }
    rewrite decide_False by done.
    by rewrite (Qcplus_comm TN), (Qcplus_comm N).
Qed.

Lemma Finite_inj p q : Finite p = Finite q -> p = q.
Proof.
  intros Heq. exact (f_equal (fun f => match f with Finite x => x | _ => p end) Heq).
Qed.

Lemma pos_add x y : 0 < x -> 0 < y -> 0 < x + y.
Proof.
  intros Hx Hy. apply (Qclt_trans _ x); [done|].
  apply Qclt_minus_iff. by replace (x + y + - x) with y by ring.
Qed.

Lemma pos_mul x y : 0 < x -> 0 < y -> 0 < x * y.
Proof.
  intros Hx Hy. replace 0 with (0 * y) by ring. by apply Qcmult_lt_compat_r.
Qed.

Lemma pos_nonzero x : 0 < x -> x <> 0.
Proof. intros Hx ->. by apply (Qclt_not_le _ _ Hx). Qed.

Lemma qnat_pos n : qnat n <> 0 -> 0 < qnat n.
Proof.
  intros Hne. destruct (Qcle_lt_or_eq _ _ (qnat_nonneg n)); [done|]. by destruct Hne.
Qed.

(** The rate-based precision against the share of right positive
    predictions: their difference has the sign of [N - P]. *)
Lemma rate_precision_gap TP FP P N :
  0 < TP -> 0 < FP -> 0 < P -> 0 < N ->
  TP / P / (TP / P + FP / N) - TP / (TP + FP)
  = TP * FP * (N - P) * / ((TP * N + FP * P) * (TP + FP)).
Proof.
  intros HTP HFP HP HN.
  assert (TP / P + FP / N <> 0).
  { apply pos_nonzero, pos_add; (apply pos_mul; [done|by apply Qcinv_pos]). }
  assert (TP * N + FP * P <> 0) by (apply pos_nonzero, pos_add; by apply pos_mul).
  assert (TP + FP <> 0) by (by apply pos_nonzero, pos_add).
  assert (P <> 0) by (by apply pos_nonzero).
  assert (N <> 0) by (by apply pos_nonzero).
  field. repeat split; done.
Qed.

(** X22. The stored precision is formed from the two rates and is not the
    share of positive predictions that are right, TP/(TP+FP): with right
    and wrong positive predictions both present, it lies above that share
    when the reference has at least twice as many negative as positive
    samples, and below it when it has at least twice as many positive as
    negative ones. *)
Theorem stored_precision_vs_counts y_true y_pred m :
  classification_metrics normalize y_true y_pred = Ok m ->
  let TP := qnat (count_pairs true true y_true y_pred) in
  let FP := qnat (count_pairs false true y_true y_pred) in
  let P := qnat (n_true_label true y_true) in
  let N := qnat (n_true_label false y_true) in
  TP <> 0 -> FP <> 0 ->
  exists stored,
    prec_imag_freq m = Finite stored
    /\ (2 * P <= N -> TP / (TP + FP) < stored)
    /\ (2 * N <= P -> stored < TP / (TP + FP)).
Proof.
  intros Hm TP FP P N HTP HFP.
  destruct (classification_metrics_ok_inv _ _ _ Hm) as (Hlen & Ht & Hf).
  destruct (classification_metrics_counts _ _ Hlen Ht Hf) as (HP & HN & Heq).
  rewrite Heq in Hm. injection Hm as <-. cbn [prec_imag_freq].
  fold TP FP P N in HP, HN |- *.
  apply qnat_pos in HTP, HFP, HP, HN. fold TP in HTP. fold FP in HFP.
  fold P in HP. fold N in HN.
  clearbody TP FP P N. clear Heq.
  assert (Hrates : TP / P + FP / N <> 0).
  { apply pos_nonzero, pos_add; (apply pos_mul; [done|by apply Qcinv_pos]). }
  pose proof (rate_precision_gap TP FP P N HTP HFP HP HN) as Hgap.
  assert (Hden : 0 < / ((TP * N + FP * P) * (TP + FP))).
  { apply Qcinv_pos, pos_mul; [apply pos_add; by apply pos_mul | by apply pos_add]. }
  exists (TP / P / (TP / P + FP / N)). split.
  { cbn [fdiv]. by rewrite decide_False. }
  split.
  - intros Hmore. apply Qclt_minus_iff.
    change (?a + - ?b) with (a - b). rewrite Hgap.
    apply pos_mul; [|done]. apply pos_mul; [by apply pos_mul|].
    apply (proj1 (Qclt_minus_iff P N)).
    apply (Qclt_le_trans _ (2 * P)); [|done].
    apply Qclt_minus_iff. by replace (2 * P + - P) with P by ring.
  - intros Hmore. apply Qclt_minus_iff.
    replace (TP / (TP + FP) + - (TP / P / (TP / P + FP / N)))
      with (- (TP / P / (TP / P + FP / N) - TP / (TP + FP))) by ring.
    rewrite Hgap.
    replace (- (TP * FP * (N - P) * / ((TP * N + FP * P) * (TP + FP))))
      with (TP * FP * (P - N) * / ((TP * N + FP * P) * (TP + FP))) by ring.
    apply pos_mul; [|done]. apply pos_mul; [by apply pos_mul|].
    apply (proj1 (Qclt_minus_iff N P)).
    apply (Qclt_le_trans _ (2 * N)); [|done].
    apply Qclt_minus_iff. by replace (2 * N + - N) with N by ring.
Qed.

Lemma count_pairs_same t p l :
  count_pairs t p l l = if Bool.eqb t p then n_true_label t l else O.
Proof.
  unfold count_pairs, n_true_label. induction l as [|a l IH]; [by destruct (Bool.eqb t p)|].
  destruct a, t, p; cbn in *; by rewrite ?IH.
Qed.

Lemma count_pairs_negated t p l :
  count_pairs t p l (negb <$> l) = if Bool.eqb t p then O else n_true_label t l.
Proof.
  unfold count_pairs, n_true_label. induction l as [|a l IH]; [by destruct (Bool.eqb t p)|].
  destruct a, t, p; cbn in *; by rewrite ?IH.
Qed.

Lemma div_same x : x <> 0 -> x / x = 1.
Proof. intros Hx. by apply Qcmult_inv_r. Qed.

Lemma zero_div x : qnat 0 / x = 0.
Proof. rewrite (proj2 (qnat_zero 0) eq_refl). unfold Qcdiv. apply Qcmult_0_l. Qed.

Lemma sample_count_nonzero (t : bool) (l : list bool) : t ∈ l -> qnat (length l) <> 0.
Proof.
  intros Hin. rewrite qnat_zero. intros Hz. apply length_zero_iff_nil in Hz as ->.
  by apply elem_of_nil in Hin.
Qed.

(** X23. The two extremes, for a reference with both classes: a model
    that repeats the reference scores 1 on precision, recall, F1, ROC AUC
    and accuracy and 0 on both error rates; a model that inverts every
    label scores 0 on precision, recall, ROC AUC and accuracy, 1 on both
    error rates, and its F1 is NaN. *)
Theorem classification_metrics_extremes y :
  true ∈ y -> false ∈ y ->
  classification_metrics normalize y y
  = Ok (ImagMetrics (Finite 1) (Finite 1) (Finite 1) (Finite 1) (Finite 1)
          (Finite 0) (Finite 0))
  /\ classification_metrics normalize y (negb <$> y)
     = Ok (ImagMetrics (Finite 0) (Finite 0) NaN (Finite 0) (Finite 0)
             (Finite 1) (Finite 1)).
Proof.
  intros Ht Hf.
  pose proof (sample_count_nonzero _ _ Ht) as Hlen.
  split.
  - destruct (classification_metrics_counts y y eq_refl Ht Hf) as (HP & HN & ->).
    unfold accuracy_score.
    rewrite count_agreeing, !count_pairs_same. cbn [Bool.eqb].
    rewrite n_true_label_total, !zero_div, (div_same _ HP).
    cbn [fdiv]. rewrite (decide_False (P := (qnat (length y) = 0))) by done.
    rewrite (div_same _ Hlen).
    vm_compute. repeat (f_equal; try (by apply Qc_is_canon)).
  - assert (Hlen' : length y = length (negb <$> y)) by (by rewrite length_fmap).
    destruct (classification_metrics_counts y (negb <$> y) Hlen' Ht Hf)
      as (HP & HN & ->).
    unfold accuracy_score.
    rewrite count_agreeing, !count_pairs_negated. cbn [Bool.eqb Nat.add].
    rewrite !zero_div, (div_same _ HP), (div_same _ HN).
    cbn [fdiv]. rewrite (decide_False (P := (qnat (length y) = 0))) by done.
    rewrite zero_div.
    vm_compute. repeat (f_equal; try (by apply Qc_is_canon)).
Qed.

End ClassificationMore.

Lemma normalization_assertions_witness :
  MetricsTable.check_normalized MetricsTable.norm_pred
    (Q2Qc 1) (Q2Qc (1 # 2)) (Q2Qc 0) (Q2Qc (1 # 2)) = Ok tt
  <-> true ∈ [true; true; false; false] /\ false ∈ [true; true; false; false].
Proof.
  apply (normalization_assertions [true; false; false; false]
           [true; true; false; false] MetricsTable.norm_pred).
  - discriminate.
  - vm_compute.
    repeat (f_equal; try (by apply Qc_is_canon)).
Defined.

Lemma classification_metrics_in_counts_witness :
  let y_true := MetricsTable.imag_true_example in
  let y_pred := MetricsTable.imag_pred_example in
  let m := MetricsTable.imag_metrics_example in
  let TP := MetricsTable.qnat (MetricsTable.count_pairs true true y_true y_pred) in
  let FP := MetricsTable.qnat (MetricsTable.count_pairs false true y_true y_pred) in
  let FN := MetricsTable.qnat (MetricsTable.count_pairs true false y_true y_pred) in
  let TN := MetricsTable.qnat (MetricsTable.count_pairs false false y_true y_pred) in
  let P := MetricsTable.qnat (MetricsTable.n_true_label true y_true) in
  let N := MetricsTable.qnat (MetricsTable.n_true_label false y_true) in
  (MetricsTable.recall_imag_freq m = MetricsTable.Finite (TP / P)
   /\ MetricsTable.fnr_imag_freq m = MetricsTable.Finite (FN / P)
   /\ MetricsTable.fpr_imag_freq m = MetricsTable.Finite (FP / N)
   /\ MetricsTable.roc_auc_imag_freq m = MetricsTable.Finite ((TP / P + TN / N) / 2)
   /\ MetricsTable.acc_imag_freq m = MetricsTable.Finite ((TP + TN) / (P + N))
   /\ MetricsTable.prec_imag_freq m
      = MetricsTable.fdiv (MetricsTable.Finite (TP / P))
                          (MetricsTable.Finite (TP / P + FP / N)))%Qc.
Proof.
  apply (classification_metrics_in_counts MetricsTable.imag_true_example
           MetricsTable.imag_pred_example MetricsTable.imag_metrics_example).
  vm_compute. repeat (f_equal; try (by apply Qc_is_canon)).
Defined.

Lemma stored_precision_vs_counts_witness :
  let y_true := MetricsTable.imag_true_example in
  let y_pred := MetricsTable.imag_pred_example in
  let TP := MetricsTable.qnat (MetricsTable.count_pairs true true y_true y_pred) in
  let FP := MetricsTable.qnat (MetricsTable.count_pairs false true y_true y_pred) in
  let P := MetricsTable.qnat (MetricsTable.n_true_label true y_true) in
  let N := MetricsTable.qnat (MetricsTable.n_true_label false y_true) in
  (exists stored,
      MetricsTable.prec_imag_freq MetricsTable.imag_metrics_example
      = MetricsTable.Finite stored
      /\ (2 * P <= N -> TP / (TP + FP) < stored)
      /\ (2 * N <= P -> stored < TP / (TP + FP)))%Qc.
Proof.
  apply (stored_precision_vs_counts MetricsTable.imag_true_example
           MetricsTable.imag_pred_example MetricsTable.imag_metrics_example).
  - vm_compute. repeat (f_equal; try (by apply Qc_is_canon)).
  - intros Hz. by vm_compute in Hz.
  - intros Hz. by vm_compute in Hz.
Defined.

Lemma classification_metrics_extremes_witness :
  MetricsTable.classification_metrics MetricsTable.normalize
    MetricsTable.imag_true_example MetricsTable.imag_true_example
  = Ok (MetricsTable.ImagMetrics
          (MetricsTable.Finite 1%Qc) (MetricsTable.Finite 1%Qc) (MetricsTable.Finite 1%Qc)
          (MetricsTable.Finite 1%Qc) (MetricsTable.Finite 1%Qc)
          (MetricsTable.Finite 0%Qc) (MetricsTable.Finite 0%Qc))
  /\ MetricsTable.classification_metrics MetricsTable.normalize
       MetricsTable.imag_true_example (negb <$> MetricsTable.imag_true_example)
     = Ok (MetricsTable.ImagMetrics
             (MetricsTable.Finite 0%Qc) (MetricsTable.Finite 0%Qc) MetricsTable.NaN
             (MetricsTable.Finite 0%Qc) (MetricsTable.Finite 0%Qc)
             (MetricsTable.Finite 1%Qc) (MetricsTable.Finite 1%Qc)).
Proof.
  apply (classification_metrics_extremes MetricsTable.imag_true_example).
  - apply list_elem_of_here.
  - apply list_elem_of_further, list_elem_of_here.
Defined.

(** ** The tables of classification scores *)

Section ImagTablesFacts.
Import MetricsTable.

Variable sort_values : table -> result table.
Variable round : table -> table.

Lemma dict_set_new {V} k (v : V) d :
  Phonon.dict_get k d = None -> Phonon.dict_set k v d = d ++ [(k, v)].
Proof.
  induction d as [|[k' v'] d IH]; cbn; [done|].
  destruct (String.eqb k k'); [done|]. intros Hk. by rewrite IH.
Qed.

Lemma dict_get_last {V} k (v : V) d :
  Phonon.dict_get k d = None -> Phonon.dict_get k (d ++ [(k, v)]) = Some v.
Proof.
  induction d as [|[k' v'] d IH]; cbn.
  - by rewrite String.eqb_refl.
  - destruct (String.eqb k k'); [done|]. apply IH.
Qed.

Lemma dict_set_last {V} k (v v' : V) d :
  Phonon.dict_get k d = None ->
  Phonon.dict_set k v' (d ++ [(k, v)]) = d ++ [(k, v')].
Proof.
  induction d as [|[k0 v0] d IH]; cbn.
  - by rewrite String.eqb_refl.
  - destruct (String.eqb k k0); [done|]. intros Hk. by rewrite IH.
Qed.

Lemma dict_get_snoc_ne {V} k k' (v : V) d :
  k <> k' -> Phonon.dict_get k (d ++ [(k', v)]) = Phonon.dict_get k d.
Proof.
  intros Hne. induction d as [|[k0 v0] d IH]; cbn.
  - by apply String.eqb_neq in Hne as ->.
  - by destruct (String.eqb k k0).
Qed.

Lemma set_cell_last row col val cells df :
  Phonon.dict_get row df = None ->
  set_cell row col val (df ++ [(row, cells)])
  = df ++ [(row, Phonon.dict_set col val cells)].
Proof.
  intros Hrow. unfold set_cell. by rewrite dict_get_last, dict_set_last.
Qed.

(** The seven assignments for a model that has no row yet add one row, at
    the end, with the seven scores in the order of the dict. *)
Lemma store_metrics_new label m df :
  Phonon.dict_get label df = None ->
  store_metrics label m df = df ++ [(label, metric_items m)].
Proof.
  intros Hrow. unfold store_metrics, metric_items. cbn [foldl fst snd].
  unfold set_cell at 7. rewrite Hrow, dict_set_new by done.
  by rewrite !set_cell_last.
Qed.

(** The loop over the models touches the frame at [r] only, and adds to it
    one row per model, in the order of the models. *)
Lemma fill_models_spec models r (h h' : list table) (t0 : table) :
  fill_models models r h = Ok h' ->
  h !! r = Some t0 ->
  NoDup (fst <$> models) ->
  Forall (fun input => Phonon.dict_get (fst input) t0 = None) models ->
  length h' = length h
  /\ (forall j, j <> r -> h' !! j = h !! j)
  /\ exists rows : table, h' !! r = Some (t0 ++ rows) /\ Forall2 row_of models rows.
Proof.
  revert h t0.
  induction models as [|[label [y_true y_pred]] models IH]; intros h t0 Hfill Hr Hnd Hnew.
  - injection Hfill as <-. split; [done|]. split; [done|].
    exists []. rewrite app_nil_r. split; [done|constructor].
  - cbn [fill_models] in Hfill.
    destruct (classification_metrics normalize y_true y_pred) as [m|] eqn:Hm; [|done].
    cbn in Hnd. apply NoDup_cons in Hnd as [Hnotin Hnd].
    apply Forall_cons in Hnew as [Hlabel Hnew]. cbn [fst] in Hlabel.
    assert (Hr' : alter (store_metrics label m) r h !! r
                  = Some (t0 ++ [(label, metric_items m)])).
    { rewrite <- store_metrics_new by done.
      exact (eq_trans (list_lookup_alter_eq (store_metrics label m) h r)
                      (f_equal (fmap (store_metrics label m)) Hr)). }
    assert (Hnew' : Forall (fun input =>
                              Phonon.dict_get (fst input) (t0 ++ [(label, metric_items m)])
                              = None) models).
    { apply Forall_forall. intros input Hin.
      rewrite dict_get_snoc_ne.
      - rewrite Forall_forall in Hnew. by apply Hnew.
      - intros Heq. apply Hnotin. rewrite <- Heq. by apply list_elem_of_fmap_2. }
    destruct (IH _ _ Hfill Hr' Hnd Hnew') as (Hlen & Hother & rows & Hrows & Hall).
    split; [by rewrite Hlen, length_alter|].
    split.
    + intros j Hj. rewrite Hother by done. by apply list_lookup_alter_ne.
    + exists ((label, metric_items m) :: rows).
      rewrite Hrows, <- app_assoc. split; [done|].
      constructor; [by exists m | done].
Qed.

(** One turn adds two frames to the store, the filled one and its sorted
    and rounded copy, binds the dict entry to the first and the name
    [df_imag] to the second, and leaves the older frames alone. *)
Lemma column_turn_spec col models st st' :
  column_turn sort_values round col models st = Ok st' ->
  NoDup (fst <$> models) ->
  let r := length (heap st) in
  (forall j, (j < r)%nat -> heap st' !! j = heap st !! j)
  /\ length (heap st') = (r + 2)%nat
  /\ dfs_imag st' col = Some r
  /\ (forall c, c <> col -> dfs_imag st' c = dfs_imag st c)
  /\ df_imag st' = Some (S r)
  /\ exists rows sorted,
       heap st' !! r = Some rows /\ Forall2 row_of models rows
       /\ sort_values rows = Ok sorted
       /\ heap st' !! S r = Some (round sorted).
Proof.
  intros Hturn Hnd r. unfold column_turn in Hturn. fold r in Hturn.
  destruct (fill_models models r (heap st ++ [[]])) as [h|] eqn:Hfill; [|done].
  assert (Hr : (heap st ++ [[]]) !! r = Some ([] : table))
    by (by apply list_lookup_middle).
  assert (Hnew : Forall (fun input : model_input =>
                           Phonon.dict_get (fst input) ([] : table) = None) models)
    by (by apply Forall_true).
  destruct (fill_models_spec _ _ _ _ _ Hfill Hr Hnd Hnew)
    as (Hlen & Hother & rows & Hrows & Hall).
  rewrite Hrows in Hturn. cbn [default app id] in Hturn.
  destruct (sort_values rows) as [sorted|] eqn:Hsort; [|done].
  injection Hturn as <-. cbn [heap dfs_imag df_imag].
  rewrite length_app in Hlen. cbn [length] in Hlen. fold r in Hlen.
  assert (Hlen' : length h = S r) by lia.
  split; [|split; [|split; [|split; [|split]]]].
  - intros j Hj. rewrite lookup_app_l by lia.
    rewrite Hother by lia. by apply lookup_app_l.
  - rewrite length_app. cbn. lia.
  - by rewrite decide_True.
  - intros c Hc. by rewrite decide_False.
  - by rewrite Hlen'.
  - exists rows, sorted. split; [|split; [done|split; [done|]]].
    + by apply lookup_app_l_Some.
    + rewrite <- Hlen'. by apply list_lookup_middle.
Qed.

(** X24. The frames that are rendered are the unsorted and unrounded
    ones: when the loop over the two boolean columns completes, the entry
    of [dfs_imag] for either column names a frame with one row per model,
    in the order of the loop over the models and with the scores as
    computed, whatever [sort_values] and [round] return; their result is
    held only by another frame, the one named [df_imag] at the end. *)
Theorem rendered_tables_unsorted inputs st :
  NoDup (fst <$> inputs has_imag_freq) ->
  NoDup (fst <$> inputs has_imag_gamma_freq) ->
  imag_tables sort_values round inputs = Ok st ->
  (forall col, col = has_imag_freq \/ col = has_imag_gamma_freq ->
     exists rows, rendered st col = Some rows
                  /\ Forall2 row_of (inputs col) rows
                  /\ dfs_imag st col <> df_imag st)
  /\ exists r rows sorted,
       df_imag st = Some r
       /\ rendered st has_imag_gamma_freq = Some rows
       /\ sort_values rows = Ok sorted
       /\ heap st !! r = Some (round sorted).
Proof.
  intros Hnd1 Hnd2 Hrun. unfold imag_tables in Hrun.
  destruct (column_turn _ _ has_imag_freq _ _) as [st1|] eqn:Hturn1; [|done].
  destruct (column_turn_spec _ _ _ _ Hturn1 Hnd1)
    as (_ & Hlen1 & Hdfs1 & _ & _ & rows1 & sorted1 & Hrows1 & Hall1 & _ & _).
  destruct (column_turn_spec _ _ _ _ Hrun Hnd2)
    as (Hold & _ & Hdfs2 & Hkeep & Hname & rows2 & sorted2 & Hrows2 & Hall2 & Hsort2 & Hcopy).
  cbn [heap length] in *. rewrite Hlen1 in *. cbn [Nat.add] in *.
  split.
  - intros col [->| ->].
    + exists rows1. unfold rendered.
      rewrite Hkeep, Hdfs1 by done. rewrite Hold by lia.
      split; [done|]. split; [done|]. by rewrite Hname.
    + exists rows2. unfold rendered. rewrite Hdfs2.
      split; [done|]. split; [done|]. rewrite Hname. intros [=].
  - exists 3%nat, rows2, sorted2. unfold rendered. by rewrite Hdfs2.
Qed.

End ImagTablesFacts.

Lemma rendered_tables_unsorted_witness :
  exists st,
    MetricsTable.imag_tables MetricsTable.sort_values_example id
      MetricsTable.imag_inputs_example = Ok st
    /\ (forall col,
          col = MetricsTable.has_imag_freq \/ col = MetricsTable.has_imag_gamma_freq ->
          exists rows,
            MetricsTable.rendered st col = Some rows
            /\ Forall2 MetricsTable.row_of (MetricsTable.imag_inputs_example col) rows
            /\ MetricsTable.dfs_imag st col <> MetricsTable.df_imag st)
    /\ exists r rows sorted,
         MetricsTable.df_imag st = Some r
         /\ MetricsTable.rendered st MetricsTable.has_imag_gamma_freq = Some rows
         /\ MetricsTable.sort_values_example rows = Ok sorted
         /\ MetricsTable.heap st !! r = Some (id sorted).
Proof.
  assert (Hnd : NoDup ["CHGNet"; "MACE"]).
  { apply NoDup_cons. split; [|apply NoDup_singleton].
    intros Hin%list_elem_of_singleton. discriminate. }
  eexists. split; [vm_compute; reflexivity|].
  apply (rendered_tables_unsorted MetricsTable.sort_values_example id
           MetricsTable.imag_inputs_example); [exact Hnd | exact Hnd |].
  vm_compute. reflexivity.
Defined.

(** ** The arrows of the rendered table *)

Section ArrowFacts.
Import MetricsTable.

Lemma dict_get_fromkeys_acc {V} (keys : list string) (v : V) d k :
  Phonon.dict_get k (foldl (fun d k => Phonon.dict_set k v d) d keys)
  = if decide (k ∈ keys) then Some v else Phonon.dict_get k d.
Proof.
  revert d. induction keys as [|a keys IH]; intros d; cbn [foldl].
  - rewrite decide_False; [done|]. apply not_elem_of_nil.
  - rewrite IH. destruct (decide (k ∈ keys)) as [Hin|Hnotin].
    + rewrite decide_True; [done|]. by right.
    + destruct (decide (a = k)) as [->|Hne].
      * rewrite dict_get_set_eq, decide_True; [done|]. by left.
      * rewrite dict_get_set_ne by done. rewrite decide_False; [done|].
        intros [?|?]%elem_of_cons; congruence.
Qed.

Lemma dict_get_fromkeys {V} (keys : list string) (v : V) k :
  Phonon.dict_get k (fromkeys keys v) = if decide (k ∈ keys) then Some v else None.
Proof. unfold fromkeys. by rewrite dict_get_fromkeys_acc. Qed.

(** The right operand of a union wins. *)
Lemma dict_get_union {V} (d1 d2 : list (string * V)) k :
  NoDup (Phonon.dict_keys d2) ->
  Phonon.dict_get k (dict_union d1 d2)
  = match Phonon.dict_get k d2 with
    | Some v => Some v
    | None => Phonon.dict_get k d1
    end.
Proof.
  unfold dict_union. revert d1.
  induction d2 as [|[k2 v2] d2 IH]; intros d1 Hnd; cbn [foldl fst snd]; [done|].
  cbn in Hnd. apply NoDup_cons in Hnd as [Hnotin Hnd].
  rewrite IH by done. cbn [Phonon.dict_get].
  destruct (String.eqb_spec k k2) as [->|Hne].
  - apply (dict_get_None (fun _ : string => Ok tt)) in Hnotin. by rewrite Hnotin, dict_get_set_eq.
  - destruct (Phonon.dict_get k d2); [done|]. by rewrite dict_get_set_ne.
Qed.

Lemma fromkeys_nodup {V} (keys : list string) (v : V) :
  NoDup (Phonon.dict_keys (fromkeys keys v)).
Proof.
  unfold fromkeys.
  assert (Hgen : forall d, NoDup (Phonon.dict_keys d) ->
                   NoDup (Phonon.dict_keys (foldl (fun d k => Phonon.dict_set k v d) d keys))).
  { induction keys as [|a keys IH]; intros d Hd; cbn [foldl]; [done|].
    by apply IH, (dict_set_nodup (fun _ : string => Ok tt)). }
  apply Hgen. constructor.
Qed.

(** X25. Every row label of the rendered table gets exactly one arrow:
    the down arrow when its name contains MAE, FNR or FPR and the up
    arrow otherwise; the empty default of the lookup is never used. *)
Theorem relabel_index_arrows columns :
  relabel_index columns
  = map (fun col => col +:+ (if is_lower_better col then arrow_down else arrow_up))
        columns.
Proof.
  unfold relabel_index. apply Forall_fmap_ext_1, Forall_forall. intros col Hcol.
  f_equal. unfold arrow_suffix.
  rewrite dict_get_union by apply fromkeys_nodup.
  rewrite !dict_get_fromkeys.
  destruct (is_lower_better col) eqn:Hlow.
  - rewrite decide_True; [done|].
    unfold lower_better. apply list_elem_of_In, filter_In. split; [|done].
    by apply list_elem_of_In.
  - assert (Hnot : col ∉ lower_better columns).
    { unfold lower_better. rewrite list_elem_of_In, filter_In. intros [_ Hyes]. congruence. }
    rewrite decide_False by done.
    rewrite decide_True; [done|].
    unfold higher_better. rewrite elem_of_elements, elem_of_difference.
    by rewrite !elem_of_list_to_set.
Qed.

End ArrowFacts.

(** ** The test of the enums *)

Section TestEnumsFacts.
Import TestEnums.

Variable StrEnum LabelEnum : string -> bool.
Variable key_val_dict val_label_dict : string -> result (option (list (string * string))).

(** X26. [test_label_enum] passes for every content of the module and
    calls no method of any class: [dir] yields the names of the
    attributes, which are strings and no classes, so that the body of
    the loop is never entered.  On a class that derives from [StrEnum]
    but not from [LabelEnum] the body would fail its first assertion. *)
Theorem test_label_enum_checks_nothing :
  (forall enums_module,
      test_label_enum StrEnum LabelEnum key_val_dict val_label_dict enums_module = Ok tt
      /\ Forall (fun enum => isclass enum = false) (dir enums_module))
  /\ (forall name, StrEnum name = true -> LabelEnum name = false ->
        check_enum StrEnum LabelEnum key_val_dict val_label_dict (PyClass name)
        = Raise (AssertionError "")).
Proof.
  split.
  - intros enums_module. unfold test_label_enum.
    induction enums_module as [|[name v] rest [IH1 IH2]]; cbn; [by split|].
    split; [exact IH1 | by constructor].
  - intros name Hstr Hlabel. unfold check_enum. cbn. by rewrite Hstr, Hlabel.
Qed.

End TestEnumsFacts.

(** ** The comparison plots *)

Section PlotFacts.
Import Phonon.

Context {DocDict : Type}.
Variable plot_bands : doc DocDict -> doc DocDict -> string -> result unit.
Variable plot_dos : doc DocDict -> doc DocDict -> doc DocDict -> string -> result unit.

Hypothesis plot_bands_raises :
  forall chgnet mace material,
    plot_bands chgnet mace material = Ok tt
    \/ exists msg, plot_bands chgnet mace material = Raise (ValueError msg).
Hypothesis plot_dos_raises :
  forall chgnet mace mp material,
    plot_dos chgnet mace mp material = Ok tt
    \/ exists msg, plot_dos chgnet mace mp material = Raise (ValueError msg).

Lemma plot_material_cases all_docs material :
  plot_material DocDict plot_bands plot_dos all_docs material = Ok tt
  \/ plot_material DocDict plot_bands plot_dos all_docs material
     = Raise (ExternalError "KeyError").
Proof.
  unfold plot_material.
  destruct (all_docs_get material "mace" all_docs) as [mace|]; [|by right].
  destruct (all_docs_get material "chgnet" all_docs) as [chgnet|]; [|by right].
  destruct (plot_bands_raises chgnet mace material) as [->|[msg ->]]; [|by left].
  destruct (all_docs_get material "mp" all_docs) as [mp|]; [|by right].
  destruct (plot_dos_raises chgnet mace mp material) as [->|[msg ->]]; by left.
Qed.

Lemma plot_material_complete all_docs material :
  is_Some (all_docs_get material "mace" all_docs) ->
  is_Some (all_docs_get material "chgnet" all_docs) ->
  is_Some (all_docs_get material "mp" all_docs) ->
  plot_material DocDict plot_bands plot_dos all_docs material = Ok tt.
Proof.
  intros [mace Hmace] [chgnet Hchgnet] [mp Hmp]. unfold plot_material.
  rewrite Hmace, Hchgnet.
  destruct (plot_bands_raises chgnet mace material) as [->|[msg ->]]; [|done].
  rewrite Hmp.
  by destruct (plot_dos_raises chgnet mace mp material) as [->|[msg ->]].
Qed.

(** X27. The handler of the plotting loop catches [ValueError] only:
    when the plotting calls raise nothing else, the loop completes if
    every material with three sources has the sources mace, chgnet and
    mp, and it ends in a [KeyError] as soon as one of them lacks mace or
    chgnet. *)
Theorem plot_all_key_error all_docs :
  (Forall (fun material =>
             is_Some (all_docs_get material "mace" all_docs)
             /\ is_Some (all_docs_get material "chgnet" all_docs)
             /\ is_Some (all_docs_get material "mp" all_docs))
          (materials_with_3 DocDict all_docs) ->
   plot_all DocDict plot_bands plot_dos all_docs = Ok tt)
  /\ (Exists (fun material =>
                all_docs_get material "mace" all_docs = None
                \/ all_docs_get material "chgnet" all_docs = None)
             (materials_with_3 DocDict all_docs) ->
      plot_all DocDict plot_bands plot_dos all_docs = Raise (ExternalError "KeyError")).
Proof.
  unfold plot_all. generalize (materials_with_3 DocDict all_docs) as materials.
  intros materials. split.
  - induction 1 as [|material rest (Hmace & Hchgnet & Hmp) _ IH]; cbn; [done|].
    by rewrite plot_material_complete.
  - induction 1 as [material rest Hmissing|material rest _ IH]; cbn.
    + unfold plot_material.
      destruct Hmissing as [->| Hchgnet]; [done|].
      destruct (all_docs_get material "mace" all_docs); [|done].
      by rewrite Hchgnet.
    + destruct (plot_material_cases all_docs material) as [->| ->]; done.
Qed.

End PlotFacts.

Lemma plot_all_key_error_witness :
  Phonon.plot_all unit Phonon.plot_bands_example Phonon.plot_dos_example
    (take 1 Phonon.plot_example) = Ok tt
  /\ Phonon.plot_all unit Phonon.plot_bands_example Phonon.plot_dos_example
       Phonon.plot_example = Raise (ExternalError "KeyError").
Proof.
  assert (Hbands : forall chgnet mace material,
             Phonon.plot_bands_example chgnet mace material = Ok tt
             \/ exists msg,
                 Phonon.plot_bands_example chgnet mace material = Raise (ValueError msg))
    by (by left).
  assert (Hdos : forall chgnet mace mp material,
             Phonon.plot_dos_example chgnet mace mp material = Ok tt
             \/ exists msg,
                 Phonon.plot_dos_example chgnet mace mp material = Raise (ValueError msg))
    by (right; by eexists).
  split.
  - apply (proj1 (plot_all_key_error _ _ Hbands Hdos (take 1 Phonon.plot_example))).
    repeat constructor; by eexists.
  - apply (proj2 (plot_all_key_error _ _ Hbands Hdos Phonon.plot_example)).
    apply Exists_cons_tl, Exists_cons_hd. by left.
Defined.

(** ** The main loop *)

Section MainLoopFacts.
Import Phonon.

Variable FIGS_DIR : string.
Variable models : list string.
Context {Responses : Type}.
Variable get_structure_by_material_id : string -> result Mp.Structure.
Variable get_data_by_id : string -> result unit.
Variable run_locally : string -> string -> result Responses.
Variable ml_phonon_doc : Responses -> result unit.
Variable plot_phonon_bs : string -> string -> result unit.
Variable plot_phonon_dos : string -> string -> result unit.

Abbreviation model_turn' :=
  (model_turn Responses run_locally ml_phonon_doc plot_phonon_bs plot_phonon_dos).
Abbreviation model_turns' :=
  (model_turns Responses run_locally ml_phonon_doc plot_phonon_bs plot_phonon_dos).
Abbreviation reference_turn' :=
  (reference_turn get_data_by_id plot_phonon_bs plot_phonon_dos).
Abbreviation material_turn' :=
  (material_turn FIGS_DIR models Responses get_structure_by_material_id get_data_by_id
     run_locally ml_phonon_doc plot_phonon_bs plot_phonon_dos).
Abbreviation main_loop' :=
  (main_loop FIGS_DIR models Responses get_structure_by_material_id get_data_by_id
     run_locally ml_phonon_doc plot_phonon_bs plot_phonon_dos).
Abbreviation settled' := (settled FIGS_DIR models get_structure_by_material_id).

Lemma extends_refl st : extends st st.
Proof. by split. Qed.

Lemma extends_trans st1 st2 st3 : extends st1 st2 -> extends st2 st3 -> extends st1 st3.
Proof. intros [? ?] [? ?]. split; by etrans. Qed.

Lemma extends_print l st : extends st (print l st).
Proof. split; [done|]. by apply prefix_app_r. Qed.

Lemma extends_save path st : extends st (save path st).
Proof. split; [|done]. cbn. set_solver. Qed.

Lemma extends_start j st : extends st (start j st).
Proof. by split. Qed.

Lemma no_failure_prefix st st' :
  extends st st' -> Forall not_failed (printed st') -> Forall not_failed (printed st).
Proof. intros [_ [k ->]] Hall. by apply Forall_app in Hall as [? _]. Qed.

Lemma handle_ok model e st st' :
  handle model e st = Ok st' ->
  extends st st' /\ ~ Forall not_failed (printed st').
Proof.
  unfold handle. destruct (caught e); [|done]. intros [= <-].
  split; [apply extends_print|]. cbn.
  intros [_ Hlast]%Forall_app. by apply Forall_cons in Hlast as [? _].
Qed.

Lemma in_saved path path' st : path ∈ on_disk st -> path ∈ on_disk (save path' st).
Proof. cbn. set_solver. Qed.

Lemma in_save path st : path ∈ on_disk (save path st).
Proof. cbn. set_solver. Qed.

(** The turn of a model only adds files and output; when it reports no
    failure, the three files of the model are there afterwards. *)
Lemma model_turn_ok mp_id formula dir st model st' :
  model_turn' mp_id formula dir st model = Ok st' ->
  extends st st'
  /\ (Forall not_failed (printed st') ->
      Forall (fun path => path ∈ on_disk st') (model_files dir model)).
Proof.
  unfold model_turn, model_files.
  destruct (isfile _ st && isfile _ st && isfile _ st) eqn:Hskip.
  - intros [= <-]. split; [apply extends_print|]. intros _.
    apply andb_prop in Hskip as [[H1 H2]%andb_prop H3].
    unfold isfile in *. apply bool_decide_eq_true in H1, H2, H3.
    by repeat constructor.
  - destruct (run_locally model mp_id) as [responses|e]; [|intros Hturn].
    2: { apply handle_ok in Hturn as [Hext Hfailed]. split; [|by intros ?].
         eapply extends_trans; [apply extends_start|done]. }
    destruct (ml_phonon_doc responses) as [[]|e]; [|intros Hturn].
    2: { apply handle_ok in Hturn as [Hext Hfailed]. split; [|by intros ?].
         eapply extends_trans; [apply extends_start|].
         eapply extends_trans; [apply extends_print|done]. }
    destruct (plot_phonon_dos model mp_id) as [[]|e]; [|intros Hturn].
    2: { apply handle_ok in Hturn as [Hext Hfailed]. split; [|by intros ?].
         eapply extends_trans; [apply extends_start|].
         eapply extends_trans; [apply extends_print|].
         eapply extends_trans; [apply extends_save|done]. }
    destruct (plot_phonon_bs model mp_id) as [[]|e]; [|intros Hturn].
    2: { apply handle_ok in Hturn as [Hext Hfailed]. split; [|by intros ?].
         eapply extends_trans; [apply extends_start|].
         eapply extends_trans; [apply extends_print|].
         eapply extends_trans; [apply extends_save|].
         eapply extends_trans; [apply extends_save|done]. }
    intros [= <-]. split.
    + eapply extends_trans; [apply extends_start|].
      eapply extends_trans; [apply extends_print|].
      eapply extends_trans; [apply extends_save|].
      eapply extends_trans; [apply extends_save|apply extends_save].
    + intros _. repeat constructor.
      * apply in_saved, in_save.
      * apply in_save.
      * apply in_saved, in_saved, in_save.
Qed.

(** With its three files there, the turn of a model runs nothing. *)
Lemma model_turn_skip mp_id formula dir st model :
  Forall (fun path => path ∈ on_disk st) (model_files dir model) ->
  model_turn' mp_id formula dir st model = Ok (print (Skipping model formula) st).
Proof.
  unfold model_files, model_turn, isfile.
  intros (H1 & (H2 & (H3 & _)%Forall_cons)%Forall_cons)%Forall_cons.
  by rewrite !bool_decide_eq_true_2.
Qed.

Lemma files_kept st st' (paths : list string) :
  extends st st' ->
  Forall (fun path => path ∈ on_disk st) paths ->
  Forall (fun path => path ∈ on_disk st') paths.
Proof.
  intros [Hsub _] Hall. eapply Forall_impl; [exact Hall|]. intros path. apply Hsub.
Qed.

Lemma model_turns_ok mp_id formula dir ms st st' :
  model_turns' mp_id formula dir ms st = Ok st' ->
  extends st st'
  /\ (Forall not_failed (printed st') ->
      Forall (fun model => Forall (fun path => path ∈ on_disk st') (model_files dir model))
             ms).
Proof.
  revert st. induction ms as [|model ms IH]; intros st Hturns; cbn in Hturns.
  - injection Hturns as <-. split; [apply extends_refl | by constructor].
  - destruct (model_turn' mp_id formula dir st model) as [st1|] eqn:Hturn; [|done].
    apply model_turn_ok in Hturn as [Hext1 Hfiles1].
    destruct (IH _ Hturns) as [Hext Hfiles].
    split; [by eapply extends_trans|]. intros Hclean. constructor; [|by apply Hfiles].
    eapply files_kept; [exact Hext|]. apply Hfiles1.
    by eapply no_failure_prefix.
Qed.

Lemma same_work_refl st : same_work st st.
Proof. by split. Qed.

Lemma same_work_trans st1 st2 st3 :
  same_work st1 st2 -> same_work st2 st3 -> same_work st1 st3.
Proof. intros [? ?] [? ?]. split; congruence. Qed.

Lemma model_turns_skip mp_id formula dir ms st :
  Forall (fun model => Forall (fun path => path ∈ on_disk st) (model_files dir model)) ms ->
  exists st', model_turns' mp_id formula dir ms st = Ok st' /\ same_work st st'.
Proof.
  revert st. induction ms as [|model ms IH]; intros st Hall; cbn.
  - exists st. split; [done|apply same_work_refl].
  - apply Forall_cons in Hall as [Hmodel Hall].
    rewrite model_turn_skip by done.
    destruct (IH (print (Skipping model formula) st)) as (st' & -> & Hsame); [done|].
    exists st'. split; [done|]. eapply same_work_trans; [|exact Hsame]. by split.
Qed.

Lemma reference_turn_ok mp_id dir st st' :
  reference_turn' mp_id dir st = Ok st' ->
  extends st st' /\ Forall (fun path => path ∈ on_disk st') (reference_files dir).
Proof.
  unfold reference_turn, reference_files.
  destruct (negb (isfile _ st) || negb (isfile _ st)) eqn:Hmissing.
  - destruct (get_data_by_id mp_id) as [[]|]; [|done].
    destruct (plot_phonon_bs "MP" mp_id) as [[]|]; [|done].
    destruct (plot_phonon_dos "MP" mp_id) as [[]|]; [|done].
    intros [= <-]. split.
    + eapply extends_trans; [apply extends_start|].
      eapply extends_trans; [apply extends_save|].
      eapply extends_trans; [apply extends_save|apply extends_save].
    + repeat constructor; [apply in_save | apply in_saved, in_save].
  - intros [= <-]. split; [apply extends_refl|].
    apply orb_false_iff in Hmissing as [H1%negb_false_iff H2%negb_false_iff].
    unfold isfile in *. apply bool_decide_eq_true in H1, H2. by repeat constructor.
Qed.

Lemma reference_turn_skip mp_id dir st :
  Forall (fun path => path ∈ on_disk st) (reference_files dir) ->
  reference_turn' mp_id dir st = Ok st.
Proof.
  unfold reference_files, reference_turn, isfile.
  intros (H1 & (H2 & _)%Forall_cons)%Forall_cons.
  by rewrite !bool_decide_eq_true_2.
Qed.

Lemma settled_kept mp_id st st' : extends st st' -> settled' mp_id st -> settled' mp_id st'.
Proof.
  intros Hext (struct & Hstruct & Href & Hmodels). exists struct. split; [done|].
  split; [by eapply files_kept|].
  eapply Forall_impl; [exact Hmodels|]. intros model. by apply files_kept.
Qed.

Lemma material_turn_ok mp_id st st' :
  material_turn' mp_id st = Ok st' ->
  extends st st' /\ (Forall not_failed (printed st') -> settled' mp_id st').
Proof.
  unfold material_turn.
  destruct (get_structure_by_material_id mp_id) as [struct|] eqn:Hstruct; [|done].
  destruct (reference_turn' mp_id _ st) as [st1|] eqn:Href; [|done].
  intros Hturns. apply reference_turn_ok in Href as [Hext1 Href].
  apply model_turns_ok in Hturns as [Hext2 Hmodels].
  split; [by eapply extends_trans|]. intros Hclean.
  exists struct. split; [done|]. split; [by eapply files_kept | by apply Hmodels].
Qed.

Lemma material_turn_skip mp_id st :
  settled' mp_id st -> exists st', material_turn' mp_id st = Ok st' /\ same_work st st'.
Proof.
  intros (struct & Hstruct & Href & Hmodels). unfold material_turn.
  rewrite Hstruct, reference_turn_skip by done. by apply model_turns_skip.
Qed.

Lemma main_loop_ok mp_ids st st' :
  main_loop' mp_ids st = Ok st' ->
  extends st st'
  /\ (Forall not_failed (printed st') -> Forall (fun mp_id => settled' mp_id st') mp_ids).
Proof.
  revert st. induction mp_ids as [|mp_id mp_ids IH]; intros st Hrun; cbn in Hrun.
  - injection Hrun as <-. split; [apply extends_refl | by constructor].
  - destruct (material_turn' mp_id st) as [st1|] eqn:Hturn; [|done].
    apply material_turn_ok in Hturn as [Hext1 Hsettled1].
    destruct (IH _ Hrun) as [Hext Hsettled].
    split; [by eapply extends_trans|]. intros Hclean. constructor; [|by apply Hsettled].
    eapply settled_kept; [exact Hext|]. apply Hsettled1. by eapply no_failure_prefix.
Qed.

Lemma main_loop_skip mp_ids st :
  Forall (fun mp_id => settled' mp_id st) mp_ids ->
  exists st', main_loop' mp_ids st = Ok st' /\ same_work st st'.
Proof.
  revert st. induction mp_ids as [|mp_id mp_ids IH]; intros st Hall; cbn.
  - exists st. split; [done|apply same_work_refl].
  - apply Forall_cons in Hall as [Hhere Hall].
    destruct (material_turn_skip _ _ Hhere) as (st1 & -> & Hsame1).
    destruct (IH st1) as (st' & -> & Hsame).
    + eapply Forall_impl; [exact Hall|]. intros mp_id' (struct & ? & Href & Hmodels).
      destruct Hsame1 as [Hdisk _]. exists struct. split; [done|].
      rewrite Hdisk. by split.
    + exists st'. split; [done|]. by eapply same_work_trans.
Qed.

(** X28. A run of the main loop that completes and reports no failure
    leaves nothing to do: a second run over the same material ids, from
    the state the first one left, completes as well, fetches no reference
    data, runs no model and writes no file. *)
Theorem main_loop_rerun_does_nothing mp_ids st st1 :
  main_loop' mp_ids st = Ok st1 ->
  Forall not_failed (printed st1) ->
  exists st2, main_loop' mp_ids st1 = Ok st2
              /\ on_disk st2 = on_disk st1 /\ jobs st2 = jobs st1.
Proof.
  intros Hrun Hclean.
  destruct (main_loop_ok _ _ _ Hrun) as [_ Hsettled].
  destruct (main_loop_skip mp_ids st1 (Hsettled Hclean)) as (st2 & Hrerun & Hdisk & Hjobs).
  by exists st2.
Qed.

End MainLoopFacts.

Lemma main_loop_rerun_does_nothing_witness :
  exists st1 st2,
    Phonon.main_loop_example ["mp-1"; "mp-2"] (Phonon.RunState ∅ [] []) = Ok st1
    /\ Phonon.main_loop_example ["mp-1"; "mp-2"] st1 = Ok st2
    /\ Phonon.on_disk st2 = Phonon.on_disk st1
    /\ Phonon.jobs st2 = Phonon.jobs st1.
Proof.
  set (st1 := match Phonon.main_loop_example ["mp-1"; "mp-2"] (Phonon.RunState ∅ [] []) with
              | Ok st => st
              | Raise _ => Phonon.RunState ∅ [] []
              end).
  assert (Hrun : Phonon.main_loop_example ["mp-1"; "mp-2"] (Phonon.RunState ∅ [] []) = Ok st1)
    by (vm_compute; reflexivity).
  assert (Hclean : Forall Phonon.not_failed (Phonon.printed st1))
    by (vm_compute; repeat constructor).
  destruct (main_loop_rerun_does_nothing _ _ _ _ _ _ _ _ _ _ _ Hrun Hclean)
    as (st2 & Hrerun & Hdisk & Hjobs).
  exists st1, st2.
  split; [exact Hrun|]. split; [exact Hrerun|]. split; [exact Hdisk | exact Hjobs].
Defined.
